(** * CUDA tracing pipeline: shallow embedding and verified properties

    Embedded sources:
    - [tools/visualize_pipeline.py]: [CUDATraceEvent], [PipelineAnalyzer]
      ([match_events], [categorize], [print_ascii_timeline],
      [generate_flamegraph_data], [generate_chrome_trace]);
    - [ebpf/cuda_tracer.py]: the BPF handlers [trace_cuda_entry] and
      [trace_cuda_exit] with the [call_depth] table, and
      [CUDATracer.find_libcuda_path] / [CUDATracer.run].

    Python floats are IEEE-754 binary64 and are modelled by the kernel's
    primitive floats; Python ints are [Z]; dicts are [gmap]s. *)

From Stdlib Require Import ZArith Lia Bool Ascii String.
From Stdlib Require Import Floats.
From stdpp Require Import base option list gmap strings pretty sorting.

Set Warnings "-register-all".
Local Open Scope string_scope.
Local Open Scope Z_scope.
Local Open Scope list_scope.

(** ** Python exceptions and fallible results *)

Inductive PyExc : Type :=
  | ValueError
  | OverflowError
  | ZeroDivisionError
  | IndexError
  | RuntimeError (msg : string).

Inductive res (A : Type) : Type :=
  | Ok (a : A)
  | Raise (e : PyExc).
Arguments Ok {A} a.
Arguments Raise {A} e.

Definition res_bind {A B : Type} (r : res A) (k : A -> res B) : res B :=
  match r with
  | Ok a => k a
  | Raise e => Raise e
  end.

Notation "x <-! r ; k" := (res_bind r (fun x => k))
  (at level 100, r at next level, right associativity).

(** [for x in l: acc = body(acc, x)] where the body may raise. *)
Fixpoint res_fold {A B : Type} (body : B -> A -> res B) (l : list A) (acc : B)
  : res B :=
  match l with
  | [] => Ok acc
  | x :: l' => acc' <-! body acc x; res_fold body l' acc'
  end.

(** ** JSON values (the [details] payload and the trace-viewer export) *)

Inductive json : Type :=
  | JNull
  | JBool (b : bool)
  | JInt (z : Z)
  | JFloat (f : float)
  | JStr (s : string)
  | JArr (l : list json)
  | JObj (fields : list (string * json)).

(** Python truthiness of a decoded JSON value, as used by [details or {}]. *)
Definition json_truthy (j : json) : bool :=
  match j with
  | JNull => false
  | JBool b => b
  | JInt z => negb (z =? 0)
  | JFloat f => negb (PrimFloat.eqb f 0%float)
  | JStr s => negb (String.eqb s "")
  | JArr l => match l with [] => false | _ => true end
  | JObj fs => match fs with [] => false | _ => true end
  end.

(** ** Python float operations *)

Module PyFloat.

(** [int(x)]: truncation toward zero; [ValueError] on NaN and
    [OverflowError] on an infinity. *)
Definition to_int (x : float) : res Z :=
  match Prim2SF x with
  | S754_zero _ => Ok 0
  | S754_finite s m e => Ok (cond_Zopp s (Z.shiftl (Z.pos m) e))
  | S754_infinity _ => Raise OverflowError
  | S754_nan => Raise ValueError
  end.

(** The mathematical floor of a finite float ([None] on NaN and the
    infinities).  Used to state the flamegraph count. *)
Definition floor (x : float) : option Z :=
  match Prim2SF x with
  | S754_zero _ => Some 0
  | S754_finite s m e => Some (Z.shiftl (cond_Zopp s (Z.pos m)) e)
  | _ => None
  end.

Definition is_finite (x : float) : bool :=
  match Prim2SF x with
  | S754_zero _ | S754_finite _ _ _ => true
  | _ => false
  end.

(** [x / y]: Python raises on a zero divisor (either sign). *)
Definition div (x y : float) : res float :=
  if PrimFloat.eqb y 0%float then Raise ZeroDivisionError
  else Ok (PrimFloat.div x y).

End PyFloat.

(** ** [sorted(iterable, key=...)] on float keys

    Python's sort is stable and compares keys with [<] only.  It is modelled
    by the stable insertion sort below; on keys free of NaN ([<] is then a
    strict weak order) every stable sort returns this same list.  On keys
    with a NaN the list Python returns depends on the runs and merges of
    its sort and is not the one below: the properties that depend on the
    order of the result are stated for keys free of NaN ([nan_free]). *)

Section Sorted.
Context {A : Type} (key : A -> float).

Fixpoint insert_sorted (x : A) (l : list A) : list A :=
  match l with
  | [] => [x]
  | y :: l' =>
      if PrimFloat.ltb (key y) (key x) then y :: insert_sorted x l'
      else x :: y :: l'
  end.

Definition sorted (l : list A) : list A := foldr insert_sorted [] l.

(** The keys of [l] are free of NaN. *)
Definition nan_free (l : list A) : Prop :=
  Forall (fun x => PrimFloat.is_nan (key x) = false) l.

End Sorted.

(** ** [visualize_pipeline.py]: events and operations *)

(** A correlation key: [None], an int or a str (the decoded [op_id]). *)
Abbreviation op_key := (option (Z + string)%type).

Record CUDATraceEvent : Type := mkEvent {
  ev_ts : float;
  ev_name : string;
  ev_phase : string;
  ev_op_id : op_key;
  ev_tid : option Z;
  ev_depth : Z;
  ev_details : json
}.

(** [CUDATraceEvent.__init__] on already decoded [ts] and [depth];
    [details or {}] replaces a falsy payload by the empty object. *)
Definition CUDATraceEvent__init__ (ts : float) (name phase : string)
    (op_id : op_key) (tid : option Z) (depth : Z) (details : json)
  : CUDATraceEvent :=
  {| ev_ts := ts; ev_name := name; ev_phase := phase; ev_op_id := op_id;
     ev_tid := tid; ev_depth := depth;
     ev_details := if json_truthy details then details else JObj [] |}.

(** The [op] dict built by [match_events]. *)
Record Operation : Type := mkOp {
  op_name : string;
  op_start : float;
  op_end : float;
  op_duration : float;
  op_depth : Z;
  op_details : json
}.

(** ** [PipelineAnalyzer.categorize] *)

(** [needle in hay] on strings. *)
Fixpoint contains (needle hay : string) : bool :=
  String.prefix needle hay ||
  match hay with
  | EmptyString => false
  | String _ hay' => contains needle hay'
  end.

Definition categorize (func_name : string) : string :=
  if contains "MemAlloc" func_name || contains "MemFree" func_name then
    "memory_mgmt"
  else if contains "Memcpy" func_name then "transfer"
  else if contains "Launch" func_name then "kernel"
  else if contains "Ctx" func_name then "context"
  else if contains "Stream" func_name then "stream"
  else if contains "Module" func_name then "module"
  else if contains "Init" func_name || contains "Device" func_name then "init"
  else if contains "Synchronize" func_name then "sync"
  else "other".

(** The rule table of the specification, section 4.8, in its order: each
    rule lists its substrings and its category; the first rule with a
    matching substring wins and [other] is the default. *)
Definition category_rules : list (list string * string) :=
  [ (["MemAlloc"; "MemFree"], "memory_mgmt");
    (["Memcpy"], "transfer");
    (["Launch"], "kernel");
    (["Ctx"], "context");
    (["Stream"], "stream");
    (["Module"], "module");
    (["Init"; "Device"], "init");
    (["Synchronize"], "sync") ].

Definition rule_matches (name : string) (rule : list string * string) : bool :=
  existsb (fun needle => contains needle name) (fst rule).

Definition categorize_by_rules (name : string) : string :=
  match find (rule_matches name) category_rules with
  | Some rule => snd rule
  | None => "other"
  end.

(** ** [PipelineAnalyzer]: state and [match_events] *)

Record PipelineAnalyzer : Type := mkAnalyzer {
  events : list CUDATraceEvent;
  categories : gmap string (list Operation);
  timeline : list Operation
}.

Definition PipelineAnalyzer__init__ : PipelineAnalyzer :=
  {| events := []; categories := ∅; timeline := [] |}.

(** The loop state of [match_events]: the local [stack] dict together with
    the two attributes the loop appends to. *)
Record MatchState : Type := mkMatch {
  stack : gmap op_key CUDATraceEvent;
  ms_timeline : list Operation;
  ms_categories : gmap string (list Operation)
}.

(** The [op] dict built from an end event and the popped begin event. *)
Definition make_op (event begin : CUDATraceEvent) : Operation :=
  {| op_name := ev_name event;
     op_start := ev_ts begin;
     op_end := ev_ts event;
     op_duration := PrimFloat.sub (ev_ts event) (ev_ts begin);
     op_depth := ev_depth begin;
     op_details := ev_details event |}.

(** [self.categories[category].append(op)] on a [defaultdict(list)]. *)
Definition categories_append (cats : gmap string (list Operation))
    (category : string) (op : Operation) : gmap string (list Operation) :=
  <[category := default [] (cats !! category) ++ [op]]> cats.

(** One iteration of the loop body. *)
Definition match_event (s : MatchState) (event : CUDATraceEvent) : MatchState :=
  if String.eqb (ev_phase event) "B" then
    {| stack := <[ev_op_id event := event]> (stack s);
       ms_timeline := ms_timeline s;
       ms_categories := ms_categories s |}
  else if String.eqb (ev_phase event) "E" then
    match stack s !! ev_op_id event with
    | Some begin =>
        let op := make_op event begin in
        {| stack := delete (ev_op_id event) (stack s);
           ms_timeline := ms_timeline s ++ [op];
           ms_categories :=
             categories_append (ms_categories s) (categorize (ev_name event)) op |}
    | None => s
    end
  else s.

(** The scan: the loop over an already ordered event sequence. *)
Definition match_scan (evs : list CUDATraceEvent) (s : MatchState) : MatchState :=
  fold_left match_event evs s.

Definition match_init (self : PipelineAnalyzer) : MatchState :=
  {| stack := ∅; ms_timeline := timeline self; ms_categories := categories self |}.

(** The order in which [match_events] visits the events. *)
Definition scan_order (self : PipelineAnalyzer) : list CUDATraceEvent :=
  sorted ev_ts (events self).

Definition match_events (self : PipelineAnalyzer) : PipelineAnalyzer :=
  let s := match_scan (scan_order self) (match_init self) in
  {| events := events self;
     categories := ms_categories s;
     timeline := ms_timeline s |}.

(** The method with the events visited in the order [order].  Python's
    sort returns the events in some order, a permutation of the list,
    whatever their keys are; [match_events] is the method with the order
    [scan_order], which is the order of Python's sort when no timestamp is
    NaN. *)
Definition match_events_in (order : list CUDATraceEvent)
    (self : PipelineAnalyzer) : PipelineAnalyzer :=
  let s := match_scan order (match_init self) in
  {| events := events self;
     categories := ms_categories s;
     timeline := ms_timeline s |}.

(** ** [PipelineAnalyzer.generate_flamegraph_data] *)

Definition newline : string := String "010"%char "".

(** [count = int(op['duration'] * 1000000)]. *)
Definition flamegraph_count (op : Operation) : res Z :=
  PyFloat.to_int (PrimFloat.mul (op_duration op) 1000000%float).

(** [f"{stack} {count}\n"] with [stack = f"CUDA;{op['name']}"]. *)
Definition flamegraph_format (name : string) (count : Z) : string :=
  ("CUDA;" +:+ name) +:+ " " +:+ pretty count +:+ newline.

Definition flamegraph_line (op : Operation) : res string :=
  count <-! flamegraph_count op;
  Ok (flamegraph_format (op_name op) count).

(** The loop of writes: the lines written so far and, when an iteration
    raised, the exception that ended the loop. *)
Fixpoint flamegraph_write (ops : list Operation) : list string * option PyExc :=
  match ops with
  | [] => ([], None)
  | op :: ops' =>
      match flamegraph_line op with
      | Raise e => ([], Some e)
      | Ok line =>
          let '(lines, exc) := flamegraph_write ops' in (line :: lines, exc)
      end
  end.

(** The lines written for [ops], one each, when no iteration raises. *)
Definition flamegraph_lines (ops : list Operation) (lines : list string) : Prop :=
  Forall2 (fun op line => flamegraph_line op = Ok line) ops lines.

Definition generate_flamegraph_data (self : PipelineAnalyzer)
  : list string * option PyExc :=
  flamegraph_write (sorted op_start (timeline self)).

(** ** [PipelineAnalyzer.generate_chrome_trace] *)

Definition chrome_entry (op : Operation) (ph : string) (seconds : float) : json :=
  JObj [ ("name", JStr (op_name op));
         ("cat", JStr (categorize (op_name op)));
         ("ph", JStr ph);
         ("ts", JFloat (PrimFloat.mul seconds 1000000%float));
         ("pid", JInt 1);
         ("tid", JInt 1) ].

(** The loop body: two [trace_events.append] calls. *)
Definition chrome_append (trace_events : list json) (op : Operation) : list json :=
  (trace_events ++ [chrome_entry op "B" (op_start op)])
    ++ [chrome_entry op "E" (op_end op)].

Definition chrome_trace_events (self : PipelineAnalyzer) : list json :=
  fold_left chrome_append (timeline self) [].

(** The document handed to [json.dump]. *)
Definition generate_chrome_trace (self : PipelineAnalyzer) : json :=
  JObj [ ("traceEvents", JArr (chrome_trace_events self)) ].

(** ** [PipelineAnalyzer.print_ascii_timeline] *)

Definition category_symbols : list (string * string) :=
  [ ("init", "▓"); ("memory_mgmt", "█"); ("transfer", "▒");
    ("kernel", "●"); ("sync", "░"); ("context", "◆");
    ("stream", "◇"); ("module", "▪"); ("other", "·") ].

(** [d.get(k, dflt)] on a small literal dict. *)
Fixpoint dict_get (d : list (string * string)) (k dflt : string) : string :=
  match d with
  | [] => dflt
  | (k', v) :: d' => if String.eqb k k' then v else dict_get d' k dflt
  end.

Definition timeline_width : Z := 80.

(** [lst[i] = v]: a negative index counts from the end; out of range raises. *)
Definition list_setitem {A : Type} (l : list A) (i : Z) (v : A) : res (list A) :=
  let n := Z.of_nat (length l) in
  if (0 <=? i) && (i <? n) then Ok (<[Z.to_nat i := v]> l)
  else if (- n <=? i) && (i <? 0) then Ok (<[Z.to_nat (n + i) := v]> l)
  else Raise IndexError.

(** [start_pos] and the adjusted [end_pos] of one operation. *)
Definition op_positions (start_time total_duration : float) (op : Operation)
  : res (Z * Z) :=
  q1 <-! PyFloat.div (PrimFloat.sub (op_start op) start_time) total_duration;
  start_pos <-! PyFloat.to_int (PrimFloat.mul q1 80%float);
  q2 <-! PyFloat.div (PrimFloat.sub (op_end op) start_time) total_duration;
  end_pos <-! PyFloat.to_int (PrimFloat.mul q2 80%float);
  Ok (start_pos, if start_pos =? end_pos then start_pos + 1 else end_pos).

(** The indices [i] at which the fill loop executes [timeline[i] = symbol]:
    [range(start_pos, min(end_pos, timeline_width))] filtered by
    [i < len(timeline)]. *)
Definition fill_columns (len : Z) (pos : Z * Z) : list Z :=
  filter (fun i => i < len)
         (seqZ (fst pos) (Z.min (snd pos) timeline_width - fst pos)).

Definition op_columns (start_time total_duration : float) (op : Operation)
  : res (list Z) :=
  pos <-! op_positions start_time total_duration op;
  Ok (fill_columns timeline_width pos).

Definition op_symbol (op : Operation) : string :=
  dict_get category_symbols (categorize (op_name op)) "·".

(** Painting one operation into the lane buffer. *)
Definition paint_op (start_time total_duration : float)
    (lane : list string) (op : Operation) : res (list string) :=
  pos <-! op_positions start_time total_duration op;
  res_fold (fun buf i => list_setitem buf i (op_symbol op))
           (fill_columns (Z.of_nat (length lane)) pos) lane.

Definition blank_lane : list string := replicate (Z.to_nat timeline_width) " ".

Definition paint_lane (start_time total_duration : float)
    (group : list Operation) : res (list string) :=
  res_fold (paint_op start_time total_duration) group blank_lane.

(** [depth_groups[op['depth']].append(op)] over the sorted operations. *)
Definition depth_groups (ops : list Operation) : gmap Z (list Operation) :=
  fold_left
    (fun groups op =>
       <[op_depth op := default [] (groups !! op_depth op) ++ [op]]> groups)
    ops ∅.

(** [max(depth_groups.keys()) if depth_groups else 0]. *)
Definition max_depth (groups : gmap Z (list Operation)) : Z :=
  match (map_to_list groups).*1 with
  | [] => 0
  | k :: ks => foldr Z.max k ks
  end.

(** The lanes printed, in order, each with its depth; an empty timeline
    prints none.  The result is the exception when an iteration raises. *)
Definition print_ascii_timeline (self : PipelineAnalyzer)
  : res (list (Z * list string)) :=
  match sorted op_start (timeline self) with
  | [] => Ok []
  | (first :: _) as ops =>
      let start_time := op_start first in
      let end_time := op_end (List.last ops first) in
      let total_duration := PrimFloat.sub end_time start_time in
      let groups := depth_groups ops in
      res_fold
        (fun printed depth =>
           match groups !! depth with
           | None => Ok printed
           | Some group =>
               lane <-! paint_lane start_time total_duration group;
               Ok (printed ++ [(depth, lane)])
           end)
        (seqZ 0 (max_depth groups + 1)) []
  end.

(** ** [cuda_tracer.py]: the BPF depth handlers

    [BPF_HASH(call_depth, u32, u32)] is a bounded hash table whose capacity
    is fixed by the [BPF_HASH] macro, which is not part of the sources: it
    is the section variable [max_entries].  [update] on a key that is not
    yet present fails when the table is full, and the handlers ignore its
    result.  Only the depth logic of the two handlers is embedded; the
    timestamp and statistics tables do not feed back into [call_depth]. *)

Module BPF.
Section Handlers.
Variable max_entries : nat.

(** [u32] arithmetic wraps around. *)
Definition u32 (z : Z) : Z := z mod 2 ^ 32.

(** [call_depth.update(&tid, &v)]. *)
Definition update (m : gmap Z Z) (k v : Z) : gmap Z Z :=
  match m !! k with
  | Some _ => <[k := v]> m
  | None => if decide (size m < max_entries)%nat then <[k := v]> m else m
  end.

(** [bpf_get_current_pid_tgid() & 0xFFFFFFFF]. *)
Definition current_tid (pid_tgid : Z) : Z := Z.land pid_tgid 0xFFFFFFFF.

(** [trace_cuda_entry]: the new [call_depth] table and [event.depth]. *)
Definition trace_cuda_entry (pid_tgid : Z) (call_depth : gmap Z Z)
  : gmap Z Z * Z :=
  let tid := current_tid pid_tgid in
  let current_depth :=
    match call_depth !! tid with
    | Some depth => u32 (depth + 1)
    | None => 1
    end in
  (update call_depth tid current_depth, current_depth).

(** [trace_cuda_exit]: the new table and [event.depth].  [event] is
    zero-initialised, so outside the guarded branch the reported depth is
    0; inside it [*depth] is read through the pointer obtained before the
    update, that is the depth before the decrement. *)
Definition trace_cuda_exit (pid_tgid : Z) (call_depth : gmap Z Z)
  : gmap Z Z * Z :=
  let tid := current_tid pid_tgid in
  match call_depth !! tid with
  | Some depth =>
      if 0 <? depth then (update call_depth tid (u32 (depth - 1)), depth)
      else (call_depth, 0)
  | None => (call_depth, 0)
  end.

(** A probe firing, with the [pid_tgid] of the calling thread. *)
Inductive probe : Type :=
  | Entry (pid_tgid : Z)
  | Exit (pid_tgid : Z).

Definition fire (p : probe) (call_depth : gmap Z Z) : gmap Z Z * Z :=
  match p with
  | Entry pt => trace_cuda_entry pt call_depth
  | Exit pt => trace_cuda_exit pt call_depth
  end.

(** The table after a sequence of probe firings. *)
Definition run_probes (ps : list probe) (call_depth : gmap Z Z) : gmap Z Z :=
  fold_left (fun m p => fst (fire p m)) ps call_depth.

(** The [event.depth] values emitted along a sequence of firings. *)
Fixpoint emitted_depths (ps : list probe) (call_depth : gmap Z Z) : list Z :=
  match ps with
  | [] => []
  | p :: ps' =>
      let '(m, d) := fire p call_depth in d :: emitted_depths ps' m
  end.

(** The nesting depth of a thread: its table entry, 0 when it has none. *)
Definition thread_depth (call_depth : gmap Z Z) (tid : Z) : Z :=
  default 0 (call_depth !! tid).

(** Every stored value is a [u32]. *)
Definition table_ok (call_depth : gmap Z Z) : Prop :=
  forall tid d, call_depth !! tid = Some d -> 0 <= d < 2 ^ 32.

(** The thread a probe fires on. *)
Definition probe_tid (p : probe) : Z :=
  match p with
  | Entry pt | Exit pt => current_tid pt
  end.

(** The true nesting level of thread [tid] after the firings [ps], from
    level [d]; [None] when one of its exits has no entry to match, that
    is when the firings of the thread are not well nested. *)
Fixpoint nesting (tid : Z) (ps : list probe) (d : nat) : option nat :=
  match ps with
  | [] => Some d
  | p :: ps' =>
      if decide (probe_tid p = tid) then
        match p, d with
        | Entry _, _ => nesting tid ps' (S d)
        | Exit _, S d' => nesting tid ps' d'
        | Exit _, O => None
        end
      else nesting tid ps' d
  end.

End Handlers.
End BPF.

(** ** [cuda_tracer.py]: [CUDATracer.find_libcuda_path] and [run] *)

(** What the tracer observes of the host: [os.path.exists], and the standard
    output of [ldconfig -p] ([None] when [subprocess.run] raised, which the
    bare [except] swallows). *)
Record Host : Type := mkHost {
  path_exists : string -> bool;
  ldconfig_stdout : option string
}.

Definition possible_paths : list string :=
  [ "/lib/x86_64-linux-gnu/libcuda.so.1";
    "/usr/lib/x86_64-linux-gnu/libcuda.so.1";
    "/usr/lib64/libcuda.so.1";
    "/usr/local/cuda/lib64/libcuda.so.1" ].

(** [s.split(sep)] for a non-empty separator: [skip] counts the characters
    of a separator occurrence still to be dropped, [cur] is the current
    piece in reverse. *)
Fixpoint split_go (sep : string) (skip : nat) (cur : string) (s : string)
  : list string :=
  match s with
  | EmptyString => [String.rev cur]
  | String c s' =>
      match skip with
      | S k => split_go sep k cur s'
      | O =>
          if String.prefix sep s
          then String.rev cur :: split_go sep (String.length sep - 1) "" s'
          else split_go sep O (String c cur) s'
      end
  end.

Definition str_split (sep s : string) : list string := split_go sep O "" s.

(** [str.isascii]: every character is below U+0080.  A string is a
    sequence of 8-bit characters here; it stands for the Python string with
    the same code points when it is ASCII. *)
Fixpoint str_isascii (s : string) : bool :=
  match s with
  | EmptyString => true
  | String c s' => Nat.ltb (nat_of_ascii c) 128 && str_isascii s'
  end.

(** [str.isspace] on the ASCII range: the characters that [str.split()] and
    [str.strip()] treat as whitespace in ASCII text.  Python also treats
    U+0085, U+00A0, U+1680, U+2000 to U+200A, U+2028, U+2029, U+202F,
    U+205F and U+3000 as whitespace; these are outside the model, which is
    exact on ASCII text ([str_isascii]). *)
Definition py_isspace (c : ascii) : bool :=
  match c with
  | "009" | "010" | "011" | "012" | "013"
  | "028" | "029" | "030" | "031" | " " => true
  | _ => false
  end%char.

Fixpoint str_lstrip (s : string) : string :=
  match s with
  | EmptyString => EmptyString
  | String c s' => if py_isspace c then str_lstrip s' else s
  end.

Definition str_strip (s : string) : string :=
  String.rev (str_lstrip (String.rev (str_lstrip s))).

(** The loop over the lines of the [ldconfig -p] output. *)
Fixpoint scan_ldconfig (lines : list string) : option string :=
  match lines with
  | [] => None
  | line :: lines' =>
      if contains "libcuda.so" line then
        match str_split "=>" line with
        | _ :: part :: _ => Some (str_strip part)
        | _ => scan_ldconfig lines'
        end
      else scan_ldconfig lines'
  end.

(** The fallback inside the [try] block. *)
Definition ldconfig_lookup (h : Host) : option string :=
  match ldconfig_stdout h with
  | Some out => scan_ldconfig (str_split newline out)
  | None => None
  end.

Definition could_not_find : PyExc := RuntimeError "Could not find libcuda.so".

Definition find_libcuda_path (h : Host) : res string :=
  match find (path_exists h) possible_paths with
  | Some path => Ok path
  | None =>
      match ldconfig_lookup h with
      | Some path => Ok path
      | None => Raise could_not_find
      end
  end.

(** The observable steps of [CUDATracer.run], in order. *)
Inductive step : Type :=
  | Print (line : string)
  | LoadBPF
  | AttachProbes (libcuda_path : string)
  | Poll.

(** [run] up to the polling loop: the steps performed and the exception that
    left the method, if any.  [find_libcuda_path] is not guarded by a [try],
    so its exception ends [run] before the BPF program is loaded; that
    branch is exact.  On the success branch the steps are those named by
    [step] only: the messages printed between the discovery of the
    functions and the polling loop (the number of functions discovered,
    the attachment counts, the tracing banner) are not steps of this
    model. *)
Definition run (banner : list string) (h : Host) : list step * option PyExc :=
  let printed := map Print banner in
  match find_libcuda_path h with
  | Raise e => (printed, Some e)
  | Ok libcuda_path =>
      (printed ++ [Print ("Found libcuda: " +:+ libcuda_path); LoadBPF;
                   AttachProbes libcuda_path; Poll], None)
  end.

(** ** Notions used to state the properties *)

(** A list whose keys never decrease from one element to the next. *)
Fixpoint ascending {A : Type} (key : A -> float) (l : list A) : Prop :=
  match l with
  | [] => True
  | x :: l' =>
      match l' with
      | [] => True
      | y :: _ => PrimFloat.ltb (key y) (key x) = false
      end /\ ascending key l'
  end.

(** The begin event left open for key [k] by the events seen so far: the
    last event of key [k] with phase B or E decides, a begin being open and
    an end closing. *)
Definition open_begin (k : op_key) (seen : list CUDATraceEvent)
    (pending : option CUDATraceEvent) : option CUDATraceEvent :=
  fold_left
    (fun cur x =>
       if decide (ev_op_id x = k) then
         if String.eqb (ev_phase x) "B" then Some x
         else if String.eqb (ev_phase x) "E" then None
         else cur
       else cur)
    seen pending.

(** States that agree except on the pending entry of [k]. *)
Definition agree_off (k : op_key) (s1 s2 : MatchState) : Prop :=
  delete k (stack s1) = delete k (stack s2) /\
  ms_timeline s1 = ms_timeline s2 /\
  ms_categories s1 = ms_categories s2.

(** The number of end events of a log. *)
Definition count_ends (l : list CUDATraceEvent) : nat :=
  length (filter (fun x => ev_phase x = "E") l).

(** The value of a finite binary64 float in units of [2 ^ -1074], the
    smallest positive float: an integer, since no exponent is below -1074. *)
Definition sf_value (x : spec_float) : Z :=
  match x with
  | S754_finite s m e => cond_Zopp s (Z.pos m * 2 ^ (e + 1074))
  | _ => 0
  end.

Definition sf_finite (x : spec_float) : bool :=
  match x with
  | S754_zero _ | S754_finite _ _ _ => true
  | _ => false
  end.

(** The value of a float, in the same unit. *)
Definition float_value (x : float) : Z := sf_value (Prim2SF x).

(** A list sorted by the value of its keys: every element is at most every
    later one. *)
Fixpoint value_sorted {A : Type} (key : A -> float) (l : list A) : Prop :=
  match l with
  | [] => True
  | x :: l' =>
      Forall (fun y => float_value (key x) <= float_value (key y)) l' /\
      value_sorted key l'
  end.

(** The line the flamegraph export owes to an operation:
    ["CUDA;<name> <count>"] and a newline, [count] being the floor of the
    duration in microseconds. *)
Definition flamegraph_line_of (op : Operation) (line : string) : Prop :=
  exists count : Z,
    PyFloat.floor (PrimFloat.mul (op_duration op) 1000000%float) = Some count /\
    line = ("CUDA;" +:+ op_name op) +:+ " " +:+ pretty count +:+ newline.

(** ** Sample inputs *)

(** The log of the two-line example: a begin and an end event with
    [op_id = 1] at 0.0 s and 0.5 s, the other fields at the defaults of
    [load_jsonl]. *)
Definition two_line_log : list CUDATraceEvent :=
  [ CUDATraceEvent__init__ 0%float "unknown" "B" (Some (inl 1)) None 0 (JObj []);
    CUDATraceEvent__init__ 0.5%float "unknown" "E" (Some (inl 1)) None 0 (JObj []) ].

Definition two_line_analyzer : PipelineAnalyzer :=
  {| events := two_line_log; categories := ∅; timeline := [] |}.

(** A log written out of order: the end line precedes its begin line, and
    the two lines carry different names, depths and details. *)
Definition sample_begin : CUDATraceEvent :=
  mkEvent 1%float "cuMemAlloc" "B" (Some (inr "a")) (Some 7) 2 JNull.
Definition sample_end : CUDATraceEvent :=
  mkEvent 2%float "cuLaunchKernel" "E" (Some (inr "a")) (Some 7) 0
          (JObj [("retval", JInt 0)]).
Definition sample_analyzer : PipelineAnalyzer :=
  {| events := [sample_end; sample_begin]; categories := ∅; timeline := [] |}.

(** A log with a duplicated begin: two begins of key ["a"] with an event of
    another key in between, then the end of key ["a"]. *)
Definition dup_begin1 : CUDATraceEvent :=
  mkEvent 1%float "cuMemAlloc" "B" (Some (inr "a")) None 0 JNull.
Definition dup_other : CUDATraceEvent :=
  mkEvent 2%float "cuInit" "B" (Some (inr "b")) None 0 JNull.
Definition dup_begin2 : CUDATraceEvent :=
  mkEvent 3%float "cuMemAlloc" "B" (Some (inr "a")) None 1 JNull.
Definition dup_end : CUDATraceEvent :=
  mkEvent 4%float "cuMemAlloc" "E" (Some (inr "a")) None 1 JNull.
Definition dup_analyzer : PipelineAnalyzer :=
  {| events := [dup_begin1; dup_other; dup_begin2; dup_end];
     categories := ∅; timeline := [] |}.

(** A log whose first end event has no begin: an end of key 9, then the
    matched pair of the two-line log. *)
Definition orphan_end : CUDATraceEvent :=
  mkEvent 0%float "cuFree" "E" (Some (inl 9)) None 0 JNull.
Definition orphan_analyzer : PipelineAnalyzer :=
  {| events := orphan_end :: two_line_log; categories := ∅; timeline := [] |}.

(** Hosts used as sample inputs: one without the library anywhere, one with
    the library at the third known path, one where only the linker cache
    knows the library. *)
Definition host_without_cuda : Host :=
  {| path_exists := fun _ => false; ldconfig_stdout := None |}.
Definition host_with_lib64 : Host :=
  {| path_exists := fun p => String.eqb p "/usr/lib64/libcuda.so.1";
     ldconfig_stdout := None |}.
Definition host_with_cache : Host :=
  {| path_exists := fun _ => false;
     ldconfig_stdout :=
       Some ("libc.so.6 (libc6,x86-64) => /lib/libc.so.6" +:+ newline +:+
             "libcuda.so.1 (libc6,x86-64) => /opt/nvidia/libcuda.so.1" +:+ newline) |}.

(** The steps of [run] that start the tracing proper. *)
Definition starts_tracing (s : step) : bool :=
  match s with
  | Print _ => false
  | LoadBPF | AttachProbes _ | Poll => true
  end.

(** A log whose last operation is instantaneous: an allocation from 0.0 to
    0.5, then a kernel launch whose begin and end both carry ts 1.0, which
    is also the end of the overall time range. *)
Definition late_log : list CUDATraceEvent :=
  [ mkEvent 0%float "cuMemAlloc" "B" (Some (inl 1)) (Some 1) 0 JNull;
    mkEvent 0.5%float "cuMemAlloc" "E" (Some (inl 1)) (Some 1) 0 JNull;
    mkEvent 1%float "cuLaunchKernel" "B" (Some (inl 2)) (Some 1) 0 JNull;
    mkEvent 1%float "cuLaunchKernel" "E" (Some (inl 2)) (Some 1) 0 JNull ].

Definition late_analyzer : PipelineAnalyzer :=
  match_events {| events := late_log; categories := ∅; timeline := [] |}.

Definition late_alloc : Operation :=
  mkOp "cuMemAlloc" 0%float 0.5%float 0.5%float 0 JNull.
Definition late_launch : Operation :=
  mkOp "cuLaunchKernel" 1%float 1%float 0%float 0 JNull.

(** ** [PipelineAnalyzer.print_detailed_operations] *)

(** [sorted(iterable, key=..., reverse=True)]: Python reverses the list,
    sorts it and reverses the result, which keeps the sort stable. *)
Definition sorted_desc {A : Type} (key : A -> float) (l : list A) : list A :=
  rev (sorted key (rev l)).

(** [lst[:limit]]: a negative [limit] counts from the end. *)
Definition slice_to {A : Type} (l : list A) (limit : Z) : list A :=
  if 0 <=? limit then take (Z.to_nat limit) l
  else take (Z.to_nat (Z.of_nat (length l) + limit)) l.

Definition longest_ops (self : PipelineAnalyzer) (limit : Z) : list Operation :=
  slice_to (sorted_desc op_duration (timeline self)) limit.

(** The rows printed: rank (from 1), name, duration in milliseconds and
    category. *)
Definition print_detailed_operations (self : PipelineAnalyzer) (limit : Z)
  : list (Z * string * float * string) :=
  imap (fun i op =>
          (Z.of_nat i + 1, op_name op,
           PrimFloat.mul (op_duration op) 1000%float,
           categorize (op_name op)))
       (longest_ops self limit).

(** ** More notions used to state the properties *)

(** The categories table files every operation of the timeline under the
    category of its name, in timeline order, and has no empty entry. *)
Definition categories_consistent (self : PipelineAnalyzer) : Prop :=
  forall c : string,
    default [] (categories self !! c)
      = filter (fun op => categorize (op_name op) = c) (timeline self) /\
    categories self !! c <> Some [].

(** The number of begin events of a log. *)
Definition count_begins (l : list CUDATraceEvent) : nat :=
  length (filter (fun x => ev_phase x = "B") l).

(** A list in descending order of the value of its keys: every element is
    at least every later one. *)
Fixpoint value_sorted_desc {A : Type} (key : A -> float) (l : list A) : Prop :=
  match l with
  | [] => True
  | x :: l' =>
      Forall (fun y => float_value (key y) <= float_value (key x)) l' /\
      value_sorted_desc key l'
  end.

(** ** More sample inputs *)

(** A timeline whose second operation, in order of start, has an infinite
    duration. *)
(** A log with finite timestamps whose only operation lasts 1e303 seconds:
    its duration in microseconds overflows. *)
Definition huge_log : list CUDATraceEvent :=
  [ CUDATraceEvent__init__ 0%float "cuInit" "B" (Some (inl 1)) None 0 (JObj []);
    CUDATraceEvent__init__ 0x1.754e31cd072dap+1006%float "cuInit" "E"
                           (Some (inl 1)) None 0 (JObj []) ].

Definition huge_analyzer : PipelineAnalyzer :=
  {| events := huge_log; categories := ∅; timeline := [] |}.

Definition huge_op : Operation :=
  mkOp "cuInit" 0%float 0x1.754e31cd072dap+1006%float
       0x1.754e31cd072dap+1006%float 0 (JObj []).

(** The operation of the two-line log. *)
Definition two_line_op : Operation :=
  mkOp "unknown" 0%float 0.5%float 0.5%float 0 (JObj []).

Definition overflow_op : Operation :=
  mkOp "cuCtxSynchronize" 1%float infinity infinity 0 JNull.
Definition overflow_analyzer : PipelineAnalyzer :=
  {| events := []; categories := ∅;
     timeline := [overflow_op; late_alloc; late_launch] |}.

(** ** [cuda_tracer.py]: [CUDATracer.get_cuda_functions] *)

(** [s.split()]: the maximal runs of characters that are not whitespace;
    [cur] is the current run in reverse, if one is open. *)
Fixpoint words_go (cur : option string) (s : string) : list string :=
  match s with
  | EmptyString => option_list (String.rev <$> cur)
  | String c s' =>
      if py_isspace c then option_list (String.rev <$> cur) ++ words_go None s'
      else words_go (Some (String c (default "" cur))) s'
  end.

Definition str_words (s : string) : list string := words_go None s.

(** Insertion into a list of distinct strings in ascending order. *)
Fixpoint insert_distinct (x : string) (l : list string) : list string :=
  match l with
  | [] => [x]
  | y :: l' =>
      match String.compare x y with
      | Eq => l
      | Lt => x :: l
      | Gt => y :: insert_distinct x l'
      end
  end.

(** [sorted(set(names))]: the distinct names in ascending order.  Strings
    compare by code point, which on UTF-8 text is the order of the bytes. *)
Definition sorted_set (names : list string) : list string :=
  foldr insert_distinct [] names.

(** The test of one [nm -D] line: its symbol name, when the line has at
    least three fields, the second is ["T"] and the third starts with
    ["cu"]. *)
Definition exported_cu_symbol (line : string) : option string :=
  match str_words line with
  | _ :: kind :: func_name :: _ =>
      if String.eqb kind "T" && String.prefix "cu" func_name
      then Some func_name else None
  | _ => None
  end.

(** [nm_stdout] is the standard output of [nm -D libcuda_path], [None] when
    running it raised, in which case the method prints a warning and
    returns the empty list. *)
Definition get_cuda_functions (nm_stdout : option string) : list string :=
  match nm_stdout with
  | Some out => sorted_set (omap exported_cu_symbol (str_split newline out))
  | None => []
  end.

(** An [nm -D] output: two exported functions, one of them listed twice,
    a data symbol, an undefined symbol and an exported function of another
    prefix. *)
Definition nm_sample : string :=
  "0000000000001000 T cuInit" +:+ newline +:+
  "0000000000002000 T cuCtxCreate" +:+ newline +:+
  "0000000000003000 D cuGlobal" +:+ newline +:+
  "                 U malloc" +:+ newline +:+
  "0000000000001000 T cuInit" +:+ newline +:+
  "0000000000004000 T nvInternal" +:+ newline.

(** ** [cuda_tracer.py]: [CUDATracer.attach_uprobes] *)

Definition special_functions : list (string * (string * string)) :=
  [ ("cuMemAlloc", ("trace_cuMemAlloc_entry", "trace_cuMemAlloc_exit"));
    ("cuMemcpyHtoD", ("trace_cuMemcpyHtoD_entry", "trace_cuMemcpy_exit"));
    ("cuMemcpyDtoH", ("trace_cuMemcpyDtoH_entry", "trace_cuMemcpy_exit"));
    ("cuMemcpyDtoD", ("trace_cuMemcpyDtoD_entry", "trace_cuMemcpy_exit"));
    ("cuLaunchKernel", ("trace_cuLaunchKernel_entry", "trace_cuda_exit")) ].

(** The [(entry_fn, exit_fn)] pair chosen for a function. *)
Fixpoint lookup_special (table : list (string * (string * string)))
    (func : string) : option (string * string) :=
  match table with
  | [] => None
  | (name, fns) :: table' =>
      if String.eqb func name then Some fns else lookup_special table' func
  end.

Definition handlers_for (func : string) : string * string :=
  default ("trace_cuda_entry", "trace_cuda_exit")
          (lookup_special special_functions func).

(** A probe attached through the [BPF] object. *)
Inductive attachment : Type :=
  | Uprobe (name sym fn_name : string) (pid : Z)
  | Uretprobe (name sym fn_name : string) (pid : Z).

(** The [BPF] object as the method sees it: whether [attach_uprobe] and
    [attach_uretprobe] succeed for a symbol and a handler, given the probes
    attached so far; a failed call raises. *)
Record Attacher : Type := mkAttacher {
  uprobe_ok : list attachment -> string -> string -> bool;
  uretprobe_ok : list attachment -> string -> string -> bool
}.

(** [self.pid or -1]. *)
Definition pid_or_all (pid : option Z) : Z :=
  match pid with
  | Some p => if p =? 0 then -1 else p
  | None => -1
  end.

(** One iteration of the loop: the probes attached so far and the counter
    [attached].  An exception of either call leaves the iteration. *)
Definition attach_one (bpf : Attacher) (libcuda_path : string) (pid : option Z)
    (st : list attachment * Z) (func : string) : list attachment * Z :=
  let '(probes, attached) := st in
  let '(entry_fn, exit_fn) := handlers_for func in
  if uprobe_ok bpf probes func entry_fn then
    let probes1 := probes ++ [Uprobe libcuda_path func entry_fn (pid_or_all pid)] in
    if uretprobe_ok bpf probes1 func exit_fn then
      (probes1 ++ [Uretprobe libcuda_path func exit_fn (pid_or_all pid)],
       attached + 1)
    else (probes1, attached)
  else (probes, attached).

(** The probes attached and the count that the method prints. *)
Definition attach_uprobes (bpf : Attacher) (libcuda_path : string)
    (pid : option Z) (functions : list string) : list attachment * Z :=
  fold_left (attach_one bpf libcuda_path pid) (take 100 functions) ([], 0).

(** ** [cuda_tracer.py]: [CUDATracer.event_handler] *)

(** The record delivered by the perf buffer, as [ctypes] decodes it. *)
Record RawEvent : Type := mkRaw {
  raw_timestamp_ns : Z;
  raw_event_id : Z;
  raw_pid : Z;
  raw_tid : Z;
  raw_event_type : Z;
  raw_depth : Z
}.

(** The [event_dict] stored for a record. *)
Record EventDict : Type := mkEventDict {
  ed_ts : float;
  ed_event_id : Z;
  ed_pid : Z;
  ed_tid : Z;
  ed_type : Z;
  ed_depth : Z
}.

(** The attributes of the tracer that the handler uses. *)
Record CUDATracer : Type := mkTracer {
  start_time : float;
  tracer_events : list EventDict;
  stats : gmap string Z
}.

(** The conversion of an int operand of a float division: the nearest
    float, ties to even. *)
Definition int_to_float (z : Z) : float :=
  SF2Prim (binary_normalize prec emax z 0 false).

(** [stats[key] += 1] on a [defaultdict(int)]. *)
Definition stats_increment (stats : gmap string Z) (key : string)
  : gmap string Z :=
  <[key := default 0 (stats !! key) + 1]> stats.

(** The handler: the new tracer state and the progress line, when one is
    printed. *)
Definition event_handler (self : CUDATracer) (event : RawEvent)
  : CUDATracer * option string :=
  let event_dict :=
    {| ed_ts := PrimFloat.sub
                  (PrimFloat.div (int_to_float (raw_timestamp_ns event))
                                 1000000000%float)
                  (start_time self);
       ed_event_id := raw_event_id event;
       ed_pid := raw_pid event;
       ed_tid := raw_tid event;
       ed_type := raw_event_type event;
       ed_depth := raw_depth event |} in
  let stats1 := stats_increment (stats self) "total_events" in
  let stats2 := stats_increment stats1 ("type_" +:+ pretty (raw_event_type event)) in
  let events' := tracer_events self ++ [event_dict] in
  ({| start_time := start_time self; tracer_events := events'; stats := stats2 |},
   if Z.of_nat (length events') mod 100 =? 0
   then Some ("Captured " +:+ pretty (Z.of_nat (length events')) +:+ " events...")
   else None).

(** The handler applied to the records of a run, in delivery order: the
    final state and, for each record, the progress line it printed. *)
Fixpoint handle_events (self : CUDATracer) (records : list RawEvent)
  : CUDATracer * list (option string) :=
  match records with
  | [] => (self, [])
  | r :: records' =>
      let '(self1, line) := event_handler self r in
      let '(self2, lines) := handle_events self1 records' in
      (self2, line :: lines)
  end.

(** [CUDATracer.__init__], with the clock reading taken at construction. *)
Definition CUDATracer__init__ (now : float) : CUDATracer :=
  {| start_time := now; tracer_events := []; stats := ∅ |}.

(** The fields of an attachment. *)
Definition is_uretprobe (a : attachment) : bool :=
  match a with Uretprobe _ _ _ _ => true | Uprobe _ _ _ _ => false end.

Definition attachment_fields (a : attachment) : string * string * string * Z :=
  match a with
  | Uprobe name sym fn pid | Uretprobe name sym fn pid => (name, sym, fn, pid)
  end.

(** An attachment that the loop may make for the arguments of the method:
    on the library, for one of the functions tried, with the handler of
    its kind chosen for that function, and with the pid filter. *)
Definition attachment_planned (libcuda_path : string) (pid : option Z)
    (tried : list string) (a : attachment) : Prop :=
  let '(name, sym, fn, p) := attachment_fields a in
  name = libcuda_path /\ sym ∈ tried /\ p = pid_or_all pid /\
  fn = (if is_uretprobe a then snd (handlers_for sym) else fst (handlers_for sym)).

(** The number of records of a type. *)
Definition count_type (t : Z) (records : list RawEvent) : Z :=
  Z.of_nat (length (filter (fun r => raw_event_type r = t) records)).

(** * The probe handlers with all their tables *)

(** The whole BPF program of [cuda_tracer.py]: every table it declares and
    every handler, as a function from the tables to the new tables and the
    events it submits, in order.  A firing is given by the values the
    handler reads from its environment, and a run is a sequence of firings,
    each handler running to its end before the next one starts.  Every
    [BPF_HASH] table is declared without a size, so all of them have the
    same capacity [max_entries]. *)
Module Probes.

Definition u64 (z : Z) : Z := z mod 2 ^ 64.

(** A [u64] register read as an [s64]. *)
Definition s64 (z : Z) : Z := (z + 2 ^ 63) mod 2 ^ 64 - 2 ^ 63.

Inductive event_type : Type :=
  | EVENT_CUDA_CALL_ENTER
  | EVENT_CUDA_CALL_EXIT
  | EVENT_KERNEL_LAUNCH
  | EVENT_MEMORY_ALLOC
  | EVENT_MEMORY_COPY
  | EVENT_IOCTL_ENTER
  | EVENT_IOCTL_EXIT.

Definition event_type_code (ty : event_type) : Z :=
  match ty with
  | EVENT_CUDA_CALL_ENTER => 1
  | EVENT_CUDA_CALL_EXIT => 2
  | EVENT_KERNEL_LAUNCH => 3
  | EVENT_MEMORY_ALLOC => 4
  | EVENT_MEMORY_COPY => 5
  | EVENT_IOCTL_ENTER => 6
  | EVENT_IOCTL_EXIT => 7
  end.

(** The union [data] of [event_t]; [zeroed] is the union of an event that
    writes none of its members. *)
Inductive event_data : Type :=
  | zeroed
  | retval (r : Z)
  | mem_alloc (size ptr : Z)
  | mem_copy (size direction : Z)
  | kernel_launch (grid_x grid_y grid_z block_x block_y block_z : Z)
  | ioctl (ioctl_cmd ioctl_retval : Z).

Record event_t : Type := mkEventT {
  timestamp_ns : Z;
  event_id : Z;
  pid : Z;
  tid : Z;
  type : event_type;
  depth : Z;
  data : event_data
}.

(** The registers a handler reads: [PT_REGS_PARM2] to [PT_REGS_PARM6] and
    [PT_REGS_RC]. *)
Record pt_regs : Type := mkRegs {
  parm2 : Z;
  parm3 : Z;
  parm4 : Z;
  parm5 : Z;
  parm6 : Z;
  rc : Z
}.

(** One firing of a probe: the registers, [bpf_get_current_pid_tgid()],
    and the readings of [bpf_ktime_get_ns()]: the first one, and the one
    taken by the generic handler when a special handler ends by calling
    it after a reading of its own. *)
Record firing : Type := mkFiring {
  ctx : pt_regs;
  pid_tgid : Z;
  ktime_ns : Z;
  ktime_ns_next : Z
}.

(** The firing as the generic handler sees it when a handler that has
    read the clock calls it. *)
Definition next_reading (f : firing) : firing :=
  {| ctx := ctx f; pid_tgid := pid_tgid f;
     ktime_ns := ktime_ns_next f; ktime_ns_next := ktime_ns_next f |}.

(** The tables of the program. *)
Record tables : Type := mkTables {
  call_depth : gmap Z Z;
  entry_timestamp : gmap Z Z;
  event_counter : Z;
  call_count : gmap Z Z;
  total_duration : gmap Z Z;
  pending_alloc_size : gmap Z Z;
  pending_copy_size : gmap Z Z;
  pending_copy_dir : gmap Z Z
}.

Definition with_call_depth (m : gmap Z Z) (t : tables) : tables :=
  mkTables m (entry_timestamp t) (event_counter t) (call_count t)
           (total_duration t) (pending_alloc_size t) (pending_copy_size t)
           (pending_copy_dir t).

Definition with_entry_timestamp (m : gmap Z Z) (t : tables) : tables :=
  mkTables (call_depth t) m (event_counter t) (call_count t)
           (total_duration t) (pending_alloc_size t) (pending_copy_size t)
           (pending_copy_dir t).

Definition with_event_counter (c : Z) (t : tables) : tables :=
  mkTables (call_depth t) (entry_timestamp t) c (call_count t)
           (total_duration t) (pending_alloc_size t) (pending_copy_size t)
           (pending_copy_dir t).

Definition with_call_count (m : gmap Z Z) (t : tables) : tables :=
  mkTables (call_depth t) (entry_timestamp t) (event_counter t) m
           (total_duration t) (pending_alloc_size t) (pending_copy_size t)
           (pending_copy_dir t).

Definition with_total_duration (m : gmap Z Z) (t : tables) : tables :=
  mkTables (call_depth t) (entry_timestamp t) (event_counter t) (call_count t)
           m (pending_alloc_size t) (pending_copy_size t)
           (pending_copy_dir t).

Definition with_pending_alloc_size (m : gmap Z Z) (t : tables) : tables :=
  mkTables (call_depth t) (entry_timestamp t) (event_counter t) (call_count t)
           (total_duration t) m (pending_copy_size t) (pending_copy_dir t).

Definition with_pending_copy_size (m : gmap Z Z) (t : tables) : tables :=
  mkTables (call_depth t) (entry_timestamp t) (event_counter t) (call_count t)
           (total_duration t) (pending_alloc_size t) m (pending_copy_dir t).

Definition with_pending_copy_dir (m : gmap Z Z) (t : tables) : tables :=
  mkTables (call_depth t) (entry_timestamp t) (event_counter t) (call_count t)
           (total_duration t) (pending_alloc_size t) (pending_copy_size t) m.

(** The tables when the program has been loaded and [run] has set the
    event counter to 0. *)
Definition loaded : tables :=
  mkTables ∅ ∅ 0 ∅ ∅ ∅ ∅ ∅.

Section Handlers.
Variable max_entries : nat.

(** [table.increment(key, val)] on a hash table: add to the leaf when
    there is one, else insert [val]. *)
Definition increment (m : gmap Z Z) (k v : Z) : gmap Z Z :=
  match m !! k with
  | Some leaf => <[k := u64 (leaf + v)]> m
  | None => BPF.update max_entries m k (u64 v)
  end.

(** [get_event_id]: the one slot of [event_counter] always exists. *)
Definition get_event_id (t : tables) : Z * tables :=
  (event_counter t, with_event_counter (u64 (event_counter t + 1)) t).

Definition current_pid (f : firing) : Z :=
  BPF.u32 (Z.shiftr (pid_tgid f) 32).

(** [((u64)tid << 32)]. *)
Definition timestamp_key (tid : Z) : Z := u64 (Z.shiftl tid 32).

Definition trace_cuda_entry (f : firing) (t : tables)
  : tables * list event_t :=
  let idt := get_event_id t in
  let tid := BPF.current_tid (pid_tgid f) in
  let r := BPF.trace_cuda_entry max_entries (pid_tgid f)
                                (call_depth (snd idt)) in
  let t1 := with_call_depth (fst r) (snd idt) in
  let t2 := with_entry_timestamp
              (BPF.update max_entries (entry_timestamp t1)
                          (timestamp_key tid) (ktime_ns f)) t1 in
  (t2, [mkEventT (ktime_ns f) (fst idt) (current_pid f) tid
                 EVENT_CUDA_CALL_ENTER (snd r) zeroed]).

Definition trace_cuda_exit (f : firing) (t : tables)
  : tables * list event_t :=
  let idt := get_event_id t in
  let tid := BPF.current_tid (pid_tgid f) in
  let r := BPF.trace_cuda_exit max_entries (pid_tgid f)
                               (call_depth (snd idt)) in
  let t1 := with_call_depth (fst r) (snd idt) in
  let key := timestamp_key tid in
  let t2 :=
    match entry_timestamp t1 !! key with
    | Some entry_ts =>
        let duration := u64 (ktime_ns f - entry_ts) in
        let t' := with_total_duration
                    (increment (total_duration t1) key duration) t1 in
        with_call_count (increment (call_count t') key 1) t'
    | None => t1
    end in
  (t2, [mkEventT (ktime_ns f) (fst idt) (current_pid f) tid
                 EVENT_CUDA_CALL_EXIT (snd r) (retval (s64 (rc (ctx f))))]).

Definition trace_cuMemAlloc_entry (f : firing) (t : tables)
  : tables * list event_t :=
  let size := parm2 (ctx f) in
  let tid := BPF.current_tid (pid_tgid f) in
  trace_cuda_entry f
    (with_pending_alloc_size
       (BPF.update max_entries (pending_alloc_size t) tid size) t).

Definition trace_cuMemAlloc_exit (f : firing) (t : tables)
  : tables * list event_t :=
  let tid := BPF.current_tid (pid_tgid f) in
  match pending_alloc_size t !! tid with
  | Some size =>
      if s64 (rc (ctx f)) =? 0 then
        let idt := get_event_id t in
        let event := mkEventT (ktime_ns f) (fst idt) (current_pid f) tid
                              EVENT_MEMORY_ALLOC 0 (mem_alloc size 0) in
        let t1 := with_pending_alloc_size
                    (delete tid (pending_alloc_size (snd idt))) (snd idt) in
        let r := trace_cuda_exit (next_reading f) t1 in
        (fst r, event :: snd r)
      else trace_cuda_exit f t
  | None => trace_cuda_exit f t
  end.

Definition trace_cuMemcpy_entry (f : firing) (direction : Z) (t : tables)
  : tables * list event_t :=
  let size := parm3 (ctx f) in
  let tid := BPF.current_tid (pid_tgid f) in
  let t1 := with_pending_copy_size
              (BPF.update max_entries (pending_copy_size t) tid size) t in
  let dir := BPF.u32 direction in
  let t2 := with_pending_copy_dir
              (BPF.update max_entries (pending_copy_dir t1) tid dir) t1 in
  trace_cuda_entry f t2.

Definition trace_cuMemcpyHtoD_entry (f : firing) (t : tables)
  : tables * list event_t := trace_cuMemcpy_entry f 1 t.

Definition trace_cuMemcpyDtoH_entry (f : firing) (t : tables)
  : tables * list event_t := trace_cuMemcpy_entry f 2 t.

Definition trace_cuMemcpyDtoD_entry (f : firing) (t : tables)
  : tables * list event_t := trace_cuMemcpy_entry f 3 t.

Definition trace_cuMemcpy_exit (f : firing) (t : tables)
  : tables * list event_t :=
  let tid := BPF.current_tid (pid_tgid f) in
  match pending_copy_size t !! tid, pending_copy_dir t !! tid with
  | Some size, Some direction =>
      if s64 (rc (ctx f)) =? 0 then
        let idt := get_event_id t in
        let event := mkEventT (ktime_ns f) (fst idt) (current_pid f) tid
                              EVENT_MEMORY_COPY 0 (mem_copy size direction) in
        let t1 := with_pending_copy_size
                    (delete tid (pending_copy_size (snd idt))) (snd idt) in
        let t2 := with_pending_copy_dir
                    (delete tid (pending_copy_dir t1)) t1 in
        let r := trace_cuda_exit (next_reading f) t2 in
        (fst r, event :: snd r)
      else trace_cuda_exit f t
  | _, _ => trace_cuda_exit f t
  end.

Definition trace_cuLaunchKernel_entry (f : firing) (t : tables)
  : tables * list event_t :=
  let idt := get_event_id t in
  let event := mkEventT (ktime_ns f) (fst idt) (current_pid f)
                 (BPF.current_tid (pid_tgid f)) EVENT_KERNEL_LAUNCH 0
                 (kernel_launch (BPF.u32 (parm2 (ctx f)))
                                (BPF.u32 (parm3 (ctx f)))
                                (BPF.u32 (parm4 (ctx f)))
                                (BPF.u32 (parm5 (ctx f)))
                                (BPF.u32 (parm6 (ctx f))) 0) in
  let r := trace_cuda_entry (next_reading f) (snd idt) in
  (fst r, event :: snd r).

Definition trace_ioctl_entry (f : firing) (t : tables)
  : tables * list event_t :=
  let idt := get_event_id t in
  (snd idt,
   [mkEventT (ktime_ns f) (fst idt) (current_pid f)
             (BPF.current_tid (pid_tgid f)) EVENT_IOCTL_ENTER 0
             (ioctl (parm2 (ctx f)) 0)]).

Definition trace_ioctl_exit (f : firing) (t : tables)
  : tables * list event_t :=
  let idt := get_event_id t in
  (snd idt,
   [mkEventT (ktime_ns f) (fst idt) (current_pid f)
             (BPF.current_tid (pid_tgid f)) EVENT_IOCTL_EXIT 0
             (ioctl 0 (s64 (rc (ctx f))))]).

(** The handlers by name. *)
Inductive handler : Type :=
  | cuda_entry
  | cuda_exit
  | cuMemAlloc_entry
  | cuMemAlloc_exit
  | cuMemcpyHtoD_entry
  | cuMemcpyDtoH_entry
  | cuMemcpyDtoD_entry
  | cuMemcpy_exit
  | cuLaunchKernel_entry
  | ioctl_entry
  | ioctl_exit.

Definition fire (h : handler) (f : firing) (t : tables)
  : tables * list event_t :=
  match h with
  | cuda_entry => trace_cuda_entry f t
  | cuda_exit => trace_cuda_exit f t
  | cuMemAlloc_entry => trace_cuMemAlloc_entry f t
  | cuMemAlloc_exit => trace_cuMemAlloc_exit f t
  | cuMemcpyHtoD_entry => trace_cuMemcpyHtoD_entry f t
  | cuMemcpyDtoH_entry => trace_cuMemcpyDtoH_entry f t
  | cuMemcpyDtoD_entry => trace_cuMemcpyDtoD_entry f t
  | cuMemcpy_exit => trace_cuMemcpy_exit f t
  | cuLaunchKernel_entry => trace_cuLaunchKernel_entry f t
  | ioctl_entry => trace_ioctl_entry f t
  | ioctl_exit => trace_ioctl_exit f t
  end.

(** A run of the program: the firings in order, the tables at the end and
    all the events submitted. *)
Fixpoint run_probes (ps : list (handler * firing)) (t : tables)
  : tables * list event_t :=
  match ps with
  | [] => (t, [])
  | p :: ps' =>
      let r := fire (fst p) (snd p) t in
      let r' := run_probes ps' (fst r) in
      (fst r', snd r ++ snd r')
  end.

End Handlers.

(** The thread of a firing. *)
Definition firing_tid (p : handler * firing) : Z :=
  BPF.current_tid (pid_tgid (snd p)).

(** The handlers of the [cuMemAlloc] probes. *)
Definition is_alloc_handler (h : handler) : bool :=
  match h with
  | cuMemAlloc_entry | cuMemAlloc_exit => true
  | _ => false
  end.

(** The handlers that record an entry timestamp: the generic entry handler
    and those that end by calling it. *)
Definition is_entry_handler (h : handler) : bool :=
  match h with
  | cuda_entry | cuMemAlloc_entry | cuMemcpyHtoD_entry | cuMemcpyDtoH_entry
  | cuMemcpyDtoD_entry | cuLaunchKernel_entry => true
  | _ => false
  end.

(** The clock reading that an entry handler stores in [entry_timestamp]:
    [trace_cuLaunchKernel_entry] reads the clock for its own event first,
    so the generic handler it calls stores the next reading. *)
Definition entry_reading (h : handler) (f : firing) : Z :=
  match h with
  | cuLaunchKernel_entry => ktime_ns_next f
  | _ => ktime_ns f
  end.

(** The sizes reported by the allocation events among [evs]. *)
Definition alloc_sizes (evs : list event_t) : list Z :=
  omap (fun e => match data e with
                 | mem_alloc size _ => Some size
                 | _ => None
                 end) evs.

(** The directions reported by the copy events among [evs]. *)
Definition copy_directions (evs : list event_t) : list Z :=
  omap (fun e => match data e with
                 | mem_copy _ direction => Some direction
                 | _ => None
                 end) evs.

(** The two tables of a pending copy hold the same threads, and every
    stored direction is one of the three that the entry handlers pass. *)
Definition copy_tables_ok (t : tables) : Prop :=
  dom (pending_copy_size t) = dom (pending_copy_dir t) /\
  map_Forall (fun _ d => d = 1 \/ d = 2 \/ d = 3) (pending_copy_dir t).

End Probes.

(** * Verified properties *)

(** ** Generic facts on [sorted] *)

Section SortedFacts.
Context {A : Type} (key : A -> float).

Lemma insert_sorted_perm (x : A) (l : list A) :
  insert_sorted key x l ≡ₚ x :: l.
Proof.
  induction l as [|y l IH]; simpl; [done|].
  destruct (PrimFloat.ltb (key y) (key x)); [|done].
  rewrite IH. apply Permutation_swap.
Qed.

Lemma sorted_perm (l : list A) : sorted key l ≡ₚ l.
Proof.
  induction l as [|x l IH]; simpl; [done|].
  rewrite insert_sorted_perm. by rewrite IH.
Qed.

Lemma sorted_length (l : list A) : length (sorted key l) = length l.
Proof. by rewrite sorted_perm. Qed.

Lemma sorted_ascending (l : list A) : ascending key l -> sorted key l = l.
Proof.
  induction l as [|x l IH]; simpl; [done|].
  intros [Hx Hl]. rewrite (IH Hl).
  destruct l as [|y l]; simpl; [done|]. by rewrite Hx.
Qed.

End SortedFacts.

(** ** Facts on the matching loop *)

Lemma match_scan_app (l1 l2 : list CUDATraceEvent) (s : MatchState) :
  match_scan (l1 ++ l2) s = match_scan l2 (match_scan l1 s).
Proof. apply fold_left_app. Qed.

Lemma match_scan_cons (x : CUDATraceEvent) (l : list CUDATraceEvent) (s : MatchState) :
  match_scan (x :: l) s = match_scan l (match_event s x).
Proof. reflexivity. Qed.

Lemma match_event_begin (s : MatchState) (b : CUDATraceEvent) :
  ev_phase b = "B" ->
  match_event s b =
    {| stack := <[ev_op_id b := b]> (stack s);
       ms_timeline := ms_timeline s;
       ms_categories := ms_categories s |}.
Proof. intros Hb. unfold match_event. by rewrite Hb. Qed.

Lemma match_event_end_found (s : MatchState) (e b : CUDATraceEvent) :
  ev_phase e = "E" ->
  stack s !! ev_op_id e = Some b ->
  match_event s e =
    {| stack := delete (ev_op_id e) (stack s);
       ms_timeline := ms_timeline s ++ [make_op e b];
       ms_categories :=
         categories_append (ms_categories s) (categorize (ev_name e))
                           (make_op e b) |}.
Proof. intros He Hs. unfold match_event. by rewrite He, Hs. Qed.

Lemma match_event_end_missing (s : MatchState) (e : CUDATraceEvent) :
  ev_phase e = "E" ->
  stack s !! ev_op_id e = None ->
  match_event s e = s.
Proof. intros He Hs. unfold match_event. by rewrite He, Hs. Qed.

(** An event with another key leaves the pending entry of [k] alone. *)
Lemma match_event_other_key (s : MatchState) (x : CUDATraceEvent) (k : op_key) :
  ev_op_id x <> k ->
  stack (match_event s x) !! k = stack s !! k.
Proof.
  intros Hk. unfold match_event.
  destruct (String.eqb (ev_phase x) "B"); simpl.
  { by rewrite lookup_insert_ne. }
  destruct (String.eqb (ev_phase x) "E"); [|done].
  destruct (stack s !! ev_op_id x); simpl; [|done].
  by rewrite lookup_delete_ne.
Qed.

Lemma match_scan_other_keys (mid : list CUDATraceEvent) (s : MatchState) (k : op_key) :
  Forall (fun x => ev_op_id x <> k) mid ->
  stack (match_scan mid s) !! k = stack s !! k.
Proof.
  revert s. induction mid as [|x mid IH]; intros s Hmid; [done|].
  inversion Hmid as [|? ? Hx Hrest]; subst.
  rewrite match_scan_cons, IH by done.
  by apply match_event_other_key.
Qed.

(** The timeline only grows, by appending. *)
Lemma match_event_timeline (s : MatchState) (x : CUDATraceEvent) :
  exists new, ms_timeline (match_event s x) = ms_timeline s ++ new.
Proof.
  unfold match_event.
  destruct (String.eqb (ev_phase x) "B"); simpl.
  { exists []. by rewrite app_nil_r. }
  destruct (String.eqb (ev_phase x) "E").
  - destruct (stack s !! ev_op_id x); simpl; [by eexists|].
    exists []. by rewrite app_nil_r.
  - exists []. by rewrite app_nil_r.
Qed.

Lemma match_scan_timeline (l : list CUDATraceEvent) (s : MatchState) :
  exists new, ms_timeline (match_scan l s) = ms_timeline s ++ new.
Proof.
  revert s. induction l as [|x l IH]; intros s.
  { exists []. by rewrite app_nil_r. }
  rewrite match_scan_cons.
  destruct (IH (match_event s x)) as [n2 H2].
  destruct (match_event_timeline s x) as [n1 H1].
  exists (n1 ++ n2). by rewrite H2, H1, app_assoc.
Qed.

(** The step at a matched end event, after a begin with the same key and
    events of other keys in between. *)
Lemma match_scan_pair (s0 : MatchState) (pre mid : list CUDATraceEvent)
    (b e : CUDATraceEvent) :
  ev_phase b = "B" -> ev_phase e = "E" ->
  ev_op_id b = ev_op_id e ->
  Forall (fun x => ev_op_id x <> ev_op_id b) mid ->
  let before := match_scan (pre ++ b :: mid) s0 in
  match_scan (pre ++ b :: mid ++ [e]) s0 =
    {| stack := delete (ev_op_id e) (stack before);
       ms_timeline := ms_timeline before ++ [make_op e b];
       ms_categories :=
         categories_append (ms_categories before) (categorize (ev_name e))
                           (make_op e b) |}.
Proof.
  intros Hb He Hk Hmid before.
  assert (Hpend : stack before !! ev_op_id e = Some b).
  { subst before. rewrite match_scan_app, match_scan_cons, <- Hk.
    rewrite match_scan_other_keys by done.
    rewrite match_event_begin by done. simpl. by rewrite lookup_insert_eq. }
  replace (pre ++ b :: mid ++ [e]) with ((pre ++ b :: mid) ++ [e])
    by (by rewrite <- app_assoc).
  rewrite match_scan_app. fold before. simpl.
  by apply match_event_end_found.
Qed.

(** ** C1 and C10: a matched begin/end pair *)

(** Discharges [nan_free] on a list given in full. *)
Ltac nan_free_list :=
  unfold nan_free; repeat (apply Forall_cons_2; [reflexivity|]);
  apply Forall_nil_2.

(** A matched pair, in whatever order the events are visited. *)
Lemma matched_pair_in_order (self : PipelineAnalyzer)
    (order pre mid post : list CUDATraceEvent) (b e : CUDATraceEvent) :
  order = pre ++ b :: mid ++ e :: post ->
  ev_phase b = "B" -> ev_phase e = "E" ->
  ev_op_id b = ev_op_id e ->
  Forall (fun x => ev_op_id x <> ev_op_id b) mid ->
  let before := match_scan (pre ++ b :: mid) (match_init self) in
  let after := match_scan (pre ++ b :: mid ++ [e]) (match_init self) in
  exists (op : Operation) (later : list Operation),
    ms_timeline after = ms_timeline before ++ [op] /\
    timeline (match_events_in order self) = ms_timeline before ++ [op] ++ later /\
    op_start op = ev_ts b /\
    op_end op = ev_ts e /\
    op_duration op = PrimFloat.sub (op_end op) (op_start op) /\
    stack after !! ev_op_id e = None.
Proof.
  intros Hscan Hb He Hk Hmid before after.
  pose proof (match_scan_pair (match_init self) pre mid b e Hb He Hk Hmid)
    as Hstep.
  simpl in Hstep. fold before in Hstep. fold after in Hstep.
  destruct (match_scan_timeline post after) as [later Hlater].
  exists (make_op e b), later. repeat split.
  + by rewrite Hstep.
  + unfold match_events_in. simpl. rewrite Hscan.
    replace (pre ++ b :: mid ++ e :: post)
      with ((pre ++ b :: mid ++ [e]) ++ post)
      by (rewrite <- !app_assoc; simpl; by rewrite <- app_assoc).
    rewrite match_scan_app. fold after. rewrite Hlater, Hstep. simpl.
    by rewrite <- app_assoc.
  + rewrite Hstep. simpl. by rewrite lookup_delete_eq.
Qed.

(** C1. In whatever order the sort hands the events of the log to the loop
    of [match_events]: whenever the scan meets a begin event and later an
    end event with the same [op_id], with no event of that [op_id] in
    between, the step at the end event appends exactly one operation to the
    timeline, with [start] the begin's [ts], [end] the end's [ts] and
    [duration = end - start], and it closes the pending entry; the final
    timeline contains that operation at that place.  On a log whose
    timestamps are free of NaN the order is [scan_order] and the final
    timeline is that of [match_events].  For the two-line log
    (begin at 0.0, end at 0.5, [op_id] 1) the timeline is exactly one
    operation, of duration 0.5. *)
Theorem C1_matched_pair_yields_one_operation :
  (forall (self : PipelineAnalyzer) (order pre mid post : list CUDATraceEvent)
          (b e : CUDATraceEvent),
      order ≡ₚ events self ->
      order = pre ++ b :: mid ++ e :: post ->
      ev_phase b = "B" -> ev_phase e = "E" ->
      ev_op_id b = ev_op_id e ->
      Forall (fun x => ev_op_id x <> ev_op_id b) mid ->
      let before := match_scan (pre ++ b :: mid) (match_init self) in
      let after := match_scan (pre ++ b :: mid ++ [e]) (match_init self) in
      exists (op : Operation) (later : list Operation),
        ms_timeline after = ms_timeline before ++ [op] /\
        timeline (match_events_in order self)
          = ms_timeline before ++ [op] ++ later /\
        op_start op = ev_ts b /\
        op_end op = ev_ts e /\
        op_duration op = PrimFloat.sub (op_end op) (op_start op) /\
        stack after !! ev_op_id e = None) /\
  (forall (self : PipelineAnalyzer) (pre mid post : list CUDATraceEvent)
          (b e : CUDATraceEvent),
      nan_free ev_ts (events self) ->
      scan_order self = pre ++ b :: mid ++ e :: post ->
      ev_phase b = "B" -> ev_phase e = "E" ->
      ev_op_id b = ev_op_id e ->
      Forall (fun x => ev_op_id x <> ev_op_id b) mid ->
      let before := match_scan (pre ++ b :: mid) (match_init self) in
      let after := match_scan (pre ++ b :: mid ++ [e]) (match_init self) in
      exists (op : Operation) (later : list Operation),
        ms_timeline after = ms_timeline before ++ [op] /\
        timeline (match_events self) = ms_timeline before ++ [op] ++ later /\
        op_start op = ev_ts b /\
        op_end op = ev_ts e /\
        op_duration op = PrimFloat.sub (op_end op) (op_start op) /\
        stack after !! ev_op_id e = None) /\
  (exists op : Operation,
      timeline (match_events two_line_analyzer) = [op] /\
      op_start op = 0%float /\ op_end op = 0.5%float /\
      op_duration op = 0.5%float).
Proof.
  split; [|split].
  - intros self order pre mid post b e _ Hscan Hb He Hk Hmid.
    exact (matched_pair_in_order self order pre mid post b e
             Hscan Hb He Hk Hmid).
  - intros self pre mid post b e _ Hscan Hb He Hk Hmid.
    exact (matched_pair_in_order self (scan_order self) pre mid post b e
             Hscan Hb He Hk Hmid).
  - eexists. split; [vm_compute; reflexivity|]. by repeat split.
Qed.

Lemma C1_matched_pair_witness :
  (exists (op : Operation) (later : list Operation),
      ms_timeline (match_scan [sample_begin; sample_end] (match_init sample_analyzer))
        = [] ++ [op] /\
      timeline (match_events_in [sample_begin; sample_end] sample_analyzer)
        = [] ++ [op] ++ later /\
      op_start op = 1%float /\ op_end op = 2%float /\
      op_duration op = PrimFloat.sub (op_end op) (op_start op) /\
      (∅ : gmap op_key CUDATraceEvent) !! ev_op_id sample_end = None) /\
  (exists (op : Operation) (later : list Operation),
      ms_timeline (match_scan [sample_begin; sample_end] (match_init sample_analyzer))
        = [] ++ [op] /\
      timeline (match_events sample_analyzer) = [] ++ [op] ++ later /\
      op_start op = 1%float /\ op_end op = 2%float /\
      op_duration op = PrimFloat.sub (op_end op) (op_start op) /\
      (∅ : gmap op_key CUDATraceEvent) !! ev_op_id sample_end = None).
Proof.
  destruct C1_matched_pair_yields_one_operation as (Hany & Hgen & _).
  split.
  - refine (Hany sample_analyzer [sample_begin; sample_end] [] [] []
                 sample_begin sample_end
                 _ eq_refl eq_refl eq_refl eq_refl (Forall_nil_2 _)).
    apply Permutation_swap.
  - refine (Hgen sample_analyzer [] [] [] sample_begin sample_end
                 _ eq_refl eq_refl eq_refl eq_refl (Forall_nil_2 _)).
    nan_free_list.
Defined.

(** C10. At a matched pair whose two events carry different fields, the
    operation appended by the end event has the end event's [name] and
    [details], is filed under the category of the end event's name, and has
    the begin event's [ts] as [start] and the begin event's [depth]. *)
Theorem C10_operation_name_from_end_event :
  forall (self : PipelineAnalyzer) (pre mid post : list CUDATraceEvent)
         (b e : CUDATraceEvent),
    scan_order self = pre ++ b :: mid ++ e :: post ->
    ev_phase b = "B" -> ev_phase e = "E" ->
    ev_op_id b = ev_op_id e ->
    Forall (fun x => ev_op_id x <> ev_op_id b) mid ->
    let before := match_scan (pre ++ b :: mid) (match_init self) in
    let after := match_scan (pre ++ b :: mid ++ [e]) (match_init self) in
    exists op : Operation,
      ms_timeline after = ms_timeline before ++ [op] /\
      op_name op = ev_name e /\
      op_details op = ev_details e /\
      op_start op = ev_ts b /\
      op_depth op = ev_depth b /\
      ms_categories after !! categorize (ev_name e) =
        Some (default [] (ms_categories before !! categorize (ev_name e)) ++ [op]) /\
      (forall c, c <> categorize (ev_name e) ->
                 ms_categories after !! c = ms_categories before !! c).
Proof.
  intros self pre mid post b e _ Hb He Hk Hmid before after.
  pose proof (match_scan_pair (match_init self) pre mid b e Hb He Hk Hmid)
    as Hstep.
  simpl in Hstep. fold before in Hstep. fold after in Hstep.
  exists (make_op e b). rewrite Hstep. simpl. repeat split.
  - unfold categories_append. by rewrite lookup_insert_eq.
  - intros c Hc. unfold categories_append. by rewrite lookup_insert_ne.
Qed.

Lemma C10_operation_name_witness :
  exists op : Operation,
    ms_timeline (match_scan [sample_begin; sample_end] (match_init sample_analyzer))
      = [] ++ [op] /\
    op_name op = "cuLaunchKernel" /\
    op_details op = JObj [("retval", JInt 0)] /\
    op_start op = 1%float /\
    op_depth op = 2 /\
    ms_categories (match_scan [sample_begin; sample_end] (match_init sample_analyzer))
      !! categorize "cuLaunchKernel" = Some ([] ++ [op]) /\
    (forall c, c <> categorize "cuLaunchKernel" ->
       ms_categories (match_scan [sample_begin; sample_end] (match_init sample_analyzer)) !! c
       = (∅ : gmap string (list Operation)) !! c).
Proof.
  exact (C10_operation_name_from_end_event sample_analyzer [] [] []
           sample_begin sample_end
           eq_refl eq_refl eq_refl eq_refl (Forall_nil_2 _)).
Defined.

(** ** C3: the pending map *)

Lemma open_begin_snoc (k : op_key) (seen : list CUDATraceEvent)
    (x : CUDATraceEvent) (pending : option CUDATraceEvent) :
  open_begin k (seen ++ [x]) pending =
    open_begin k [x] (open_begin k seen pending).
Proof. unfold open_begin. by rewrite fold_left_app. Qed.

(** The loop keeps, for each key, exactly the begin event that
    [open_begin] designates. *)
Lemma stack_open_begin (k : op_key) (seen : list CUDATraceEvent) (s : MatchState) :
  stack (match_scan seen s) !! k = open_begin k seen (stack s !! k).
Proof.
  revert s. induction seen as [|x seen IH]; intros s; [done|].
  rewrite match_scan_cons, IH. unfold open_begin at 2. simpl.
  fold (open_begin k seen). f_equal.
  destruct (decide (ev_op_id x = k)) as [Hk|Hk].
  - unfold match_event. subst k.
    destruct (String.eqb (ev_phase x) "B"); simpl.
    { by rewrite lookup_insert_eq. }
    destruct (String.eqb (ev_phase x) "E"); [|done].
    destruct (stack s !! ev_op_id x) eqn:Hs; simpl; [|done].
    by rewrite lookup_delete_eq.
  - by apply match_event_other_key.
Qed.

Lemma agree_off_event (k : op_key) (s1 s2 : MatchState) (x : CUDATraceEvent) :
  ev_op_id x <> k ->
  agree_off k s1 s2 ->
  agree_off k (match_event s1 x) (match_event s2 x).
Proof.
  intros Hk (Hst & Htl & Hcat).
  assert (Hlook : stack s1 !! ev_op_id x = stack s2 !! ev_op_id x).
  { rewrite <- (lookup_delete_ne (stack s1) k (ev_op_id x)) by done.
    rewrite <- (lookup_delete_ne (stack s2) k (ev_op_id x)) by done.
    by rewrite Hst. }
  unfold match_event.
  destruct (String.eqb (ev_phase x) "B").
  { split; [|done]. simpl. rewrite !delete_insert_ne by done. by rewrite Hst. }
  destruct (String.eqb (ev_phase x) "E"); [|done].
  rewrite <- Hlook. destruct (stack s1 !! ev_op_id x); [|done].
  repeat split; simpl.
  - rewrite (delete_delete (stack s1)), (delete_delete (stack s2)).
    by rewrite Hst.
  - by rewrite Htl.
  - by rewrite Hcat.
Qed.

Lemma agree_off_scan (k : op_key) (mid : list CUDATraceEvent) (s1 s2 : MatchState) :
  Forall (fun x => ev_op_id x <> k) mid ->
  agree_off k s1 s2 ->
  agree_off k (match_scan mid s1) (match_scan mid s2).
Proof.
  revert s1 s2. induction mid as [|x mid IH]; intros s1 s2 Hmid Hag; [done|].
  inversion Hmid; subst. rewrite !match_scan_cons.
  apply IH; [done|]. by apply agree_off_event.
Qed.

(** A begin event overwritten by a later begin of the same key, with no
    event of that key in between, has no effect on the rest of the scan. *)
Lemma overwritten_begin_dropped (s : MatchState) (mid rest : list CUDATraceEvent)
    (b1 b2 : CUDATraceEvent) :
  ev_phase b1 = "B" -> ev_phase b2 = "B" ->
  ev_op_id b1 = ev_op_id b2 ->
  Forall (fun x => ev_op_id x <> ev_op_id b1) mid ->
  match_scan (b1 :: mid ++ b2 :: rest) s = match_scan (mid ++ b2 :: rest) s.
Proof.
  intros H1 H2 Hk Hmid.
  rewrite match_scan_cons, !match_scan_app, !match_scan_cons. f_equal.
  assert (Hag : agree_off (ev_op_id b1) (match_scan mid (match_event s b1))
                          (match_scan mid s)).
  { apply agree_off_scan; [done|]. rewrite match_event_begin by done.
    split; [|done]. simpl. by rewrite delete_insert_eq. }
  destruct Hag as (Hst & Htl & Hcat).
  rewrite !match_event_begin by done.
  rewrite (match_event_begin s b1 H1) in Hst, Htl, Hcat.
  rewrite Htl, Hcat. f_equal.
  rewrite <- Hk.
  rewrite <- (insert_delete_eq (stack (match_scan mid s))).
  rewrite <- Hst. by rewrite insert_delete_eq.
Qed.

Lemma open_begin_origin (k : op_key) (seen : list CUDATraceEvent)
    (pending : option CUDATraceEvent) (b : CUDATraceEvent) :
  open_begin k seen pending = Some b ->
  (ev_phase b = "B" /\ ev_op_id b = k /\ b ∈ seen) \/ pending = Some b.
Proof.
  revert pending. induction seen as [|x seen IH]; intros pending Hb.
  { by right. }
  apply IH in Hb as [(Hp & Hk & Hin)|Hb].
  { left. repeat split; [done..|]. by apply list_elem_of_further. }
  destruct (decide (ev_op_id x = k)) as [Hk|Hk]; [|by right].
  destruct (String.eqb (ev_phase x) "B") eqn:HB.
  { injection Hb as ->. left. apply String.eqb_eq in HB.
    repeat split; [done..|]. apply list_elem_of_here. }
  destruct (String.eqb (ev_phase x) "E"); [done|by right].
Qed.

(** C3. In whatever order the sort hands the events of the log to the loop
    of [match_events]: at every point of the scan the pending map holds,
    for each correlation key, at most one begin event: the one designated
    by [open_begin], which is a begin event of that key already seen.
    Processing a begin event inserts or overwrites the entry of its
    [op_id] and appends nothing.  When a second begin of the same key
    arrives before any end of that key, it replaces the first, and the
    whole result of the method is the one obtained without the first
    begin: the first begin produces no operation.  On a log whose
    timestamps are free of NaN the order is [scan_order] and the result is
    that of [match_events]. *)
Theorem C3_one_pending_begin_per_key :
  (forall (self : PipelineAnalyzer) (order pre rest : list CUDATraceEvent)
          (k : op_key),
      order ≡ₚ events self ->
      order = pre ++ rest ->
      let s := match_scan pre (match_init self) in
      NoDup (map_to_list (stack s)).*1 /\
      stack s !! k = open_begin k pre None /\
      (forall b, stack s !! k = Some b ->
                 ev_phase b = "B" /\ ev_op_id b = k /\ b ∈ pre)) /\
  (forall (s : MatchState) (b : CUDATraceEvent),
      ev_phase b = "B" ->
      stack (match_event s b) = <[ev_op_id b := b]> (stack s) /\
      ms_timeline (match_event s b) = ms_timeline s /\
      ms_categories (match_event s b) = ms_categories s) /\
  (forall (self : PipelineAnalyzer) (order pre mid rest : list CUDATraceEvent)
          (b1 b2 : CUDATraceEvent),
      order ≡ₚ events self ->
      order = pre ++ b1 :: mid ++ b2 :: rest ->
      ev_phase b1 = "B" -> ev_phase b2 = "B" ->
      ev_op_id b1 = ev_op_id b2 ->
      Forall (fun x => ev_op_id x <> ev_op_id b1) mid ->
      stack (match_scan (pre ++ b1 :: mid) (match_init self)) !! ev_op_id b1
        = Some b1 /\
      stack (match_scan (pre ++ b1 :: mid ++ [b2]) (match_init self)) !! ev_op_id b1
        = Some b2 /\
      timeline (match_events_in order self) =
        ms_timeline (match_scan (pre ++ mid ++ b2 :: rest) (match_init self)) /\
      categories (match_events_in order self) =
        ms_categories (match_scan (pre ++ mid ++ b2 :: rest) (match_init self))) /\
  (forall (self : PipelineAnalyzer) (pre mid rest : list CUDATraceEvent)
          (b1 b2 : CUDATraceEvent),
      nan_free ev_ts (events self) ->
      scan_order self = pre ++ b1 :: mid ++ b2 :: rest ->
      ev_phase b1 = "B" -> ev_phase b2 = "B" ->
      ev_op_id b1 = ev_op_id b2 ->
      Forall (fun x => ev_op_id x <> ev_op_id b1) mid ->
      stack (match_scan (pre ++ b1 :: mid) (match_init self)) !! ev_op_id b1
        = Some b1 /\
      stack (match_scan (pre ++ b1 :: mid ++ [b2]) (match_init self)) !! ev_op_id b1
        = Some b2 /\
      timeline (match_events self) =
        ms_timeline (match_scan (pre ++ mid ++ b2 :: rest) (match_init self)) /\
      categories (match_events self) =
        ms_categories (match_scan (pre ++ mid ++ b2 :: rest) (match_init self))).
Proof.
  assert (Hdup : forall (self : PipelineAnalyzer)
                        (order pre mid rest : list CUDATraceEvent)
                        (b1 b2 : CUDATraceEvent),
      order = pre ++ b1 :: mid ++ b2 :: rest ->
      ev_phase b1 = "B" -> ev_phase b2 = "B" ->
      ev_op_id b1 = ev_op_id b2 ->
      Forall (fun x => ev_op_id x <> ev_op_id b1) mid ->
      stack (match_scan (pre ++ b1 :: mid) (match_init self)) !! ev_op_id b1
        = Some b1 /\
      stack (match_scan (pre ++ b1 :: mid ++ [b2]) (match_init self)) !! ev_op_id b1
        = Some b2 /\
      timeline (match_events_in order self) =
        ms_timeline (match_scan (pre ++ mid ++ b2 :: rest) (match_init self)) /\
      categories (match_events_in order self) =
        ms_categories (match_scan (pre ++ mid ++ b2 :: rest) (match_init self))).
  { intros self order pre mid rest b1 b2 Hscan H1 H2 Hk Hmid. repeat split.
    + rewrite match_scan_app, match_scan_cons.
      rewrite match_scan_other_keys by done.
      rewrite match_event_begin by done. simpl. by rewrite lookup_insert_eq.
    + replace (pre ++ b1 :: mid ++ [b2]) with ((pre ++ b1 :: mid) ++ [b2])
        by (by rewrite <- app_assoc).
      rewrite match_scan_app. simpl. rewrite match_event_begin by done.
      simpl. rewrite Hk. by rewrite lookup_insert_eq.
    + unfold match_events_in. simpl. rewrite Hscan, 2!match_scan_app.
      by rewrite overwritten_begin_dropped.
    + unfold match_events_in. simpl. rewrite Hscan, 2!match_scan_app.
      by rewrite overwritten_begin_dropped. }
  split; [|split; [|split]].
  - intros self order pre rest k _ _ s. split; [apply NoDup_fst_map_to_list|].
    assert (Hs : stack s !! k = open_begin k pre None).
    { subst s. rewrite stack_open_begin. simpl. by rewrite lookup_empty. }
    split; [done|]. intros b Hb. rewrite Hs in Hb.
    by apply open_begin_origin in Hb as [?|?].
  - intros s b Hb. by rewrite match_event_begin.
  - intros self order pre mid rest b1 b2 _. apply Hdup.
  - intros self pre mid rest b1 b2 _.
    exact (Hdup self (scan_order self) pre mid rest b1 b2).
Qed.

Lemma C3_one_pending_begin_witness :
  (let s := match_scan [dup_begin1; dup_other; dup_begin2] (match_init dup_analyzer) in
   NoDup (map_to_list (stack s)).*1 /\
   stack s !! Some (inr "a") =
     open_begin (Some (inr "a")) [dup_begin1; dup_other; dup_begin2] None /\
   (forall b, stack s !! Some (inr "a") = Some b ->
      ev_phase b = "B" /\ ev_op_id b = Some (inr "a") /\
      b ∈ [dup_begin1; dup_other; dup_begin2])) /\
  (stack (match_event (match_init dup_analyzer) dup_begin1) =
     <[Some (inr "a") := dup_begin1]> ∅ /\
   ms_timeline (match_event (match_init dup_analyzer) dup_begin1) = [] /\
   ms_categories (match_event (match_init dup_analyzer) dup_begin1) = ∅) /\
  (stack (match_scan [dup_begin1; dup_other] (match_init dup_analyzer))
     !! Some (inr "a") = Some dup_begin1 /\
   stack (match_scan [dup_begin1; dup_other; dup_begin2] (match_init dup_analyzer))
     !! Some (inr "a") = Some dup_begin2 /\
   timeline (match_events_in [dup_begin1; dup_other; dup_begin2; dup_end]
                             dup_analyzer) =
     ms_timeline (match_scan [dup_other; dup_begin2; dup_end] (match_init dup_analyzer)) /\
   categories (match_events_in [dup_begin1; dup_other; dup_begin2; dup_end]
                               dup_analyzer) =
     ms_categories (match_scan [dup_other; dup_begin2; dup_end] (match_init dup_analyzer))) /\
  (stack (match_scan [dup_begin1; dup_other] (match_init dup_analyzer))
     !! Some (inr "a") = Some dup_begin1 /\
   stack (match_scan [dup_begin1; dup_other; dup_begin2] (match_init dup_analyzer))
     !! Some (inr "a") = Some dup_begin2 /\
   timeline (match_events dup_analyzer) =
     ms_timeline (match_scan [dup_other; dup_begin2; dup_end] (match_init dup_analyzer)) /\
   categories (match_events dup_analyzer) =
     ms_categories (match_scan [dup_other; dup_begin2; dup_end] (match_init dup_analyzer))).
Proof.
  destruct C3_one_pending_begin_per_key as (Hinv & Hbegin & Hany & Hdup).
  split; [|split; [|split]].
  - exact (Hinv dup_analyzer [dup_begin1; dup_other; dup_begin2; dup_end]
                [dup_begin1; dup_other; dup_begin2] [dup_end]
                (Some (inr "a")) (Permutation_refl _) eq_refl).
  - exact (Hbegin (match_init dup_analyzer) dup_begin1 eq_refl).
  - refine (Hany dup_analyzer [dup_begin1; dup_other; dup_begin2; dup_end]
                 [] [dup_other] [dup_end] dup_begin1 dup_begin2
                 (Permutation_refl _) eq_refl eq_refl eq_refl eq_refl _).
    apply Forall_cons_2; [discriminate|apply Forall_nil_2].
  - refine (Hdup dup_analyzer [] [dup_other] [dup_end] dup_begin1 dup_begin2
                 _ eq_refl eq_refl eq_refl eq_refl _).
    + nan_free_list.
    + apply Forall_cons_2; [discriminate|apply Forall_nil_2].
Defined.

(** ** C4: an end event without a pending begin *)

Lemma count_ends_app (l1 l2 : list CUDATraceEvent) :
  count_ends (l1 ++ l2) = (count_ends l1 + count_ends l2)%nat.
Proof. unfold count_ends. by rewrite filter_app, length_app. Qed.

Lemma count_ends_end (e : CUDATraceEvent) (l : list CUDATraceEvent) :
  ev_phase e = "E" -> count_ends (e :: l) = S (count_ends l).
Proof. intros He. unfold count_ends. by rewrite filter_cons_True. Qed.

Lemma count_ends_scan_order (self : PipelineAnalyzer) :
  count_ends (scan_order self) = count_ends (events self).
Proof. unfold count_ends, scan_order. by rewrite sorted_perm. Qed.

(** Each step appends at most one operation, and only at an end event. *)
Lemma match_event_length (s : MatchState) (x : CUDATraceEvent) :
  (length (ms_timeline (match_event s x))
   <= length (ms_timeline s) + count_ends [x])%nat.
Proof.
  unfold match_event.
  destruct (String.eqb (ev_phase x) "B"); simpl; [lia|].
  destruct (String.eqb (ev_phase x) "E") eqn:HE; [|lia].
  apply String.eqb_eq in HE. rewrite (count_ends_end x [] HE).
  destruct (stack s !! ev_op_id x); simpl; [|lia].
  rewrite length_app. simpl. lia.
Qed.

Lemma match_scan_length (l : list CUDATraceEvent) (s : MatchState) :
  (length (ms_timeline (match_scan l s))
   <= length (ms_timeline s) + count_ends l)%nat.
Proof.
  revert s. induction l as [|x l IH]; intros s; [simpl; lia|].
  rewrite match_scan_cons. specialize (IH (match_event s x)).
  pose proof (match_event_length s x) as Hx.
  change (x :: l) with ([x] ++ l). rewrite count_ends_app. lia.
Qed.

(** An end event without a pending begin, in whatever order the events
    are visited. *)
Lemma unmatched_end_in_order (self : PipelineAnalyzer)
    (order pre post : list CUDATraceEvent) (e : CUDATraceEvent) :
  order ≡ₚ events self ->
  order = pre ++ e :: post ->
  ev_phase e = "E" ->
  stack (match_scan pre (match_init self)) !! ev_op_id e = None ->
  match_scan (pre ++ [e]) (match_init self) = match_scan pre (match_init self) /\
  (exists produced : list Operation,
      timeline (match_events_in order self) = timeline self ++ produced /\
      (length produced < count_ends (events self))%nat).
Proof.
  intros Hperm Hscan He Hnone.
  assert (Hstep : match_scan (pre ++ [e]) (match_init self)
                  = match_scan pre (match_init self)).
  { rewrite match_scan_app. simpl. by apply match_event_end_missing. }
  split; [done|].
  destruct (match_scan_timeline order (match_init self))
    as [produced Hprod].
  exists produced. split; [done|].
  assert (Hlen : (length (ms_timeline (match_scan order (match_init self)))
                  <= length (timeline self) + (count_ends pre + count_ends post))%nat).
  { rewrite Hscan.
    replace (pre ++ e :: post) with ((pre ++ [e]) ++ post)
      by (by rewrite <- app_assoc).
    rewrite match_scan_app, Hstep.
    pose proof (match_scan_length post (match_scan pre (match_init self))).
    pose proof (match_scan_length pre (match_init self)).
    simpl in *. lia. }
  rewrite Hprod, length_app in Hlen. simpl in Hlen.
  assert (count_ends order = count_ends (events self)) as <-.
  { unfold count_ends. by rewrite Hperm. }
  rewrite Hscan, count_ends_app.
  rewrite count_ends_end by done. lia.
Qed.

(** C4. In whatever order the sort hands the events of the log to the loop
    of [match_events]: an end event whose [op_id] has no pending begin when
    it is scanned leaves the loop state (timeline, categories, pending map)
    unchanged, so it produces no operation; and a log with such an end
    event yields strictly fewer operations than it has end events.  On a
    log whose timestamps are free of NaN the order is [scan_order] and the
    operations are those of [match_events]. *)
Theorem C4_unmatched_end_produces_nothing :
  (forall (self : PipelineAnalyzer) (order pre post : list CUDATraceEvent)
          (e : CUDATraceEvent),
      order ≡ₚ events self ->
      order = pre ++ e :: post ->
      ev_phase e = "E" ->
      stack (match_scan pre (match_init self)) !! ev_op_id e = None ->
      match_scan (pre ++ [e]) (match_init self) = match_scan pre (match_init self) /\
      (exists produced : list Operation,
          timeline (match_events_in order self) = timeline self ++ produced /\
          (length produced < count_ends (events self))%nat)) /\
  (forall (self : PipelineAnalyzer) (pre post : list CUDATraceEvent)
          (e : CUDATraceEvent),
      nan_free ev_ts (events self) ->
      scan_order self = pre ++ e :: post ->
      ev_phase e = "E" ->
      stack (match_scan pre (match_init self)) !! ev_op_id e = None ->
      match_scan (pre ++ [e]) (match_init self) = match_scan pre (match_init self) /\
      (exists produced : list Operation,
          timeline (match_events self) = timeline self ++ produced /\
          (length produced < count_ends (events self))%nat)).
Proof.
  split.
  - intros self order pre post e. apply unmatched_end_in_order.
  - intros self pre post e _ Hscan He Hnone.
    refine (unmatched_end_in_order self (scan_order self) pre post e
              _ Hscan He Hnone).
    apply sorted_perm.
Qed.

Lemma C4_unmatched_end_witness :
  (match_scan ([] ++ [orphan_end]) (match_init orphan_analyzer)
     = match_scan [] (match_init orphan_analyzer) /\
   (exists produced : list Operation,
       timeline (match_events_in (orphan_end :: two_line_log) orphan_analyzer)
         = [] ++ produced /\
       (length produced < count_ends (events orphan_analyzer))%nat)) /\
  (match_scan ([] ++ [orphan_end]) (match_init orphan_analyzer)
     = match_scan [] (match_init orphan_analyzer) /\
   (exists produced : list Operation,
       timeline (match_events orphan_analyzer) = [] ++ produced /\
       (length produced < count_ends (events orphan_analyzer))%nat)).
Proof.
  destruct C4_unmatched_end_produces_nothing as [Hany Hgen].
  split.
  - exact (Hany orphan_analyzer (orphan_end :: two_line_log) [] two_line_log
                orphan_end (Permutation_refl _) eq_refl eq_refl eq_refl).
  - refine (Hgen orphan_analyzer [] two_line_log
                 orphan_end _ eq_refl eq_refl eq_refl).
    nan_free_list.
Defined.

(** ** C2: categorization *)

Lemma prefix_spec (needle hay : string) :
  String.prefix needle hay = true <-> exists post, hay = needle +:+ post.
Proof.
  revert hay. induction needle as [|c needle IH]; intros hay; simpl.
  { split; [intros _; by exists hay|]. by destruct hay. }
  destruct hay as [|d hay].
  { split; [done|]. intros [post Hpost]. discriminate Hpost. }
  unfold String.prefix; fold String.prefix.
  destruct (ascii_dec c d) as [->|Hcd].
  - rewrite IH. split; intros [post Hpost]; exists post.
    + by rewrite Hpost.
    + by injection Hpost.
  - split; [done|]. intros [post Hpost]. injection Hpost as Hd _. congruence.
Qed.

Lemma contains_nil (needle : string) :
  contains needle "" = String.prefix needle "" || false.
Proof. reflexivity. Qed.

Lemma contains_cons (needle : string) (d : ascii) (hay : string) :
  contains needle (String d hay) =
    String.prefix needle (String d hay) || contains needle hay.
Proof. reflexivity. Qed.

(** [contains] is the substring test: [needle in hay]. *)
Lemma contains_spec (needle hay : string) :
  contains needle hay = true <->
  exists pre post, hay = pre +:+ needle +:+ post.
Proof.
  induction hay as [|d hay IH].
  - rewrite contains_nil, orb_false_r, prefix_spec. split.
    + intros [post Hpost]. by exists "", post.
    + intros (pre & post & H). destruct pre as [|? ?]; [|discriminate H].
      by exists post.
  - rewrite contains_cons, orb_true_iff, prefix_spec, IH. split.
    + intros [[post Hpost]|(pre & post & H)].
      * by exists "", post.
      * exists (String d pre), post. simpl. by rewrite H.
    + intros (pre & post & H). destruct pre as [|c pre].
      * left. by exists post.
      * right. injection H as _ H. by exists pre, post.
Qed.

(** The chain of conditionals is the ordered, first-match rule table. *)
Lemma categorize_by_rules_eq (name : string) :
  categorize name = categorize_by_rules name.
Proof.
  unfold categorize, categorize_by_rules, category_rules, rule_matches. simpl.
  repeat match goal with
         | |- context [contains ?n name] => destruct (contains n name); simpl
         end; reflexivity.
Qed.

(** C2 (amended). [categorize] is a function of the name alone and equals
    the first-match evaluation of the nine rules in their order.  A name
    that contains both "Stream" and "Synchronize" and none of the
    substrings of rules 1 to 4 ("MemAlloc", "MemFree", "Memcpy", "Launch",
    "Ctx") is categorized [stream]; and no name containing "Stream" is
    ever categorized [sync] (rule 5 precedes rule 8). *)
Theorem C2_categorize_first_match :
  forall name : string,
    categorize name = categorize_by_rules name /\
    (forall name' : string, name' = name -> categorize name' = categorize name) /\
    (contains "Stream" name = true ->
     contains "Synchronize" name = true ->
     contains "MemAlloc" name = false -> contains "MemFree" name = false ->
     contains "Memcpy" name = false -> contains "Launch" name = false ->
     contains "Ctx" name = false ->
     categorize name = "stream") /\
    (contains "Stream" name = true -> categorize name <> "sync").
Proof.
  intros name. split; [apply categorize_by_rules_eq|].
  split; [by intros ? ->|]. split.
  - intros Hs _ H1 H2 H3 H4 H5. unfold categorize.
    by rewrite H1, H2, H3, H4, H5, Hs.
  - intros Hs. unfold categorize. rewrite Hs.
    repeat match goal with
           | |- context [contains ?n name] => destruct (contains n name); simpl
           end; discriminate.
Qed.

Lemma C2_categorize_witness :
  categorize "cuStreamSynchronize" = categorize_by_rules "cuStreamSynchronize" /\
  categorize "cuStreamSynchronize" = "stream" /\
  categorize "cuStreamSynchronize" <> "sync".
Proof.
  destruct (C2_categorize_first_match "cuStreamSynchronize")
    as (Hrules & _ & Hstream & Hsync).
  split; [exact Hrules|]. split.
  - exact (Hstream eq_refl eq_refl eq_refl eq_refl eq_refl eq_refl eq_refl).
  - exact (Hsync eq_refl).
Defined.

(** Without the exclusion of rules 1 to 4 the property fails: a name may
    contain "Stream" and "Synchronize" and still match an earlier rule. *)
Lemma C2_stream_synchronize_counterexample :
  contains "Stream" "cuMemcpyStreamSynchronize" = true /\
  contains "Synchronize" "cuMemcpyStreamSynchronize" = true /\
  categorize "cuMemcpyStreamSynchronize" = "transfer" /\
  categorize "cuMemcpyStreamSynchronize" <> "stream".
Proof. repeat split. discriminate. Qed.

(** ** C5: the per-thread call depth *)

Section CallDepth.
Variable max_entries : nat.

Lemma u32_range (z : Z) : 0 <= BPF.u32 z < 2 ^ 32.
Proof. unfold BPF.u32. apply Z.mod_pos_bound. lia. Qed.

Lemma u32_small (z : Z) : 0 <= z < 2 ^ 32 -> BPF.u32 z = z.
Proof. unfold BPF.u32. apply Z.mod_small. Qed.

Lemma u32_succ_le (z : Z) : 0 <= z -> BPF.u32 (z + 1) <= z + 1.
Proof. intros Hz. unfold BPF.u32. apply Z.mod_le; lia. Qed.

Lemma update_ok (m : gmap Z Z) (k v : Z) :
  BPF.table_ok m -> 0 <= v < 2 ^ 32 ->
  BPF.table_ok (BPF.update max_entries m k v).
Proof.
  intros Hm Hv tid d. unfold BPF.update.
  destruct (m !! k); [|destruct (decide _)]; try apply Hm.
  all: rewrite lookup_insert; case_decide; [by intros [= <-]|apply Hm].
Qed.

Lemma update_other (m : gmap Z Z) (k v tid : Z) :
  k <> tid -> BPF.update max_entries m k v !! tid = m !! tid.
Proof.
  intros Hk. unfold BPF.update.
  destruct (m !! k); [|destruct (decide _)]; try done.
  all: by rewrite lookup_insert_ne.
Qed.

Lemma update_present (m : gmap Z Z) (k v d : Z) :
  m !! k = Some d -> BPF.update max_entries m k v !! k = Some v.
Proof.
  intros Hk. unfold BPF.update. rewrite Hk.
  by rewrite lookup_insert_eq.
Qed.

Lemma update_absent (m : gmap Z Z) (k v : Z) :
  m !! k = None ->
  BPF.update max_entries m k v !! k = Some v \/
  BPF.update max_entries m k v !! k = None.
Proof.
  intros Hk. unfold BPF.update. rewrite Hk.
  destruct (decide _); [left; by rewrite lookup_insert_eq|by right].
Qed.

Lemma fire_ok (p : BPF.probe) (m : gmap Z Z) :
  BPF.table_ok m ->
  BPF.table_ok (fst (BPF.fire max_entries p m)) /\
  0 <= snd (BPF.fire max_entries p m).
Proof.
  intros Hm. destruct p as [pt|pt]; simpl.
  - unfold BPF.trace_cuda_entry. simpl.
    destruct (m !! BPF.current_tid pt) as [d|] eqn:Hd.
    + pose proof (u32_range (d + 1)). split; [by apply update_ok|lia].
    + split; [apply update_ok; [done|lia]|lia].
  - unfold BPF.trace_cuda_exit.
    destruct (m !! BPF.current_tid pt) as [d|] eqn:Hd; [|done].
    destruct (0 <? d) eqn:Hpos; [|done]. simpl.
    apply Z.ltb_lt in Hpos.
    split; [|lia]. apply update_ok; [done|apply u32_range].
Qed.

Lemma run_probes_ok (ps : list BPF.probe) (m : gmap Z Z) :
  BPF.table_ok m -> BPF.table_ok (BPF.run_probes max_entries ps m).
Proof.
  revert m. induction ps as [|p ps IH]; intros m Hm; [done|].
  simpl. apply IH. by apply fire_ok.
Qed.

Lemma emitted_depths_nonneg (ps : list BPF.probe) (m : gmap Z Z) :
  BPF.table_ok m -> Forall (fun d => 0 <= d) (BPF.emitted_depths max_entries ps m).
Proof.
  revert m. induction ps as [|p ps IH]; intros m Hm; simpl; [done|].
  pose proof (fire_ok p m Hm) as [Hok Hd].
  destruct (BPF.fire max_entries p m) as [m' d]. apply Forall_cons_2; [done|by apply IH].
Qed.

Lemma thread_depth_nonneg (m : gmap Z Z) (tid : Z) :
  BPF.table_ok m -> 0 <= BPF.thread_depth m tid < 2 ^ 32.
Proof.
  intros Hm. unfold BPF.thread_depth.
  destruct (m !! tid) as [d|] eqn:Hd; simpl; [by apply (Hm tid)|lia].
Qed.

(** A firing on another thread does not touch the entry of [tid]. *)
Lemma fire_other_thread (p : BPF.probe) (m : gmap Z Z) (tid : Z) :
  BPF.probe_tid p <> tid -> fst (BPF.fire max_entries p m) !! tid = m !! tid.
Proof.
  intros Hp. destruct p as [pt|pt]; simpl in *.
  - by apply update_other.
  - unfold BPF.trace_cuda_exit.
    destruct (m !! BPF.current_tid pt); [|done].
    destruct (0 <? z); [|done]. by apply update_other.
Qed.

(** An entry raises the stored depth by at most one. *)
Lemma entry_depth (pt : Z) (m : gmap Z Z) :
  BPF.table_ok m ->
  BPF.thread_depth (fst (BPF.trace_cuda_entry max_entries pt m)) (BPF.current_tid pt)
  <= BPF.thread_depth m (BPF.current_tid pt) + 1.
Proof.
  intros Hm. unfold BPF.trace_cuda_entry, BPF.thread_depth. simpl.
  destruct (m !! BPF.current_tid pt) as [d|] eqn:Hd; simpl.
  - rewrite (update_present _ _ _ d Hd). simpl.
    apply u32_succ_le. by apply (Hm _ _ Hd).
  - destruct (update_absent m (BPF.current_tid pt) 1 Hd) as [-> | ->];
      simpl; lia.
Qed.

(** An exit lowers the stored depth by one, and stops at 0. *)
Lemma exit_depth (pt : Z) (m : gmap Z Z) :
  BPF.table_ok m ->
  BPF.thread_depth (fst (BPF.trace_cuda_exit max_entries pt m)) (BPF.current_tid pt)
  = Z.max 0 (BPF.thread_depth m (BPF.current_tid pt) - 1).
Proof.
  intros Hm. unfold BPF.trace_cuda_exit, BPF.thread_depth.
  destruct (m !! BPF.current_tid pt) as [d|] eqn:Hd; simpl.
  - pose proof (Hm _ _ Hd) as Hr.
    destruct (0 <? d) eqn:Hpos; simpl.
    + apply Z.ltb_lt in Hpos.
      rewrite (update_present _ _ _ d Hd). simpl.
      rewrite u32_small by lia. lia.
    + apply Z.ltb_ge in Hpos. rewrite Hd. simpl. lia.
  - rewrite Hd. simpl. lia.
Qed.

(** The stored depth never exceeds the true nesting level. *)
Lemma depth_below_nesting (tid : Z) (ps : list BPF.probe) (m : gmap Z Z)
    (d d' : nat) :
  BPF.table_ok m ->
  BPF.thread_depth m tid <= Z.of_nat d ->
  BPF.nesting tid ps d = Some d' ->
  BPF.thread_depth (BPF.run_probes max_entries ps m) tid <= Z.of_nat d'.
Proof.
  revert m d. induction ps as [|p ps IH]; intros m d Hm Hd Hn.
  { simpl in *. injection Hn as <-. done. }
  pose proof (fire_ok p m Hm) as [Hok _].
  simpl in Hn.
  change (BPF.run_probes max_entries (p :: ps) m)
    with (BPF.run_probes max_entries ps (fst (BPF.fire max_entries p m))).
  destruct (decide (BPF.probe_tid p = tid)) as [Hp|Hp].
  - destruct p as [pt|pt]; simpl in Hp; subst tid.
    + apply (IH _ (S d)); [done| |done].
      pose proof (entry_depth pt m Hm) as He.
      change (fst (BPF.fire max_entries (BPF.Entry pt) m))
        with (fst (BPF.trace_cuda_entry max_entries pt m)). lia.
    + destruct d as [|d0]; [done|].
      apply (IH _ d0); [done| |done].
      change (fst (BPF.fire max_entries (BPF.Exit pt) m))
        with (fst (BPF.trace_cuda_exit max_entries pt m)).
      rewrite (exit_depth pt m Hm). lia.
  - apply (IH _ d); [done| |done].
    unfold BPF.thread_depth. by rewrite fire_other_thread.
Qed.

Lemma nesting_entries_exits (pt : Z) (n : nat) (d : nat) :
  BPF.nesting (BPF.current_tid pt)
    (replicate n (BPF.Entry pt) ++ replicate n (BPF.Exit pt)) d = Some d.
Proof.
  revert d. induction n as [|n IHn]; intros d; simpl; [done|].
  rewrite decide_True by done.
  replace (replicate n (BPF.Entry pt) ++ BPF.Exit pt :: replicate n (BPF.Exit pt))
    with ((replicate n (BPF.Entry pt) ++ replicate n (BPF.Exit pt)) ++ [BPF.Exit pt]).
  2:{ rewrite <- app_assoc. f_equal.
      change (BPF.Exit pt :: replicate n (BPF.Exit pt))
        with (replicate (S n) (BPF.Exit pt)).
      by rewrite replicate_S_end. }
  assert (Happ : forall ps1 ps2 a b c,
    BPF.nesting (BPF.current_tid pt) ps1 a = Some b ->
    BPF.nesting (BPF.current_tid pt) ps2 b = c ->
    BPF.nesting (BPF.current_tid pt) (ps1 ++ ps2) a = c).
  { induction ps1 as [|p ps1 IH1]; intros ps2 a b c H1 H2; simpl in *.
    { by injection H1 as ->. }
    destruct (decide _); [|by eapply IH1].
    destruct p; [by eapply IH1|]. destruct a; [done|by eapply IH1]. }
  apply (Happ _ _ _ (S d)); [apply IHn|].
  simpl. by rewrite decide_True.
Qed.
End CallDepth.

(** C5. Whatever the capacity of the table and whatever sequence of entry
    and exit probes fires, on any threads, from a table of [u32] values:
    every stored depth and every emitted [event.depth] is non-negative; an
    exit fired on a thread whose depth is 0 (its entry was missed) leaves
    that depth at 0; if the firings of a thread are well nested its depth
    is back to 0 at the end; in particular [n] entries followed by [n]
    exits on a thread return its depth to 0. *)
Theorem C5_call_depth_never_negative :
  forall (max_entries : nat) (call_depth : gmap Z Z),
    BPF.table_ok call_depth ->
    (forall (ps : list BPF.probe) (tid : Z),
        0 <= BPF.thread_depth (BPF.run_probes max_entries ps call_depth) tid /\
        Forall (fun d => 0 <= d) (BPF.emitted_depths max_entries ps call_depth)) /\
    (forall pid_tgid : Z,
        BPF.thread_depth call_depth (BPF.current_tid pid_tgid) = 0 ->
        BPF.thread_depth (fst (BPF.trace_cuda_exit max_entries pid_tgid call_depth))
                         (BPF.current_tid pid_tgid) = 0) /\
    (forall (ps : list BPF.probe) (tid : Z),
        BPF.thread_depth call_depth tid = 0 ->
        BPF.nesting tid ps 0 = Some 0%nat ->
        BPF.thread_depth (BPF.run_probes max_entries ps call_depth) tid = 0) /\
    (forall (n : nat) (pid_tgid : Z),
        BPF.thread_depth call_depth (BPF.current_tid pid_tgid) = 0 ->
        BPF.thread_depth
          (BPF.run_probes max_entries
             (replicate n (BPF.Entry pid_tgid) ++ replicate n (BPF.Exit pid_tgid))
             call_depth)
          (BPF.current_tid pid_tgid) = 0).
Proof.
  intros max_entries m Hm.
  assert (Hnested : forall ps tid,
    BPF.thread_depth m tid = 0 ->
    BPF.nesting tid ps 0 = Some 0%nat ->
    BPF.thread_depth (BPF.run_probes max_entries ps m) tid = 0).
  { intros ps tid H0 Hn.
    pose proof (depth_below_nesting max_entries tid ps m 0 0 Hm) as Hle.
    pose proof (thread_depth_nonneg (BPF.run_probes max_entries ps m) tid
                  (run_probes_ok max_entries ps m Hm)).
    specialize (Hle ltac:(lia) Hn). simpl in Hle. lia. }
  split; [|split; [|split]].
  - intros ps tid. split.
    + by apply thread_depth_nonneg, run_probes_ok.
    + by apply emitted_depths_nonneg.
  - intros pt H0. rewrite exit_depth by done. lia.
  - exact Hnested.
  - intros n pt H0. apply Hnested; [done|]. apply nesting_entries_exits.
Qed.

Lemma C5_call_depth_witness :
  (forall (ps : list BPF.probe) (tid : Z),
      0 <= BPF.thread_depth (BPF.run_probes 4 ps ∅) tid /\
      Forall (fun d => 0 <= d) (BPF.emitted_depths 4 ps ∅)) /\
  BPF.thread_depth (fst (BPF.trace_cuda_exit 4 7 ∅)) (BPF.current_tid 7) = 0 /\
  BPF.thread_depth
    (BPF.run_probes 4
       [BPF.Entry 7; BPF.Entry 9; BPF.Entry 7; BPF.Exit 7; BPF.Exit 9; BPF.Exit 7] ∅)
    7 = 0 /\
  BPF.thread_depth
    (BPF.run_probes 4 (replicate 3 (BPF.Entry 7) ++ replicate 3 (BPF.Exit 7)) ∅)
    (BPF.current_tid 7) = 0.
Proof.
  assert (Hempty : BPF.table_ok ∅) by (intros tid d H; discriminate H).
  destruct (C5_call_depth_never_negative 4 ∅ Hempty)
    as (Hnonneg & Hexit & Hnested & Hpairs).
  split; [exact Hnonneg|]. split; [exact (Hexit 7 eq_refl)|].
  split; [|exact (Hpairs 3%nat 7 eq_refl)].
  exact (Hnested
           [BPF.Entry 7; BPF.Entry 9; BPF.Entry 7; BPF.Exit 7; BPF.Exit 9; BPF.Exit 7]
           7 eq_refl eq_refl).
Defined.

(** ** C6: the trace-viewer export *)

Lemma chrome_fold (ops : list Operation) (acc : list json) :
  fold_left chrome_append ops acc =
    acc ++ flat_map (fun op => [chrome_entry op "B" (op_start op);
                                chrome_entry op "E" (op_end op)]) ops.
Proof.
  revert acc. induction ops as [|op ops IH]; intros acc; simpl.
  { by rewrite app_nil_r. }
  rewrite IH. unfold chrome_append. by rewrite <- !app_assoc.
Qed.

Lemma chrome_pairs_lookup (ops : list Operation) (i : nat) (op : Operation) :
  ops !! i = Some op ->
  flat_map (fun op => [chrome_entry op "B" (op_start op);
                       chrome_entry op "E" (op_end op)]) ops !! (2 * i)%nat
    = Some (chrome_entry op "B" (op_start op)) /\
  flat_map (fun op => [chrome_entry op "B" (op_start op);
                       chrome_entry op "E" (op_end op)]) ops !! (2 * i + 1)%nat
    = Some (chrome_entry op "E" (op_end op)).
Proof.
  revert i. induction ops as [|o ops IH]; intros i Hi; [done|].
  destruct i as [|i]; simpl in Hi.
  { injection Hi as ->. by split. }
  replace (2 * S i)%nat with (S (S (2 * i))) by lia.
  replace (S (S (2 * i)) + 1)%nat with (S (S (2 * i + 1))) by lia.
  simpl. by apply IH.
Qed.

Lemma chrome_pairs_length (ops : list Operation) :
  length (flat_map (fun op => [chrome_entry op "B" (op_start op);
                               chrome_entry op "E" (op_end op)]) ops)
  = (2 * length ops)%nat.
Proof. induction ops as [|o ops IH]; simpl; [done|]. rewrite IH. lia. Qed.

(** C6. The document written by the trace-viewer export is the envelope
    [{"traceEvents": [...]}] whose array has exactly two entries per
    operation of the timeline, in timeline order: for the operation at
    index [i], entry [2i] has [ph = "B"] and [ts = start * 1000000], entry
    [2i+1] has [ph = "E"] and [ts = end * 1000000], both with the
    operation's name, its category, [pid = 1] and [tid = 1]. *)
Theorem C6_chrome_trace_two_entries_per_operation :
  forall self : PipelineAnalyzer,
    exists trace_events : list json,
      generate_chrome_trace self = JObj [("traceEvents", JArr trace_events)] /\
      length trace_events = (2 * length (timeline self))%nat /\
      (forall (i : nat) (op : Operation),
          timeline self !! i = Some op ->
          trace_events !! (2 * i)%nat =
            Some (JObj [ ("name", JStr (op_name op));
                         ("cat", JStr (categorize (op_name op)));
                         ("ph", JStr "B");
                         ("ts", JFloat (PrimFloat.mul (op_start op) 1000000%float));
                         ("pid", JInt 1); ("tid", JInt 1) ]) /\
          trace_events !! (2 * i + 1)%nat =
            Some (JObj [ ("name", JStr (op_name op));
                         ("cat", JStr (categorize (op_name op)));
                         ("ph", JStr "E");
                         ("ts", JFloat (PrimFloat.mul (op_end op) 1000000%float));
                         ("pid", JInt 1); ("tid", JInt 1) ])).
Proof.
  intros self. exists (chrome_trace_events self).
  split; [reflexivity|].
  unfold chrome_trace_events. rewrite chrome_fold. simpl.
  split; [apply chrome_pairs_length|].
  intros i op Hi. by apply chrome_pairs_lookup.
Qed.

Lemma C6_chrome_trace_witness :
  exists trace_events : list json,
    generate_chrome_trace (match_events two_line_analyzer)
      = JObj [("traceEvents", JArr trace_events)] /\
    length trace_events = 2%nat /\
    trace_events !! 0%nat =
      Some (JObj [ ("name", JStr "unknown"); ("cat", JStr "other");
                   ("ph", JStr "B"); ("ts", JFloat 0%float);
                   ("pid", JInt 1); ("tid", JInt 1) ]) /\
    trace_events !! 1%nat =
      Some (JObj [ ("name", JStr "unknown"); ("cat", JStr "other");
                   ("ph", JStr "E"); ("ts", JFloat 500000%float);
                   ("pid", JInt 1); ("tid", JInt 1) ]).
Proof.
  destruct (C6_chrome_trace_two_entries_per_operation
              (match_events two_line_analyzer)) as (tev & Hdoc & Hlen & Hent).
  exists tev. split; [exact Hdoc|]. split; [exact Hlen|].
  exact (Hent 0%nat _ eq_refl).
Defined.

(** ** C9: locating the library *)

Lemma scan_ldconfig_none (lines : list string) :
  scan_ldconfig lines = None <->
  Forall (fun line =>
            contains "libcuda.so" line = true ->
            (length (str_split "=>" line) <= 1)%nat) lines.
Proof.
  induction lines as [|line lines IH]; simpl.
  { split; [by constructor|done]. }
  rewrite Forall_cons, <- IH.
  destruct (contains "libcuda.so" line).
  - destruct (str_split "=>" line) as [|p0 [|p1 ps]]; simpl.
    + split; [intros H; split; [intros _; lia|done]|by intros [_ H]].
    + split; [intros H; split; [intros _; lia|done]|by intros [_ H]].
    + split; [done|]. intros [H _]. specialize (H eq_refl). lia.
  - split; [by intros H|by intros [_ H]].
Qed.

Lemma find_known_path (h : Host) :
  find (path_exists h) possible_paths = None <->
  Forall (fun p => path_exists h p = false) possible_paths.
Proof.
  induction possible_paths as [|p ps IH]; simpl.
  { split; [by constructor|done]. }
  rewrite Forall_cons, <- IH.
  destruct (path_exists h p); [split; [done|by intros [? _]]|].
  split; [done|by intros [_ ?]].
Qed.

Lemma run_no_tracing_on_failure (banner : list string) (h : Host) (e : PyExc) :
  find_libcuda_path h = Raise e ->
  run banner h = (map Print banner, Some e) /\
  Forall (fun s => starts_tracing s = false) (fst (run banner h)).
Proof.
  intros He. unfold run. rewrite He. split; [done|]. simpl.
  apply Forall_forall. intros s Hs.
  apply list_elem_of_fmap in Hs as (line & -> & _). done.
Qed.

(** C9. [find_libcuda_path] raises its not-found exception
    ([RuntimeError "Could not find libcuda.so"], the specification's
    [LibraryNotFoundError]) exactly when none of the four known paths
    exists and the [ldconfig -p] fallback yields nothing, that is when
    [ldconfig] could not be run or no line of its output that mentions
    ["libcuda.so"] has a ["=>"] target.  If a known path exists the first
    such path is returned, otherwise a target found by the fallback is
    returned, and no exception is raised.  When the exception is raised it
    leaves [run] before the BPF program is loaded: [run] has only printed
    its banner, and no probe is attached and no polling starts. *)
Theorem C9_library_not_found_is_fatal :
  forall h : Host,
    (find_libcuda_path h = Raise could_not_find <->
     Forall (fun p => path_exists h p = false) possible_paths /\
     ldconfig_lookup h = None) /\
    (ldconfig_lookup h = None <->
     ldconfig_stdout h = None \/
     exists out, ldconfig_stdout h = Some out /\
       Forall (fun line =>
                 contains "libcuda.so" line = true ->
                 (length (str_split "=>" line) <= 1)%nat)
              (str_split newline out)) /\
    (forall e, find_libcuda_path h = Raise e -> e = could_not_find) /\
    (forall p, find (path_exists h) possible_paths = Some p ->
               find_libcuda_path h = Ok p) /\
    (forall p, Forall (fun p => path_exists h p = false) possible_paths ->
               ldconfig_lookup h = Some p ->
               find_libcuda_path h = Ok p) /\
    (forall banner e,
        find_libcuda_path h = Raise e ->
        run banner h = (map Print banner, Some e) /\
        Forall (fun s => starts_tracing s = false) (fst (run banner h))).
Proof.
  intros h. repeat split.
  - unfold find_libcuda_path in H.
    destruct (find (path_exists h) possible_paths) eqn:Hf; [done|].
    by apply find_known_path.
  - unfold find_libcuda_path in H.
    destruct (find (path_exists h) possible_paths); [done|].
    by destruct (ldconfig_lookup h).
  - intros [Hp Hl]. apply find_known_path in Hp.
    unfold find_libcuda_path. by rewrite Hp, Hl.
  - unfold ldconfig_lookup. destruct (ldconfig_stdout h) as [out|]; [|by left].
    intros Hs. right. exists out. split; [done|]. by apply scan_ldconfig_none.
  - unfold ldconfig_lookup. intros [->|(out & -> & Hs)]; [done|].
    by apply scan_ldconfig_none.
  - intros e. unfold find_libcuda_path.
    destruct (find (path_exists h) possible_paths); [done|].
    destruct (ldconfig_lookup h); [done|]. by intros [= <-].
  - intros p Hp. unfold find_libcuda_path. by rewrite Hp.
  - intros p Hp Hl. apply find_known_path in Hp.
    unfold find_libcuda_path. by rewrite Hp, Hl.
  - by apply run_no_tracing_on_failure.
  - by apply (run_no_tracing_on_failure banner h e).
Qed.

Lemma C9_library_not_found_witness :
  find_libcuda_path host_without_cuda = Raise could_not_find /\
  run ["=== CUDA eBPF Tracer ==="] host_without_cuda
    = ([Print "=== CUDA eBPF Tracer ==="], Some could_not_find) /\
  find_libcuda_path host_with_lib64 = Ok "/usr/lib64/libcuda.so.1" /\
  find_libcuda_path host_with_cache = Ok "/opt/nvidia/libcuda.so.1".
Proof.
  destruct (C9_library_not_found_is_fatal host_without_cuda)
    as (Hraise & _ & _ & _ & _ & Hrun).
  destruct (C9_library_not_found_is_fatal host_with_lib64)
    as (_ & _ & _ & Hknown & _).
  destruct (C9_library_not_found_is_fatal host_with_cache)
    as (_ & _ & _ & _ & Hcache & _).
  assert (Hnone : find_libcuda_path host_without_cuda = Raise could_not_find).
  { apply Hraise. split; [|reflexivity].
    repeat (apply Forall_cons_2; [reflexivity|]). apply Forall_nil_2. }
  split; [exact Hnone|]. split; [exact (proj1 (Hrun _ _ Hnone))|].
  split; [exact (Hknown _ eq_refl)|].
  apply Hcache; [|reflexivity].
  repeat (apply Forall_cons_2; [reflexivity|]). apply Forall_nil_2.
Defined.

(** ** C8: the ASCII timeline *)

Lemma elem_of_seqZ_filter (len m n i : Z) :
  i ∈ filter (fun i => i < len) (seqZ m n) <-> m <= i < m + n /\ i < len.
Proof. rewrite list_elem_of_filter, elem_of_seqZ. tauto. Qed.

(** An operation whose start column lies inside the lane, and whose end is
    not before its start, gets at least its start column. *)
Lemma fill_columns_start (start_pos end_pos : Z) :
  0 <= start_pos < timeline_width ->
  start_pos <= end_pos ->
  start_pos ∈ fill_columns timeline_width
    (start_pos, if start_pos =? end_pos then start_pos + 1 else end_pos).
Proof.
  intros Hs He. unfold fill_columns. apply elem_of_seqZ_filter. simpl.
  destruct (start_pos =? end_pos) eqn:Heq.
  - lia.
  - apply Z.eqb_neq in Heq. lia.
Qed.

(** An operation whose start column is the lane width gets no column,
    whatever its end column: the widening to one column is clipped away by
    [min(end_pos, timeline_width)]. *)
Lemma fill_columns_at_width (end_pos : Z) :
  fill_columns timeline_width (timeline_width, end_pos) = [].
Proof.
  unfold fill_columns. simpl.
  replace (seqZ timeline_width (Z.min end_pos timeline_width - timeline_width))
    with (@nil Z); [done|].
  unfold seqZ. replace (Z.to_nat _) with 0%nat by (unfold timeline_width; lia).
  done.
Qed.

(** C8, at the failing input.  For the four-line log [late_log], whose
    total duration is 1.0 s, the timeline holds the allocation and the
    instantaneous kernel launch that starts at the end of the time range.
    The launch maps to [start_pos = 80], its widened [end_pos = 81] is
    clipped to 80, and the fill loop assigns no column: the printed lane
    holds 40 allocation symbols and 40 blanks, and the launch symbol does
    not occur in it. *)
Theorem C8_operation_at_range_end_not_painted :
  timeline late_analyzer = [late_alloc; late_launch] /\
  op_positions 0%float 1%float late_launch = Ok (80, 81) /\
  op_columns 0%float 1%float late_launch = Ok [] /\
  op_symbol late_launch = "●" /\
  print_ascii_timeline late_analyzer
    = Ok [(0, replicate 40 "█" ++ replicate 40 " ")] /\
  "●" ∉ replicate 40 "█" ++ replicate 40 " ".
Proof.
  repeat split; try (vm_compute; reflexivity).
  intros Hin. apply elem_of_app in Hin as [Hin|Hin];
    apply elem_of_replicate in Hin as [Hin _]; discriminate Hin.
Qed.

(** ** The order of finite binary64 floats *)

Lemma digits2_pos_size (p : positive) : digits2_pos p = Pos.size p.
Proof. induction p as [p IH|p IH|]; simpl; by rewrite ?IH. Qed.

Lemma digits2_pos_bounds (p : positive) :
  2 ^ (Z.pos (digits2_pos p) - 1) <= Z.pos p < 2 ^ Z.pos (digits2_pos p).
Proof.
  rewrite digits2_pos_size. split.
  - pose proof (Pos.size_le p) as Hle.
    assert (H2 : 2 ^ Z.pos (Pos.size p) <= 2 * Z.pos p).
    { change 2 with (Z.pos 2) at 1. rewrite <- Pos2Z.inj_pow.
      change (2 * Z.pos p) with (Z.pos p~0). by apply Pos2Z.pos_le_pos. }
    replace (Z.pos (Pos.size p)) with (Z.pos (Pos.size p) - 1 + 1) in H2 by lia.
    rewrite Z.pow_add_r in H2 by lia. lia.
  - pose proof (Pos.size_gt p) as Hgt.
    change 2 with (Z.pos 2). rewrite <- Pos2Z.inj_pow.
    by apply Pos2Z.pos_lt_pos.
Qed.

(** What validity says of a finite binary64 float [m * 2 ^ e]. *)
Lemma bounded_inv (m : positive) (e : Z) :
  bounded prec emax m e = true ->
  -1074 <= e /\ Z.pos m < 2 ^ 53 /\ (-1074 < e -> 2 ^ 52 <= Z.pos m).
Proof.
  unfold bounded, canonical_mantissa, fexp, emin, prec, emax.
  intros [Hc _]%andb_prop. apply Z.eqb_eq in Hc.
  pose proof (digits2_pos_bounds m) as [Hlo Hhi].
  assert (Hd : Z.pos (digits2_pos m) <= 53) by lia.
  repeat split.
  - lia.
  - eapply Z.lt_le_trans; [exact Hhi|]. apply Z.pow_le_mono_r; lia.
  - intros He. replace (Z.pos (digits2_pos m)) with 53 in Hlo by lia. exact Hlo.
Qed.

(** With a larger exponent comes a larger magnitude. *)
Lemma magnitude_lt (m1 m2 : positive) (e1 e2 : Z) :
  bounded prec emax m1 e1 = true ->
  bounded prec emax m2 e2 = true ->
  e1 < e2 ->
  Z.pos m1 * 2 ^ (e1 + 1074) < Z.pos m2 * 2 ^ (e2 + 1074).
Proof.
  intros (He1 & Hm1 & _)%bounded_inv (He2 & _ & Hm2)%bounded_inv Hlt.
  specialize (Hm2 ltac:(lia)).
  assert (Hp1 : 0 < 2 ^ (e1 + 1074)) by (apply Z.pow_pos_nonneg; lia).
  assert (Hstep : 2 * 2 ^ (e1 + 1074) <= 2 ^ (e2 + 1074)).
  { replace (2 * 2 ^ (e1 + 1074)) with (2 ^ (e1 + 1074 + 1))
      by (rewrite Z.pow_add_r by lia; lia).
    apply Z.pow_le_mono_r; lia. }
  change (2 ^ 53) with (2 * 2 ^ 52) in Hm1. nia.
Qed.

Lemma magnitude_pos (m : positive) (e : Z) :
  bounded prec emax m e = true -> 0 < Z.pos m * 2 ^ (e + 1074).
Proof.
  intros (He & _ & _)%bounded_inv.
  apply Z.mul_pos_pos; [lia|]. apply Z.pow_pos_nonneg; lia.
Qed.

Lemma magnitude_mono (m1 m2 : positive) (e : Z) :
  bounded prec emax m1 e = true ->
  (Z.pos m1 * 2 ^ (e + 1074) ?= Z.pos m2 * 2 ^ (e + 1074)) = (m1 ?= m2)%positive.
Proof.
  intros (He & _ & _)%bounded_inv.
  assert (Hp : 0 < 2 ^ (e + 1074)) by (apply Z.pow_pos_nonneg; lia).
  rewrite Pos2Z.inj_compare.
  destruct (Z.compare_spec (Z.pos m1) (Z.pos m2)) as [H|H|H].
  - apply Z.compare_eq_iff. by rewrite H.
  - apply Z.compare_lt_iff. by apply Z.mul_lt_mono_pos_r.
  - apply Z.compare_gt_iff. by apply Z.mul_lt_mono_pos_r.
Qed.

Lemma sf_compare_value (x y : spec_float) :
  valid_binary x = true -> valid_binary y = true ->
  sf_finite x = true -> sf_finite y = true ->
  SFcompare x y = Some (sf_value x ?= sf_value y).
Proof.
  unfold valid_binary.
  destruct x as [sx|sx| |sx mx ex], y as [sy|sy| |sy my ey]; try done;
    intros Hx Hy _ _;
    cbn [SFcompare sf_value SpecFloat.valid_binary cond_Zopp] in *; f_equal.
  - pose proof (magnitude_pos my ey Hy).
    destruct sy; cbn [cond_Zopp]; symmetry;
      [apply Z.compare_gt_iff|apply Z.compare_lt_iff]; lia.
  - pose proof (magnitude_pos mx ex Hx).
    destruct sx; cbn [cond_Zopp]; symmetry;
      [apply Z.compare_lt_iff|apply Z.compare_gt_iff]; lia.
  - pose proof (magnitude_pos mx ex Hx). pose proof (magnitude_pos my ey Hy).
    destruct sx, sy; cbn [cond_Zopp].
    + rewrite Z.compare_opp.
      destruct (Z.compare_spec ex ey) as [->|Hlt|Hgt].
      * change (Pos.compare_cont Eq mx my) with (mx ?= my)%positive.
        rewrite (magnitude_mono my mx ey Hy). symmetry. apply Pos.compare_antisym.
      * symmetry. apply Z.compare_gt_iff.
        pose proof (magnitude_lt mx my ex ey Hx Hy Hlt). lia.
      * symmetry. apply Z.compare_lt_iff.
        pose proof (magnitude_lt my mx ey ex Hy Hx ltac:(lia)). lia.
    + symmetry. apply Z.compare_lt_iff. lia.
    + symmetry. apply Z.compare_gt_iff. lia.
    + destruct (Z.compare_spec ex ey) as [->|Hlt|Hgt].
      * change (Pos.compare_cont Eq mx my) with (mx ?= my)%positive.
        by rewrite (magnitude_mono mx my ey Hx).
      * symmetry. apply Z.compare_lt_iff.
        pose proof (magnitude_lt mx my ex ey Hx Hy Hlt). lia.
      * symmetry. apply Z.compare_gt_iff.
        pose proof (magnitude_lt my mx ey ex Hy Hx ltac:(lia)). lia.
Qed.

Lemma ltb_value (x y : float) :
  PyFloat.is_finite x = true -> PyFloat.is_finite y = true ->
  PrimFloat.ltb x y = true <-> float_value x < float_value y.
Proof.
  intros Hx Hy. rewrite ltb_spec. unfold SFltb.
  rewrite (sf_compare_value _ _ (Prim2SF_valid x) (Prim2SF_valid y) Hx Hy).
  fold (float_value x) (float_value y). rewrite <- Z.compare_lt_iff.
  by destruct (float_value x ?= float_value y).
Qed.

Lemma ltb_false_value (x y : float) :
  PyFloat.is_finite x = true -> PyFloat.is_finite y = true ->
  PrimFloat.ltb x y = false <-> float_value y <= float_value x.
Proof.
  intros Hx Hy. pose proof (ltb_value x y Hx Hy) as [Hlt1 Hlt2].
  destruct (PrimFloat.ltb x y).
  - split; [done|]. intros Hle. specialize (Hlt1 eq_refl). lia.
  - split; [|done]. intros _.
    destruct (Z.le_gt_cases (float_value y) (float_value x)) as [?|Hgt]; [done|].
    by specialize (Hlt2 Hgt).
Qed.

Section SortedByValue.
Context {A : Type} (key : A -> float).

Lemma insert_sorted_Forall (P : A -> Prop) (x : A) (l : list A) :
  P x -> Forall P l -> Forall P (insert_sorted key x l).
Proof. intros Hx Hl. rewrite insert_sorted_perm. by apply Forall_cons_2. Qed.

Lemma insert_sorted_value_sorted (x : A) (l : list A) :
  PyFloat.is_finite (key x) = true ->
  Forall (fun y => PyFloat.is_finite (key y) = true) l ->
  value_sorted key l ->
  value_sorted key (insert_sorted key x l).
Proof.
  intros Hx. induction l as [|y l IH]; intros Hfin Hs; simpl.
  { split; [apply Forall_nil_2|done]. }
  apply Forall_cons_1 in Hfin as [Hy Hfin]. destruct Hs as [Hyl Hs].
  destruct (PrimFloat.ltb (key y) (key x)) eqn:Hlt; simpl.
  - apply (ltb_value _ _ Hy Hx) in Hlt. split; [|by apply IH].
    apply insert_sorted_Forall; [lia|done].
  - apply (ltb_false_value _ _ Hy Hx) in Hlt. split; [|done].
    apply Forall_cons_2; [done|].
    eapply Forall_impl; [exact Hyl|]. simpl. intros z Hz. lia.
Qed.

Lemma sorted_value_sorted (l : list A) :
  Forall (fun y => PyFloat.is_finite (key y) = true) l ->
  value_sorted key (sorted key l).
Proof.
  induction l as [|x l IH]; intros Hfin; simpl; [done|].
  apply Forall_cons_1 in Hfin as [Hx Hfin].
  apply insert_sorted_value_sorted; [done| |by apply IH].
  by rewrite sorted_perm.
Qed.

Lemma value_sorted_before (pre post : list A) (x : A) :
  value_sorted key (pre ++ x :: post) ->
  Forall (fun y => float_value (key y) <= float_value (key x)) pre.
Proof.
  induction pre as [|y pre IH]; simpl; [by constructor|].
  intros [Hy Hs]. apply Forall_cons_2; [|by apply IH].
  apply Forall_app in Hy as [_ Hy]. by apply Forall_cons_1 in Hy as [? _].
Qed.

End SortedByValue.

(** *** Rounding a non-negative mantissa never yields NaN *)

Lemma shr_1_nonneg (mrs : shr_record) : 0 <= shr_m mrs -> 0 <= shr_m (shr_1 mrs).
Proof.
  destruct mrs as [m r s]. simpl.
  destruct m as [|[p|p|]|p]; simpl; intros H; lia.
Qed.

Lemma iter_shr_1_nonneg (p : positive) (mrs : shr_record) :
  0 <= shr_m mrs -> 0 <= shr_m (SpecFloat.iter_pos shr_1 p mrs).
Proof.
  revert mrs. induction p as [p IH|p IH|]; intros mrs H; simpl.
  - by apply IH, IH, shr_1_nonneg.
  - by apply IH, IH.
  - by apply shr_1_nonneg.
Qed.

Lemma shr_fexp_nonneg (m e : Z) (l : location) :
  0 <= m -> 0 <= shr_m (fst (shr_fexp prec emax m e l)).
Proof.
  intros Hm. unfold shr_fexp, shr.
  assert (H0 : 0 <= shr_m (shr_record_of_loc m l)).
  { by destruct l as [|[]]. }
  destruct (fexp prec emax (Zdigits2 m + e) - e); simpl; try done.
  by apply iter_shr_1_nonneg.
Qed.

Lemma round_nearest_even_nonneg (m : Z) (l : location) :
  0 <= m -> 0 <= round_nearest_even m l.
Proof.
  intros Hm. destruct l as [|[]]; simpl; try lia.
  destruct (Z.even m); lia.
Qed.

(** Rounding a non-negative mantissa gives a zero, a finite float or an
    infinity of the requested sign. *)
Lemma binary_round_aux_nonneg (sx : bool) (mx ex : Z) (lx : location) :
  0 <= mx ->
  match binary_round_aux prec emax sx mx ex lx with
  | S754_zero s | S754_infinity s | S754_finite s _ _ => s = sx
  | S754_nan => False
  end.
Proof.
  intros Hm. unfold binary_round_aux.
  pose proof (shr_fexp_nonneg mx ex lx Hm) as H1.
  destruct (shr_fexp prec emax mx ex lx) as [mrs' e']. simpl in H1.
  pose proof (shr_fexp_nonneg
                (round_nearest_even (shr_m mrs') (loc_of_shr_record mrs')) e'
                loc_Exact (round_nearest_even_nonneg _ _ H1)) as H2.
  destruct (shr_fexp prec emax _ e' loc_Exact) as [mrs'' e'']. simpl in H2.
  destruct (shr_m mrs''); [done| |lia].
  by destruct (Z.leb e'' (emax - prec)).
Qed.

(** *** The sign of a difference *)

Lemma iter_xO_value (m d : positive) :
  Z.pos (Pos.iter xO m d) = Z.pos m * 2 ^ Z.pos d.
Proof.
  induction d as [|d IH] using Pos.peano_ind.
  { simpl. lia. }
  rewrite Pos.iter_succ, Pos2Z.inj_succ, Z.pow_succ_r by lia.
  rewrite Pos2Z.inj_xO, IH. lia.
Qed.

Lemma shl_align_value (m : positive) (e e' : Z) :
  e' <= e ->
  Z.pos (fst (shl_align m e e')) = Z.pos m * 2 ^ (e - e').
Proof.
  intros He. unfold shl_align.
  destruct (e' - e) as [|d|d] eqn:Hd; simpl.
  - replace (e - e') with 0 by lia. lia.
  - lia.
  - rewrite iter_xO_value. f_equal. f_equal. lia.
Qed.

(** The difference of two finite floats, the first one not below the
    second, is not below zero. *)
Lemma sub_nonneg (x y : float) :
  PyFloat.is_finite x = true -> PyFloat.is_finite y = true ->
  float_value y <= float_value x ->
  PrimFloat.leb 0%float (PrimFloat.sub x y) = true.
Proof.
  intros Hx Hy Hle. rewrite leb_spec, sub_spec.
  change (Prim2SF 0%float) with (S754_zero false).
  unfold float_value in Hle. unfold PyFloat.is_finite in Hx, Hy.
  pose proof (Prim2SF_valid x) as Vx. pose proof (Prim2SF_valid y) as Vy.
  unfold valid_binary in Vx, Vy.
  destruct (Prim2SF x) as [sx|sx| |sx mx ex], (Prim2SF y) as [sy|sy| |sy my ey];
    try done; cbn [sf_value SpecFloat.valid_binary] in *.
  - by destruct sx, sy.
  - pose proof (magnitude_pos my ey Vy). destruct sy; cbn [cond_Zopp] in Hle.
    + done.
    + lia.
  - pose proof (magnitude_pos mx ex Vx). destruct sx; cbn [cond_Zopp] in Hle.
    + lia.
    + done.
  - unfold SF64sub. cbn [SFsub].
    pose proof (bounded_inv mx ex Vx) as (Hex & _ & _).
    pose proof (bounded_inv my ey Vy) as (Hey & _ & _).
    set (ez := Z.min ex ey).
    set (D := cond_Zopp sx (Z.pos (fst (shl_align mx ex ez)))
              - cond_Zopp sy (Z.pos (fst (shl_align my ey ez)))).
    assert (HD : 0 <= D).
    { assert (Hp : 0 < 2 ^ (ez + 1074)) by (apply Z.pow_pos_nonneg; lia).
      assert (Hvx : cond_Zopp sx (Z.pos (fst (shl_align mx ex ez))) * 2 ^ (ez + 1074)
                    = cond_Zopp sx (Z.pos mx * 2 ^ (ex + 1074))).
      { rewrite shl_align_value by lia.
        replace (ex + 1074) with ((ex - ez) + (ez + 1074)) by lia.
        rewrite (Z.pow_add_r 2 (ex - ez)) by lia.
        destruct sx; cbn [cond_Zopp]; lia. }
      assert (Hvy : cond_Zopp sy (Z.pos (fst (shl_align my ey ez))) * 2 ^ (ez + 1074)
                    = cond_Zopp sy (Z.pos my * 2 ^ (ey + 1074))).
      { rewrite shl_align_value by lia.
        replace (ey + 1074) with ((ey - ez) + (ez + 1074)) by lia.
        rewrite (Z.pow_add_r 2 (ey - ez)) by lia.
        destruct sy; cbn [cond_Zopp]; lia. }
      assert (0 <= D * 2 ^ (ez + 1074)).
      { unfold D. rewrite Z.mul_sub_distr_r, Hvx, Hvy. lia. }
      nia. }
    unfold binary_normalize.
    destruct D as [|d|d]; [done| |lia].
    unfold binary_round.
    destruct (shl_align d ez _) as [mz e0].
    pose proof (binary_round_aux_nonneg false (Z.pos mz) e0 loc_Exact ltac:(lia))
      as Hr.
    by destruct (binary_round_aux prec emax false (Z.pos mz) e0 loc_Exact) as [[]|[]| |[] ? ?].
Qed.

(** *** Durations computed by [match_events] are not negative *)

Lemma match_scan_durations (seen rest : list CUDATraceEvent) (s : MatchState) :
  Forall (fun x => PyFloat.is_finite (ev_ts x) = true) (seen ++ rest) ->
  value_sorted ev_ts (seen ++ rest) ->
  (forall k b, stack s !! k = Some b -> b ∈ seen) ->
  Forall (fun op => PrimFloat.leb 0%float (op_duration op) = true) (ms_timeline s) ->
  Forall (fun op => PrimFloat.leb 0%float (op_duration op) = true)
         (ms_timeline (match_scan rest s)).
Proof.
  revert seen s. induction rest as [|x rest IH]; intros seen s Hfin Hsort Hst Htl.
  { done. }
  rewrite match_scan_cons.
  assert (Hsplit : seen ++ x :: rest = (seen ++ [x]) ++ rest)
    by (by rewrite <- app_assoc).
  apply (IH (seen ++ [x])).
  - by rewrite <- Hsplit.
  - by rewrite <- Hsplit.
  - intros k b. unfold match_event.
    destruct (String.eqb (ev_phase x) "B"); simpl.
    { rewrite lookup_insert. case_decide.
      - intros [= <-]. apply elem_of_app. right. apply list_elem_of_here.
      - intros Hb. apply elem_of_app. left. by eapply Hst. }
    destruct (String.eqb (ev_phase x) "E");
      [destruct (stack s !! ev_op_id x)|]; simpl.
    + rewrite lookup_delete. case_decide; [done|].
      intros Hb. apply elem_of_app. left. by eapply Hst.
    + intros Hb. apply elem_of_app. left. by eapply Hst.
    + intros Hb. apply elem_of_app. left. by eapply Hst.
  - unfold match_event.
    destruct (String.eqb (ev_phase x) "B"); simpl; [done|].
    destruct (String.eqb (ev_phase x) "E"); [|done].
    destruct (stack s !! ev_op_id x) as [b|] eqn:Hb; simpl; [|done].
    apply Forall_app. split; [done|]. apply Forall_singleton. simpl.
    apply Hst in Hb.
    pose proof (value_sorted_before ev_ts seen rest x Hsort) as Hbefore.
    rewrite Forall_forall in Hbefore, Hfin.
    apply sub_nonneg.
    + apply Hfin. apply elem_of_app. right. apply list_elem_of_here.
    + apply Hfin. apply elem_of_app. by left.
    + by apply Hbefore.
Qed.

(** On a log with finite timestamps, [match_events] only adds operations
    whose duration is not negative. *)
Lemma match_events_durations (self : PipelineAnalyzer) :
  Forall (fun x => PyFloat.is_finite (ev_ts x) = true) (events self) ->
  Forall (fun op => PrimFloat.leb 0%float (op_duration op) = true) (timeline self) ->
  Forall (fun op => PrimFloat.leb 0%float (op_duration op) = true)
         (timeline (match_events self)).
Proof.
  intros Hfin Htl. unfold match_events. simpl.
  apply (match_scan_durations [] (scan_order self)); simpl.
  - unfold scan_order. by rewrite sorted_perm.
  - by apply sorted_value_sorted.
  - intros k b Hb. by rewrite lookup_empty in Hb.
  - done.
Qed.

(** ** C7: the flamegraph export *)

Lemma binary_round_aux_sign (sx : bool) (mx ex : Z) (lx : location) :
  match binary_round_aux prec emax sx mx ex lx with
  | S754_zero s | S754_infinity s | S754_finite s _ _ => s = sx
  | S754_nan => True
  end.
Proof.
  unfold binary_round_aux.
  destruct (shr_fexp prec emax mx ex lx) as [mrs' e'].
  destruct (shr_fexp prec emax _ e' loc_Exact) as [mrs'' e''].
  destruct (shr_m mrs''); [done| |done].
  by destruct (Z.leb e'' (emax - prec)).
Qed.

(** A float that is not below zero has a zero or a positive
    representation. *)
Lemma leb_zero_sign (x : float) :
  PrimFloat.leb 0%float x = true ->
  match Prim2SF x with
  | S754_zero _ => True
  | S754_finite s _ _ | S754_infinity s => s = false
  | S754_nan => False
  end.
Proof.
  rewrite leb_spec. change (Prim2SF 0%float) with (S754_zero false).
  by destruct (Prim2SF x) as [s|[]| |[] m e].
Qed.

(** Multiplying by a positive finite constant keeps the sign. *)
Lemma mul_positive_sign (x y : float) (my : positive) (ey : Z) :
  Prim2SF y = S754_finite false my ey ->
  PrimFloat.leb 0%float x = true ->
  match Prim2SF (PrimFloat.mul x y) with
  | S754_zero _ | S754_nan => True
  | S754_finite s _ _ | S754_infinity s => s = false
  end.
Proof.
  intros Hy Hx. apply leb_zero_sign in Hx. rewrite mul_spec, Hy.
  destruct (Prim2SF x) as [s|s| |s m e]; simpl; try done.
  - by subst s.
  - subst s. simpl.
    pose proof (binary_round_aux_sign false (Z.pos (m * my)) (e + ey) loc_Exact)
      as Hs.
    by destruct (binary_round_aux prec emax false _ _ loc_Exact).
Qed.

(** On a finite float with a positive or zero representation, [int()]
    succeeds with the floor, which is not negative. *)
Lemma to_int_floor (x : float) :
  match Prim2SF x with
  | S754_zero _ | S754_nan => True
  | S754_finite s _ _ | S754_infinity s => s = false
  end ->
  PyFloat.is_finite x = true ->
  exists c : Z,
    PyFloat.to_int x = Ok c /\ PyFloat.floor x = Some c /\ 0 <= c.
Proof.
  unfold PyFloat.is_finite, PyFloat.to_int, PyFloat.floor.
  destruct (Prim2SF x) as [s|s| |s m e]; try done.
  - intros _ _. by exists 0.
  - intros -> _. exists (Z.shiftl (Z.pos m) e). simpl.
    repeat split. apply Z.shiftl_nonneg. lia.
Qed.

Lemma flamegraph_count_floor (op : Operation) :
  PrimFloat.leb 0%float (op_duration op) = true ->
  PyFloat.is_finite (PrimFloat.mul (op_duration op) 1000000%float) = true ->
  exists c : Z,
    flamegraph_count op = Ok c /\
    PyFloat.floor (PrimFloat.mul (op_duration op) 1000000%float) = Some c /\
    0 <= c.
Proof.
  intros Hpos Hfin. apply to_int_floor; [|done].
  by eapply mul_positive_sign; [reflexivity|].
Qed.

Lemma flamegraph_write_lines (ops : list Operation) :
  Forall (fun op =>
            PrimFloat.leb 0%float (op_duration op) = true /\
            PyFloat.is_finite (PrimFloat.mul (op_duration op) 1000000%float) = true)
         ops ->
  exists lines : list string,
    flamegraph_write ops = (lines, None) /\
    Forall2 flamegraph_line_of ops lines.
Proof.
  induction 1 as [|op ops [Hpos Hfin] _ (lines & Hw & Hl)]; simpl.
  { by exists []. }
  destruct (flamegraph_count_floor op Hpos Hfin) as (c & Hc & Hfloor & _).
  unfold flamegraph_line. rewrite Hc. simpl. rewrite Hw.
  eexists. split; [reflexivity|].
  apply Forall2_cons_2; [|done]. by exists c.
Qed.

(** [int()] raises on a float that is not finite, and nothing else in the
    loop raises. *)
Lemma to_int_raises (x : float) :
  PyFloat.is_finite x = false ->
  exists e : PyExc,
    PyFloat.to_int x = Raise e /\ (e = ValueError \/ e = OverflowError).
Proof.
  unfold PyFloat.to_int, PyFloat.is_finite.
  destruct (Prim2SF x) as [s|s| |s m e]; try done; intros _.
  - exists OverflowError. split; [done|by right].
  - exists ValueError. split; [done|by left].
Qed.

Lemma to_int_finite (x : float) :
  PyFloat.is_finite x = true -> exists c : Z, PyFloat.to_int x = Ok c.
Proof.
  unfold PyFloat.to_int, PyFloat.is_finite.
  destruct (Prim2SF x); try done; intros _; by eexists.
Qed.

Lemma flamegraph_write_raises (ops : list Operation) :
  Exists (fun op => PyFloat.is_finite
                      (PrimFloat.mul (op_duration op) 1000000%float) = false)
         ops ->
  exists (lines : list string) (e : PyExc),
    flamegraph_write ops = (lines, Some e) /\
    (length lines < length ops)%nat /\
    (e = ValueError \/ e = OverflowError).
Proof.
  induction ops as [|op ops IH]; intros Hex; [by apply Exists_nil in Hex|].
  cbn [flamegraph_write]. unfold flamegraph_line, flamegraph_count.
  destruct (PyFloat.is_finite (PrimFloat.mul (op_duration op) 1000000%float))
    eqn:Hfin.
  - apply Exists_cons in Hex as [Hbad|Hex]; [congruence|].
    destruct (to_int_finite _ Hfin) as [c Hc]. rewrite Hc. cbn [res_bind].
    destruct (IH Hex) as (lines & e & Hw & Hlen & He). rewrite Hw.
    exists (flamegraph_format (op_name op) c :: lines), e.
    split; [done|]. split; [simpl; lia|done].
  - destruct (to_int_raises _ Hfin) as (e & Hr & He). rewrite Hr.
    cbn [res_bind]. exists [], e. split; [done|]. split; [simpl; lia|done].
Qed.

(** C7. The export does not write a line for every timeline: it writes one
    for each operation only when the value of every duration in
    microseconds is a finite float, and raises otherwise.  For a timeline whose operations have a
    duration that is not negative (the invariant of the data model) and
    whose value in microseconds is a finite float, the flamegraph export
    raises nothing and writes exactly one line per operation: the lines
    are those of the operations in some order, which is the order of
    [start] when no [start] is NaN; the line of an operation is
    ["CUDA;<name> <count>\n"] where [count] is the floor of
    [duration * 1000000] ([flamegraph_line_of]).  The first condition
    holds of every timeline that [match_events] builds from a log whose
    timestamps are finite floats; the second one does not: the log with
    the timestamps 0.0 and 1e303 is the counterexample below. *)
Theorem C7_flamegraph_one_line_per_operation :
  (forall self : PipelineAnalyzer,
      (forall op : Operation,
          op ∈ timeline self ->
          PrimFloat.leb 0%float (op_duration op) = true /\
          PyFloat.is_finite (PrimFloat.mul (op_duration op) 1000000%float) = true) ->
      exists (lines : list string) (ops : list Operation),
        generate_flamegraph_data self = (lines, None) /\
        length lines = length (timeline self) /\
        ops ≡ₚ timeline self /\
        Forall2 flamegraph_line_of ops lines /\
        (nan_free op_start (timeline self) ->
         ops = sorted op_start (timeline self))) /\
  (forall self : PipelineAnalyzer,
      Forall (fun x => PyFloat.is_finite (ev_ts x) = true) (events self) ->
      timeline self = [] ->
      forall op : Operation,
        op ∈ timeline (match_events self) ->
        PrimFloat.leb 0%float (op_duration op) = true) /\
  (forall self : PipelineAnalyzer,
      Exists (fun op => PyFloat.is_finite
                          (PrimFloat.mul (op_duration op) 1000000%float) = false)
             (timeline self) ->
      exists (lines : list string) (e : PyExc),
        generate_flamegraph_data self = (lines, Some e) /\
        (length lines < length (timeline self))%nat /\
        (e = ValueError \/ e = OverflowError)).
Proof.
  split; [|split].
  - intros self Hops.
    destruct (flamegraph_write_lines (sorted op_start (timeline self)))
      as (lines & Hw & Hl).
    { apply Forall_forall. intros op Hin. apply Hops.
      by rewrite <- (sorted_perm op_start (timeline self)). }
    exists lines, (sorted op_start (timeline self)). split; [done|]. split.
    + rewrite <- (Forall2_length _ _ _ Hl). apply sorted_length.
    + split; [apply sorted_perm|]. by split.
  - intros self Hfin Hempty.
    apply Forall_forall, match_events_durations; [done|].
    rewrite Hempty. apply Forall_nil_2.
  - intros self Hex. unfold generate_flamegraph_data.
    rewrite <- (sorted_length op_start (timeline self)).
    apply flamegraph_write_raises.
    by rewrite (sorted_perm op_start (timeline self)).
Qed.

Lemma C7_flamegraph_witness :
  (exists (lines : list string) (ops : list Operation),
      generate_flamegraph_data (match_events two_line_analyzer) = (lines, None) /\
      length lines = 1%nat /\
      ops ≡ₚ timeline (match_events two_line_analyzer) /\
      Forall2 flamegraph_line_of ops lines /\
      (nan_free op_start (timeline (match_events two_line_analyzer)) ->
       ops = sorted op_start (timeline (match_events two_line_analyzer)))) /\
  (forall op : Operation,
      op ∈ timeline (match_events two_line_analyzer) ->
      PrimFloat.leb 0%float (op_duration op) = true) /\
  (exists (lines : list string) (e : PyExc),
      generate_flamegraph_data overflow_analyzer = (lines, Some e) /\
      (length lines < length (timeline overflow_analyzer))%nat /\
      (e = ValueError \/ e = OverflowError)).
Proof.
  destruct C7_flamegraph_one_line_per_operation as (Hexport & Hdur & Hraise).
  assert (Hfin : Forall (fun x => PyFloat.is_finite (ev_ts x) = true)
                        (events two_line_analyzer)).
  { repeat (apply Forall_cons_2; [reflexivity|]). apply Forall_nil_2. }
  split; [|split].
  3: { apply (Hraise overflow_analyzer). apply Exists_cons_hd. reflexivity. }
  2: exact (Hdur two_line_analyzer Hfin eq_refl).
  apply (Hexport (match_events two_line_analyzer)).
  intros op Hin. split; [exact (Hdur two_line_analyzer Hfin eq_refl op Hin)|].
  change (timeline (match_events two_line_analyzer))
    with [make_op (CUDATraceEvent__init__ 0.5%float "unknown" "E" (Some (inl 1)) None 0 (JObj []))
                  (CUDATraceEvent__init__ 0%float "unknown" "B" (Some (inl 1)) None 0 (JObj []))]
    in Hin.
  apply list_elem_of_singleton in Hin. subst op. reflexivity.
Defined.

(** The log with the two finite timestamps 0.0 and 1e303 has one operation,
    whose duration is not negative, and the export of its timeline writes
    no line: [int()] raises [OverflowError] on [duration * 1000000]. *)
Lemma C7_flamegraph_overflow_counterexample :
  Forall (fun x => PyFloat.is_finite (ev_ts x) = true) (events huge_analyzer) /\
  timeline (match_events huge_analyzer) = [huge_op] /\
  PrimFloat.leb 0%float (op_duration huge_op) = true /\
  generate_flamegraph_data (match_events huge_analyzer)
    = ([], Some OverflowError).
Proof.
  split; [|split; [|split]].
  - repeat (apply Forall_cons_2; [reflexivity|]). apply Forall_nil_2.
  - vm_compute. reflexivity.
  - reflexivity.
  - vm_compute. reflexivity.
Qed.

(** The lines written for the two-line log. *)
Example flamegraph_two_line_log :
  generate_flamegraph_data (match_events two_line_analyzer)
    = (["CUDA;unknown 500000" +:+ newline], None).
Proof. vm_compute. reflexivity. Qed.

(** Outside the conditions of C7: [int()] truncates toward zero, so a
    negative duration is not floored, and a duration whose value in
    microseconds overflows raises. *)
Example flamegraph_count_outside_domain :
  flamegraph_count (mkOp "f" 0%float 0%float (-0x1p-21)%float 0 JNull) = Ok 0 /\
  PyFloat.floor (PrimFloat.mul (-0x1p-21)%float 1000000%float) = Some (-1) /\
  flamegraph_count (mkOp "f" 0%float infinity infinity 0 JNull)
    = Raise OverflowError.
Proof. repeat split; vm_compute; reflexivity. Qed.

(** * Further properties of the analyzer *)

(** ** The categories table *)

Lemma categories_append_lookup (cats : gmap string (list Operation))
    (c c' : string) (op : Operation) :
  default [] (categories_append cats c op !! c')
  = default [] (cats !! c') ++ (if decide (c = c') then [op] else []).
Proof.
  unfold categories_append. rewrite lookup_insert.
  destruct (decide (c = c')) as [->|Hc]; simpl; [done|].
  by rewrite app_nil_r.
Qed.

Lemma match_event_categories (s : MatchState) (x : CUDATraceEvent) :
  (forall c, default [] (ms_categories s !! c)
             = filter (fun op => categorize (op_name op) = c) (ms_timeline s) /\
             ms_categories s !! c <> Some []) ->
  forall c, default [] (ms_categories (match_event s x) !! c)
            = filter (fun op => categorize (op_name op) = c)
                     (ms_timeline (match_event s x)) /\
            ms_categories (match_event s x) !! c <> Some [].
Proof.
  intros Hs c. destruct (Hs c) as [Hc Hne]. unfold match_event.
  destruct (String.eqb (ev_phase x) "B"); [done|].
  destruct (String.eqb (ev_phase x) "E"); [|done].
  destruct (stack s !! ev_op_id x) as [b|]; [|done]. simpl. split.
  - rewrite categories_append_lookup, filter_app, Hc. by f_equal.
  - unfold categories_append. rewrite lookup_insert.
    destruct (decide (categorize (ev_name x) = c)); [|done].
    intros [= Happ]. by apply app_nil in Happ as [_ ?].
Qed.

Lemma match_scan_categories (l : list CUDATraceEvent) (s : MatchState) :
  (forall c, default [] (ms_categories s !! c)
             = filter (fun op => categorize (op_name op) = c) (ms_timeline s) /\
             ms_categories s !! c <> Some []) ->
  forall c, default [] (ms_categories (match_scan l s) !! c)
            = filter (fun op => categorize (op_name op) = c)
                     (ms_timeline (match_scan l s)) /\
            ms_categories (match_scan l s) !! c <> Some [].
Proof.
  revert s. induction l as [|x l IH]; intros s Hs; [done|].
  rewrite match_scan_cons. apply IH. by apply match_event_categories.
Qed.

(** X1. [match_events] keeps the categories table consistent with the
    timeline: every category holds exactly the operations of the timeline
    whose name has that category, in timeline order, and no category is
    left with an empty list.  A new analyzer is consistent. *)
Theorem X1_categories_partition_timeline :
  categories_consistent PipelineAnalyzer__init__ /\
  (forall self : PipelineAnalyzer,
      categories_consistent self -> categories_consistent (match_events self)).
Proof.
  split.
  - intros c. simpl. by rewrite lookup_empty.
  - intros self Hself c. unfold match_events. simpl.
    by apply match_scan_categories.
Qed.

Lemma X1_categories_partition_witness :
  default [] (categories (match_events late_analyzer) !! "kernel")
    = filter (fun op => categorize (op_name op) = "kernel")
             (timeline (match_events late_analyzer)) /\
  categories (match_events late_analyzer) !! "kernel" <> Some [].
Proof.
  destruct X1_categories_partition_timeline as [Hinit Hkeep].
  apply (Hkeep late_analyzer). unfold late_analyzer. apply Hkeep.
  intros c. simpl. by rewrite lookup_empty.
Defined.

(** ** Calling [match_events] again *)

(** The operations a scan appends depend on the pending map it starts
    from, not on the timeline it appends to. *)
Lemma match_scan_produced (l : list CUDATraceEvent) (s1 s2 : MatchState) :
  stack s1 = stack s2 ->
  exists produced : list Operation,
    ms_timeline (match_scan l s1) = ms_timeline s1 ++ produced /\
    ms_timeline (match_scan l s2) = ms_timeline s2 ++ produced.
Proof.
  revert s1 s2. induction l as [|x l IH]; intros s1 s2 Hst.
  { exists []. by rewrite !app_nil_r. }
  rewrite !match_scan_cons.
  assert (Hstep : exists new,
    ms_timeline (match_event s1 x) = ms_timeline s1 ++ new /\
    ms_timeline (match_event s2 x) = ms_timeline s2 ++ new /\
    stack (match_event s1 x) = stack (match_event s2 x)).
  { unfold match_event. rewrite Hst.
    destruct (String.eqb (ev_phase x) "B"); simpl.
    { exists []. by rewrite !app_nil_r. }
    destruct (String.eqb (ev_phase x) "E").
    - destruct (stack s2 !! ev_op_id x); simpl.
      + by eexists.
      + exists []. by rewrite !app_nil_r.
    - exists []. by rewrite !app_nil_r. }
  destruct Hstep as (new & H1 & H2 & Hst').
  destruct (IH _ _ Hst') as (produced & Hp1 & Hp2).
  exists (new ++ produced). rewrite Hp1, Hp2, H1, H2. by rewrite !app_assoc.
Qed.

(** X2. [match_events] is not idempotent: it appends to the timeline it
    finds, so a second call appends the operations of the whole log a
    second time.  The operations appended by a call are those that the
    log yields on a new analyzer, whatever the timeline was; so whenever
    the log yields an operation, the second call changes the timeline. *)
Theorem X2_match_events_twice_duplicates :
  forall self : PipelineAnalyzer,
    exists produced : list Operation,
      timeline (match_events (mkAnalyzer (events self) ∅ [])) = produced /\
      timeline (match_events self) = timeline self ++ produced /\
      timeline (match_events (match_events self))
        = timeline self ++ produced ++ produced /\
      (produced <> [] ->
       timeline (match_events (match_events self))
       <> timeline (match_events self)).
Proof.
  intros self.
  destruct (match_scan_produced (scan_order self) (match_init self)
              (match_init (match_events self)) eq_refl)
    as (produced & H1 & H2).
  destruct (match_scan_produced (scan_order self) (match_init self)
              (match_init (mkAnalyzer (events self) ∅ [])) eq_refl)
    as (produced' & H1' & H0).
  rewrite H1 in H1'. apply app_inv_head in H1'. subst produced'.
  assert (Htwice : timeline (match_events (match_events self))
                   = timeline self ++ produced ++ produced).
  { unfold match_events at 1. simpl.
    change (scan_order (match_events self)) with (scan_order self).
    rewrite H2. simpl. unfold match_events. simpl. rewrite H1. simpl.
    by rewrite <- app_assoc. }
  exists produced. split; [exact H0|]. split; [exact H1|].
  split; [exact Htwice|].
  intros Hne Heq. rewrite Htwice in Heq.
  unfold match_events in Heq. simpl in Heq. rewrite H1 in Heq. simpl in Heq.
  apply app_inv_head in Heq.
  apply (f_equal length) in Heq. rewrite length_app in Heq.
  destruct produced; [done|]. simpl in Heq. lia.
Qed.

Lemma X2_match_events_twice_witness :
  timeline (match_events two_line_analyzer) = [two_line_op] /\
  timeline (match_events (match_events two_line_analyzer))
    = [two_line_op; two_line_op] /\
  timeline (match_events (match_events two_line_analyzer))
    <> timeline (match_events two_line_analyzer).
Proof.
  destruct (X2_match_events_twice_duplicates two_line_analyzer)
    as (produced & H0 & H1 & H2 & Hne).
  assert (Hp : produced = [two_line_op]) by (by rewrite <- H0).
  subst produced.
  split; [exact H1|]. split; [exact H2|]. by apply Hne.
Defined.

(** ** Begin events that are never matched *)

Lemma count_begins_app (l1 l2 : list CUDATraceEvent) :
  count_begins (l1 ++ l2) = (count_begins l1 + count_begins l2)%nat.
Proof. unfold count_begins. by rewrite filter_app, length_app. Qed.

Lemma match_event_begin_balance (s : MatchState) (x : CUDATraceEvent) :
  (length (ms_timeline (match_event s x)) + size (stack (match_event s x))
   <= length (ms_timeline s) + size (stack s) + count_begins [x])%nat.
Proof.
  unfold match_event, count_begins.
  destruct (String.eqb (ev_phase x) "B") eqn:HB; simpl.
  { apply String.eqb_eq in HB. rewrite filter_cons_True by done. simpl.
    destruct (stack s !! ev_op_id x) eqn:Hl.
    - rewrite map_size_insert_Some by done. lia.
    - rewrite map_size_insert_None by done. lia. }
  destruct (String.eqb (ev_phase x) "E"); [|lia].
  destruct (stack s !! ev_op_id x) eqn:Hl; simpl; [|lia].
  rewrite length_app, map_size_delete_Some by done. simpl.
  assert (size (stack s) <> 0)%nat.
  { intros H0. apply map_size_empty_inv in H0. rewrite H0 in Hl.
    by rewrite lookup_empty in Hl. }
  lia.
Qed.

Lemma match_scan_begin_balance (l : list CUDATraceEvent) (s : MatchState) :
  (length (ms_timeline (match_scan l s)) + size (stack (match_scan l s))
   <= length (ms_timeline s) + size (stack s) + count_begins l)%nat.
Proof.
  revert s. induction l as [|x l IH]; intros s; [simpl; lia|].
  rewrite match_scan_cons. specialize (IH (match_event s x)).
  pose proof (match_event_begin_balance s x).
  change (x :: l) with ([x] ++ l). rewrite count_begins_app. lia.
Qed.

(** X3. The operations [match_events] appends, together with the begin
    events still pending when the scan ends, are at most as many as the
    begin events of the log, and the operations alone are at most as many
    as the end events: a begin without an end is dropped as silently as an
    end without a begin. *)
Theorem X3_operations_bounded_by_begins_and_ends :
  forall self : PipelineAnalyzer,
    exists produced : list Operation,
      timeline (match_events self) = timeline self ++ produced /\
      (length produced
       + size (stack (match_scan (scan_order self) (match_init self)))
       <= count_begins (events self))%nat /\
      (length produced <= count_ends (events self))%nat.
Proof.
  intros self.
  destruct (match_scan_timeline (scan_order self) (match_init self))
    as [produced Hprod].
  exists produced. split; [exact Hprod|].
  pose proof (match_scan_begin_balance (scan_order self) (match_init self)) as Hb.
  pose proof (match_scan_length (scan_order self) (match_init self)) as He.
  rewrite Hprod, length_app in Hb, He. simpl in Hb, He.
  rewrite map_size_empty in Hb.
  assert (count_begins (scan_order self) = count_begins (events self)) as <-.
  { unfold count_begins, scan_order. by rewrite sorted_perm. }
  rewrite <- count_ends_scan_order. lia.
Qed.

(** ** The order of the timeline *)

Lemma value_sorted_snoc {A : Type} (key : A -> float) (l : list A) (x : A) :
  value_sorted key l ->
  Forall (fun y => float_value (key y) <= float_value (key x)) l ->
  value_sorted key (l ++ [x]).
Proof.
  induction l as [|y l IH]; simpl; intros Hs Hle.
  { split; [apply Forall_nil_2|done]. }
  destruct Hs as [Hy Hs]. apply Forall_cons_1 in Hle as [Hyx Hle]. split.
  - apply Forall_app. split; [done|]. by apply Forall_singleton.
  - by apply IH.
Qed.

Lemma match_scan_end_order (seen rest : list CUDATraceEvent) (s : MatchState) :
  Forall (fun x => PyFloat.is_finite (ev_ts x) = true) (seen ++ rest) ->
  value_sorted ev_ts (seen ++ rest) ->
  (forall k b, stack s !! k = Some b -> b ∈ seen) ->
  value_sorted op_end (ms_timeline s) ->
  Forall (fun op => float_value (op_start op) <= float_value (op_end op) /\
                    exists e, e ∈ seen /\ op_end op = ev_ts e) (ms_timeline s) ->
  value_sorted op_end (ms_timeline (match_scan rest s)) /\
  Forall (fun op => float_value (op_start op) <= float_value (op_end op))
         (ms_timeline (match_scan rest s)).
Proof.
  revert seen s.
  induction rest as [|x rest IH]; intros seen s Hfin Hsort Hst Hord Hops.
  { simpl. split; [done|]. eapply Forall_impl; [exact Hops|]. by intros ? [? _]. }
  rewrite match_scan_cons.
  assert (Hsplit : seen ++ x :: rest = (seen ++ [x]) ++ rest)
    by (by rewrite <- app_assoc).
  pose proof (value_sorted_before ev_ts seen rest x Hsort) as Hbefore.
  rewrite Forall_forall in Hbefore.
  assert (Hops' : Forall
    (fun op => float_value (op_start op) <= float_value (op_end op) /\
               exists e, e ∈ seen ++ [x] /\ op_end op = ev_ts e) (ms_timeline s)).
  { eapply Forall_impl; [exact Hops|]. intros op [Hle (e & He & Hend)].
    split; [done|]. exists e. split; [|done]. apply elem_of_app. by left. }
  assert (Hst' : forall k b, stack s !! k = Some b -> b ∈ seen ++ [x]).
  { intros k b Hb. apply elem_of_app. left. by eapply Hst. }
  apply (IH (seen ++ [x])); try (by rewrite <- Hsplit).
  - intros k b. unfold match_event.
    destruct (String.eqb (ev_phase x) "B"); simpl.
    { rewrite lookup_insert. case_decide; [|by apply Hst'].
      intros [= <-]. apply elem_of_app. right. apply list_elem_of_here. }
    destruct (String.eqb (ev_phase x) "E");
      [destruct (stack s !! ev_op_id x)|]; simpl; try by apply Hst'.
    rewrite lookup_delete. case_decide; [done|by apply Hst'].
  - unfold match_event.
    destruct (String.eqb (ev_phase x) "B"); simpl; [done|].
    destruct (String.eqb (ev_phase x) "E"); [|done].
    destruct (stack s !! ev_op_id x) as [b|] eqn:Hb; simpl; [|done].
    apply value_sorted_snoc; [done|]. simpl.
    eapply Forall_impl; [exact Hops|]. simpl.
    intros op [_ (e & He & ->)]. by apply Hbefore.
  - unfold match_event.
    destruct (String.eqb (ev_phase x) "B"); simpl; [done|].
    destruct (String.eqb (ev_phase x) "E"); [|done].
    destruct (stack s !! ev_op_id x) as [b|] eqn:Hb; simpl; [|done].
    apply Forall_app. split; [done|]. apply Forall_singleton. simpl. split.
    + apply Hbefore. by eapply Hst.
    + exists x. split; [|done]. apply elem_of_app. right. apply list_elem_of_here.
Qed.

(** X4. On a log whose timestamps are finite floats, the timeline that
    [match_events] builds from scratch is in order of end time, however
    the log was ordered, and every operation starts no later than it ends. *)
Theorem X4_timeline_ordered_by_end :
  forall self : PipelineAnalyzer,
    Forall (fun x => PyFloat.is_finite (ev_ts x) = true) (events self) ->
    timeline self = [] ->
    value_sorted op_end (timeline (match_events self)) /\
    Forall (fun op => float_value (op_start op) <= float_value (op_end op))
           (timeline (match_events self)).
Proof.
  intros self Hfin Hempty. unfold match_events. simpl.
  apply (match_scan_end_order [] (scan_order self)); simpl.
  - unfold scan_order. by rewrite sorted_perm.
  - by apply sorted_value_sorted.
  - intros k b Hb. by rewrite lookup_empty in Hb.
  - by rewrite Hempty.
  - rewrite Hempty. apply Forall_nil_2.
Qed.

Lemma X4_timeline_ordered_witness :
  value_sorted op_end
    (timeline (match_events (mkAnalyzer late_log ∅ []))) /\
  Forall (fun op => float_value (op_start op) <= float_value (op_end op))
         (timeline (match_events (mkAnalyzer late_log ∅ []))).
Proof.
  apply (X4_timeline_ordered_by_end (mkAnalyzer late_log ∅ [])); [|reflexivity].
  repeat (apply Forall_cons_2; [reflexivity|]). apply Forall_nil_2.
Defined.

(** ** The longest operations *)

Lemma sorted_desc_perm {A : Type} (key : A -> float) (l : list A) :
  sorted_desc key l ≡ₚ l.
Proof.
  unfold sorted_desc.
  rewrite <- (Permutation_rev (sorted key (rev l))), sorted_perm.
  symmetry. apply Permutation_rev.
Qed.

Lemma value_sorted_desc_snoc {A : Type} (key : A -> float) (l : list A) (x : A) :
  value_sorted_desc key l ->
  Forall (fun y => float_value (key x) <= float_value (key y)) l ->
  value_sorted_desc key (l ++ [x]).
Proof.
  induction l as [|y l IH]; simpl; intros Hs Hle.
  { split; [apply Forall_nil_2|done]. }
  destruct Hs as [Hy Hs]. apply Forall_cons_1 in Hle as [Hyx Hle]. split.
  - apply Forall_app. split; [done|]. by apply Forall_singleton.
  - by apply IH.
Qed.

Lemma value_sorted_rev {A : Type} (key : A -> float) (l : list A) :
  value_sorted key l -> value_sorted_desc key (rev l).
Proof.
  induction l as [|x l IH]; simpl; [done|]. intros [Hx Hs].
  apply value_sorted_desc_snoc; [by apply IH|].
  apply Forall_forall. intros y Hy. rewrite Forall_forall in Hx. apply Hx.
  by apply list_elem_of_In, in_rev, list_elem_of_In.
Qed.

Lemma value_sorted_desc_split {A : Type} (key : A -> float) (l1 l2 : list A) :
  value_sorted_desc key (l1 ++ l2) ->
  value_sorted_desc key l1 /\
  (forall a b, a ∈ l1 -> b ∈ l2 -> float_value (key b) <= float_value (key a)).
Proof.
  induction l1 as [|x l1 IH]; simpl.
  { intros _. split; [done|]. intros a b Ha. by apply elem_of_nil in Ha. }
  intros [Hx Hs]. destruct (IH Hs) as [Hs1 Hcross].
  apply Forall_app in Hx as [Hx1 Hx2]. split; [done|].
  intros a b Ha Hb. apply elem_of_cons in Ha as [->|Ha]; [|by apply Hcross].
  rewrite Forall_forall in Hx2. by apply Hx2.
Qed.

Lemma sorted_desc_descending {A : Type} (key : A -> float) (l : list A) :
  Forall (fun y => PyFloat.is_finite (key y) = true) l ->
  value_sorted_desc key (sorted_desc key l).
Proof.
  intros Hfin. apply value_sorted_rev, sorted_value_sorted.
  apply Forall_forall. intros y Hy. rewrite Forall_forall in Hfin. apply Hfin.
  by apply list_elem_of_In, in_rev, list_elem_of_In.
Qed.

Lemma slice_to_split {A : Type} (l : list A) (limit : Z) :
  exists dropped : list A,
    l = slice_to l limit ++ dropped /\
    (0 <= limit ->
     length (slice_to l limit) = Nat.min (Z.to_nat limit) (length l)) /\
    (limit < 0 ->
     length (slice_to l limit) = (length l - Z.to_nat (- limit))%nat).
Proof.
  unfold slice_to. destruct (0 <=? limit) eqn:Hl.
  - apply Z.leb_le in Hl. exists (drop (Z.to_nat limit) l).
    split; [by rewrite take_drop|]. split; [|lia].
    intros _. apply length_take.
  - apply Z.leb_gt in Hl.
    exists (drop (Z.to_nat (Z.of_nat (length l) + limit)) l).
    split; [by rewrite take_drop|]. split; [lia|].
    intros _. rewrite length_take. lia.
Qed.

(** X5. [print_detailed_operations] ranks the operations by duration,
    longest first.  With durations that are finite floats: the operations
    listed are in descending order of duration, none of the operations
    left out is longer than a listed one, and listed and left out together
    are the timeline.  A limit [n >= 0] lists [min n (len timeline)]
    operations; a negative limit [-k] lists all but the [k] shortest.  The
    rows are numbered from 1 in that order. *)
Theorem X5_longest_operations_ranked :
  forall (self : PipelineAnalyzer) (limit : Z),
    Forall (fun op => PyFloat.is_finite (op_duration op) = true) (timeline self) ->
    exists dropped : list Operation,
      longest_ops self limit ++ dropped ≡ₚ timeline self /\
      value_sorted_desc op_duration (longest_ops self limit) /\
      (forall a b, a ∈ longest_ops self limit -> b ∈ dropped ->
                   float_value (op_duration b) <= float_value (op_duration a)) /\
      (0 <= limit ->
       length (longest_ops self limit)
       = Nat.min (Z.to_nat limit) (length (timeline self))) /\
      (limit < 0 ->
       length (longest_ops self limit)
       = (length (timeline self) - Z.to_nat (- limit))%nat) /\
      (forall (i : nat) (op : Operation),
          longest_ops self limit !! i = Some op ->
          print_detailed_operations self limit !! i
          = Some (Z.of_nat i + 1, op_name op,
                  PrimFloat.mul (op_duration op) 1000%float,
                  categorize (op_name op))).
Proof.
  intros self limit Hfin. unfold longest_ops.
  destruct (slice_to_split (sorted_desc op_duration (timeline self)) limit)
    as (dropped & Hsplit & Hpos & Hneg).
  pose proof (sorted_desc_descending op_duration (timeline self) Hfin) as Hdesc.
  rewrite Hsplit in Hdesc. apply value_sorted_desc_split in Hdesc as [Hd1 Hd2].
  rewrite (Permutation_length (sorted_desc_perm op_duration (timeline self)))
    in Hpos, Hneg.
  exists dropped. repeat split; try done.
  - rewrite <- Hsplit. apply sorted_desc_perm.
  - intros i op Hi. unfold print_detailed_operations, longest_ops.
    by rewrite list_lookup_imap, Hi.
Qed.

Lemma X5_longest_operations_witness :
  exists dropped : list Operation,
    longest_ops late_analyzer 1 ++ dropped ≡ₚ timeline late_analyzer /\
    value_sorted_desc op_duration (longest_ops late_analyzer 1) /\
    (forall a b, a ∈ longest_ops late_analyzer 1 -> b ∈ dropped ->
                 float_value (op_duration b) <= float_value (op_duration a)) /\
    (0 <= 1 ->
     length (longest_ops late_analyzer 1)
     = Nat.min (Z.to_nat 1) (length (timeline late_analyzer))) /\
    (1 < 0 ->
     length (longest_ops late_analyzer 1)
     = (length (timeline late_analyzer) - Z.to_nat (- 1))%nat) /\
    (forall (i : nat) (op : Operation),
        longest_ops late_analyzer 1 !! i = Some op ->
        print_detailed_operations late_analyzer 1 !! i
        = Some (Z.of_nat i + 1, op_name op,
                PrimFloat.mul (op_duration op) 1000%float,
                categorize (op_name op))).
Proof.
  apply (X5_longest_operations_ranked late_analyzer 1).
  change (timeline late_analyzer) with [late_alloc; late_launch].
  repeat (apply Forall_cons_2; [reflexivity|]). apply Forall_nil_2.
Defined.

(** ** The flamegraph export on durations that are not finite *)

Lemma to_int_ok_iff (x : float) :
  (exists c, PyFloat.to_int x = Ok c) <-> PyFloat.is_finite x = true.
Proof.
  unfold PyFloat.to_int, PyFloat.is_finite.
  destruct (Prim2SF x); split; try done; try (by eexists); by intros [c Hc].
Qed.

Lemma to_int_raise (x : float) :
  PyFloat.is_finite x = false ->
  (Prim2SF x = S754_nan /\ PyFloat.to_int x = Raise ValueError) \/
  (exists s, Prim2SF x = S754_infinity s /\ PyFloat.to_int x = Raise OverflowError).
Proof.
  unfold PyFloat.to_int, PyFloat.is_finite.
  destruct (Prim2SF x) as [s|s| |s m e]; try done; intros _.
  - right. by exists s.
  - by left.
Qed.

Lemma flamegraph_write_app_ok (good rest : list Operation) :
  Forall (fun op => PyFloat.is_finite
                      (PrimFloat.mul (op_duration op) 1000000%float) = true) good ->
  exists lines : list string,
    flamegraph_lines good lines /\
    flamegraph_write (good ++ rest)
    = (lines ++ fst (flamegraph_write rest), snd (flamegraph_write rest)).
Proof.
  induction 1 as [|op good Hop _ (lines & Hl & Hw)]; simpl.
  { exists []. split; [constructor|]. by destruct (flamegraph_write rest). }
  apply to_int_ok_iff in Hop as [c Hc].
  assert (Hline : flamegraph_line op = Ok (flamegraph_format (op_name op) c)).
  { unfold flamegraph_line, flamegraph_count. by rewrite Hc. }
  rewrite Hline, Hw.
  exists (flamegraph_format (op_name op) c :: lines). split; [|done].
  by constructor.
Qed.

(** X8. On a timeline whose [start] values are free of NaN, the flamegraph
    export raises exactly on an operation whose duration in microseconds
    is not a finite float.  If every operation has a finite value, nothing
    is raised and the lines written are those of the operations in order
    of [start], one each.  Otherwise, with the operations taken in order
    of [start], the lines of the operations before the first such
    operation are written, and then [int()] raises: [ValueError] if the
    value is NaN, [OverflowError] if it is an infinity. *)
Theorem X8_flamegraph_raises_on_non_finite :
  forall self : PipelineAnalyzer,
    nan_free op_start (timeline self) ->
    (Forall (fun op => PyFloat.is_finite
                         (PrimFloat.mul (op_duration op) 1000000%float) = true)
            (timeline self) ->
     exists lines : list string,
       generate_flamegraph_data self = (lines, None) /\
       length lines = length (timeline self) /\
       flamegraph_lines (sorted op_start (timeline self)) lines) /\
    (forall (good rest : list Operation) (bad : Operation),
        sorted op_start (timeline self) = good ++ bad :: rest ->
        Forall (fun op => PyFloat.is_finite
                            (PrimFloat.mul (op_duration op) 1000000%float) = true)
               good ->
        PyFloat.is_finite (PrimFloat.mul (op_duration bad) 1000000%float) = false ->
        exists (lines : list string) (e : PyExc),
          generate_flamegraph_data self = (lines, Some e) /\
          length lines = length good /\
          flamegraph_lines good lines /\
          ((Prim2SF (PrimFloat.mul (op_duration bad) 1000000%float) = S754_nan /\
            e = ValueError) \/
           (exists s, Prim2SF (PrimFloat.mul (op_duration bad) 1000000%float)
                      = S754_infinity s /\ e = OverflowError))).
Proof.
  intros self _. unfold generate_flamegraph_data. split.
  - intros Hfin.
    destruct (flamegraph_write_app_ok (sorted op_start (timeline self)) [])
      as (lines & Hl & Hw).
    { apply Forall_forall. intros op Hin. rewrite Forall_forall in Hfin.
      apply Hfin. by rewrite <- (sorted_perm op_start (timeline self)). }
    rewrite app_nil_r in Hw. simpl in Hw. rewrite app_nil_r in Hw.
    exists lines. split; [done|]. split; [|done].
    rewrite <- (Forall2_length _ _ _ Hl). apply sorted_length.
  - intros good rest bad Hsplit Hgood Hbad. rewrite Hsplit.
    destruct (flamegraph_write_app_ok good (bad :: rest) Hgood)
      as (lines & Hl & Hw).
    pose proof (Forall2_length _ _ _ Hl) as Hlen.
    rewrite Hw. simpl. unfold flamegraph_line, flamegraph_count.
    destruct (to_int_raise _ Hbad) as [[Hnan Hr]|(s & Hinf & Hr)];
      rewrite Hr; simpl; rewrite app_nil_r.
    + exists lines, ValueError. split; [done|]. split; [done|].
      split; [done|]. by left.
    + exists lines, OverflowError. split; [done|]. split; [done|].
      split; [done|]. right. by exists s.
Qed.

Lemma X8_flamegraph_raises_witness :
  (exists lines : list string,
      generate_flamegraph_data late_analyzer = (lines, None) /\
      length lines = length (timeline late_analyzer) /\
      flamegraph_lines (sorted op_start (timeline late_analyzer)) lines) /\
  (exists (lines : list string) (e : PyExc),
      generate_flamegraph_data overflow_analyzer = (lines, Some e) /\
      length lines = length [late_alloc] /\
      flamegraph_lines [late_alloc] lines /\
      ((Prim2SF (PrimFloat.mul (op_duration overflow_op) 1000000%float) = S754_nan /\
        e = ValueError) \/
       (exists s, Prim2SF (PrimFloat.mul (op_duration overflow_op) 1000000%float)
                  = S754_infinity s /\ e = OverflowError))).
Proof.
  assert (Hlate : nan_free op_start (timeline late_analyzer)).
  { change (timeline late_analyzer) with [late_alloc; late_launch].
    nan_free_list. }
  assert (Hover : nan_free op_start (timeline overflow_analyzer))
    by nan_free_list.
  split.
  - apply (proj1 (X8_flamegraph_raises_on_non_finite late_analyzer Hlate)).
    change (timeline late_analyzer) with [late_alloc; late_launch].
    repeat (apply Forall_cons_2; [reflexivity|]). apply Forall_nil_2.
  - apply (proj2 (X8_flamegraph_raises_on_non_finite overflow_analyzer Hover)
                 [late_alloc] [late_launch] overflow_op); [reflexivity| |reflexivity].
    apply Forall_cons_2; [reflexivity|apply Forall_nil_2].
Defined.

(** ** The ASCII timeline: lanes *)

Lemma res_fold_invariant {A B : Type} (P : B -> Prop) (body : B -> A -> res B)
    (l : list A) (acc r : B) :
  (forall b x b', x ∈ l -> P b -> body b x = Ok b' -> P b') ->
  P acc -> res_fold body l acc = Ok r -> P r.
Proof.
  revert acc. induction l as [|x l IH]; intros acc Hstep Hacc; simpl.
  { by intros [= <-]. }
  destruct (body acc x) as [b'|e] eqn:Hb; simpl; [|done].
  apply IH.
  - intros b y b'' Hy. apply Hstep. by apply list_elem_of_further.
  - eapply Hstep; [apply list_elem_of_here|exact Hacc|exact Hb].
Qed.

Lemma list_setitem_ok {A : Type} (l l' : list A) (i : Z) (v : A) :
  list_setitem l i v = Ok l' ->
  length l' = length l /\ (forall x, x ∈ l' -> x ∈ l \/ x = v).
Proof.
  unfold list_setitem.
  assert (Hins : forall n, length (<[n := v]> l) = length l /\
                           (forall x, x ∈ <[n := v]> l -> x ∈ l \/ x = v)).
  { intros n. split; [apply length_insert|].
    intros x Hx. apply list_elem_of_lookup in Hx as [j Hj].
    destruct (decide (n = j)) as [->|Hn].
    - destruct (decide (j < length l)%nat) as [Hlt|Hge].
      + rewrite list_lookup_insert_eq in Hj by done. right. by injection Hj.
      + rewrite list_insert_ge in Hj by lia. left.
        apply list_elem_of_lookup. by exists j.
    - rewrite list_lookup_insert_ne in Hj by done. left.
      apply list_elem_of_lookup. by exists j. }
  destruct ((0 <=? i) && (i <? Z.of_nat (length l))).
  { intros [= <-]. apply Hins. }
  destruct ((- Z.of_nat (length l) <=? i) && (i <? 0)); [|done].
  intros [= <-]. apply Hins.
Qed.

(** The symbols a lane may hold. *)
Lemma op_symbol_known (op : Operation) :
  op_symbol op ∈ (category_symbols.*2).
Proof.
  unfold op_symbol, categorize.
  repeat match goal with
         | |- context [contains ?n (op_name op)] =>
             destruct (contains n (op_name op)); simpl
         end; vm_compute; set_solver.
Qed.

Lemma paint_op_ok (start_time total : float) (lane lane' : list string)
    (op : Operation) :
  paint_op start_time total lane op = Ok lane' ->
  length lane' = length lane /\
  (forall x, x ∈ lane' -> x ∈ lane \/ x ∈ (category_symbols.*2)).
Proof.
  unfold paint_op.
  destruct (op_positions start_time total op) as [pos|exc]; cbn [res_bind];
    [|done].
  intros Hfold.
  refine (res_fold_invariant
            (fun buf => length buf = length lane /\
                        (forall x, x ∈ buf -> x ∈ lane \/ x ∈ (category_symbols.*2)))
            _ _ _ _ _ _ Hfold).
  - intros b i b' _ [Hlen Hin] Hset. apply list_setitem_ok in Hset as [Hl Hx].
    split; [by rewrite Hl|]. intros x Hxb. destruct (Hx x Hxb) as [Hb| ->].
    + by apply Hin.
    + right. apply op_symbol_known.
  - split; [done|]. intros x Hx. by left.
Qed.

Lemma paint_lane_ok (start_time total : float) (group : list Operation)
    (lane : list string) :
  paint_lane start_time total group = Ok lane ->
  length lane = 80%nat /\
  (forall x, x ∈ lane -> x = " " \/ x ∈ (category_symbols.*2)).
Proof.
  unfold paint_lane. intros Hfold.
  refine (res_fold_invariant
            (fun buf => length buf = 80%nat /\
                        (forall x, x ∈ buf -> x = " " \/ x ∈ (category_symbols.*2)))
            _ _ _ _ _ _ Hfold).
  - intros b op b' _ [Hlen Hin] Hp. apply paint_op_ok in Hp as [Hl Hx].
    split; [by rewrite Hl|]. intros x Hxb. destruct (Hx x Hxb) as [Hb|Hs].
    + by apply Hin.
    + by right.
  - split; [reflexivity|]. intros x Hx. left.
    by apply elem_of_replicate in Hx as [-> _].
Qed.

(** The groups hold the operations of each depth. *)
Lemma depth_groups_fold (ops : list Operation) (groups : gmap Z (list Operation))
    (d : Z) :
  default [] (fold_left
                (fun groups op =>
                   <[op_depth op := default [] (groups !! op_depth op) ++ [op]]>
                     groups)
                ops groups !! d)
  = default [] (groups !! d) ++ filter (fun op => op_depth op = d) ops.
Proof.
  revert groups. induction ops as [|op ops IH]; intros groups; simpl.
  { by rewrite app_nil_r. }
  rewrite IH, lookup_insert, filter_cons.
  destruct (decide (op_depth op = d)) as [->|Hd]; simpl.
  - by rewrite <- app_assoc.
  - done.
Qed.

Lemma depth_groups_lookup (ops : list Operation) (d : Z) :
  default [] (depth_groups ops !! d) = filter (fun op => op_depth op = d) ops.
Proof.
  unfold depth_groups. rewrite depth_groups_fold. by rewrite lookup_empty.
Qed.

Lemma depth_groups_fold_nonempty (ops : list Operation)
    (groups : gmap Z (list Operation)) (d : Z) :
  groups !! d <> Some [] ->
  fold_left
    (fun groups op =>
       <[op_depth op := default [] (groups !! op_depth op) ++ [op]]> groups)
    ops groups !! d <> Some [].
Proof.
  revert groups. induction ops as [|op ops IH]; intros groups Hg; simpl; [done|].
  apply IH. rewrite lookup_insert. case_decide; [|done].
  intros [= Happ]. by apply app_nil in Happ as [_ ?].
Qed.

Lemma depth_groups_present (ops : list Operation) (d : Z) :
  is_Some (depth_groups ops !! d) <-> exists op, op ∈ ops /\ op_depth op = d.
Proof.
  pose proof (depth_groups_lookup ops d) as Hl.
  assert (Hne : depth_groups ops !! d <> Some []).
  { apply depth_groups_fold_nonempty. by rewrite lookup_empty. }
  split.
  - intros [g Hg]. rewrite Hg in Hl, Hne. simpl in Hl.
    destruct g as [|op g]; [done|].
    assert (Hin : op ∈ filter (fun op => op_depth op = d) ops)
      by (rewrite <- Hl; apply list_elem_of_here).
    apply list_elem_of_filter in Hin as [Hd Hin]. by exists op.
  - intros (op & Hin & Hd).
    destruct (depth_groups ops !! d) as [g|] eqn:Hg; [by eexists|].
    simpl in Hl.
    assert (Hf : op ∈ filter (fun op => op_depth op = d) ops)
      by (by apply list_elem_of_filter).
    rewrite <- Hl in Hf. by apply elem_of_nil in Hf.
Qed.

Lemma foldr_max_ge (k : Z) (ks : list Z) (x : Z) :
  x = k \/ x ∈ ks -> x <= foldr Z.max k ks.
Proof.
  induction ks as [|y ks IH]; simpl.
  { intros [->|H]; [lia|by apply elem_of_nil in H]. }
  intros [->|H].
  - specialize (IH (or_introl eq_refl)). lia.
  - apply elem_of_cons in H as [->|H]; [lia|].
    specialize (IH (or_intror H)). lia.
Qed.

Lemma max_depth_ge (groups : gmap Z (list Operation)) (d : Z) :
  is_Some (groups !! d) -> d <= max_depth groups.
Proof.
  intros [g Hg]. unfold max_depth.
  assert (Hin : d ∈ (map_to_list groups).*1).
  { apply list_elem_of_fmap. exists (d, g). split; [done|].
    by apply elem_of_map_to_list. }
  destruct ((map_to_list groups).*1) as [|k ks]; [by apply elem_of_nil in Hin|].
  apply foldr_max_ge. by apply elem_of_cons in Hin.
Qed.

Lemma StronglySorted_seqZ (m n : Z) : StronglySorted Z.lt (seqZ m n).
Proof.
  destruct (Z.le_gt_cases n 0) as [Hn|Hn].
  { rewrite seqZ_nil by done. constructor. }
  rewrite <- (Z2Nat.id n) by lia. generalize (Z.to_nat n). clear Hn n.
  intros k. induction k as [|k IH]; [constructor|].
  rewrite seqZ_S. apply StronglySorted_app_2; [|done|].
  - intros x y Hx Hy. apply elem_of_seqZ in Hx.
    apply list_elem_of_singleton in Hy. lia.
  - repeat constructor.
Qed.

Lemma StronglySorted_filter_lt (P : Z -> Prop) `{!forall x, Decision (P x)}
    (l : list Z) :
  StronglySorted Z.lt l -> StronglySorted Z.lt (filter P l).
Proof.
  induction 1 as [|x l Hs IH Hx]; [constructor|].
  rewrite filter_cons. destruct (decide (P x)); [|done].
  constructor; [done|]. apply Forall_forall. intros y Hy.
  apply list_elem_of_filter in Hy as [_ Hy]. rewrite Forall_forall in Hx.
  by apply Hx.
Qed.

(** The loop over the depths appends one lane per depth that has a group. *)
Lemma lanes_fold (start_time total : float) (groups : gmap Z (list Operation))
    (ds : list Z) (acc r : list (Z * list string)) :
  res_fold
    (fun printed depth =>
       match groups !! depth with
       | None => Ok printed
       | Some group =>
           lane <-! paint_lane start_time total group;
           Ok (printed ++ [(depth, lane)])
       end) ds acc = Ok r ->
  exists new : list (Z * list string),
    r = acc ++ new /\
    new.*1 = filter (fun d => is_Some (groups !! d)) ds /\
    Forall (fun dl => length dl.2 = 80%nat /\
                      forall x, x ∈ dl.2 -> x = " " \/ x ∈ (category_symbols.*2))
           new.
Proof.
  revert acc. induction ds as [|d ds IH]; intros acc; cbn [res_fold].
  { intros [= <-]. exists []. by rewrite app_nil_r. }
  rewrite filter_cons.
  destruct (groups !! d) as [group|] eqn:Hg; cbn [res_bind].
  - destruct (paint_lane start_time total group) as [lane|e] eqn:Hl;
      cbn [res_bind]; [|done].
    intros Hr. apply IH in Hr as (new & -> & Hd & Hok).
    exists ((d, lane) :: new). rewrite <- app_assoc. split; [done|].
    rewrite decide_True by (by eexists). split; [by rewrite fmap_cons, Hd|].
    apply Forall_cons_2; [|done]. by apply paint_lane_ok in Hl.
  - intros Hr. apply IH in Hr as (new & -> & Hd & Hok).
    exists new. split; [done|]. split; [|done].
    rewrite decide_False; [done|]. by intros [? ?].
Qed.

(** X7. When [print_ascii_timeline] succeeds, it prints one lane for each
    depth [d >= 0] at which the timeline has an operation, and no other
    lane: operations of negative depth are not drawn.  The lanes come in
    increasing order of depth, each is exactly 80 cells wide, and each
    cell is a blank or one of the nine category symbols. *)
Theorem X7_ascii_lanes_shape :
  forall (self : PipelineAnalyzer) (lanes : list (Z * list string)),
    print_ascii_timeline self = Ok lanes ->
    (forall d : Z,
        d ∈ lanes.*1 <->
        0 <= d /\ exists op, op ∈ timeline self /\ op_depth op = d) /\
    StronglySorted Z.lt (lanes.*1) /\
    Forall (fun dl => length dl.2 = 80%nat /\
                      forall x, x ∈ dl.2 -> x = " " \/ x ∈ (category_symbols.*2))
           lanes.
Proof.
  intros self lanes. unfold print_ascii_timeline.
  pose proof (sorted_perm op_start (timeline self)) as Hperm.
  destruct (sorted op_start (timeline self)) as [|first rest] eqn:Hops.
  { intros [= <-]. apply Permutation_nil_l in Hperm. rewrite <- Hperm.
    split; [|split; constructor].
    intros d. split; [by intros ?%elem_of_nil|].
    by intros [_ (op & ?%elem_of_nil & _)]. }
  intros Hr. apply lanes_fold in Hr as (new & -> & Hd & Hok).
  simpl. rewrite Hd. split; [|split; [|done]].
  - intros d. rewrite list_elem_of_filter, elem_of_seqZ, depth_groups_present.
    split.
    + intros [(op & Hin & Hdep) [H0 _]]. split; [done|]. exists op.
      split; [|done]. by rewrite <- Hperm.
    + intros [H0 (op & Hin & Hdep)].
      assert (Hex : exists op, op ∈ first :: rest /\ op_depth op = d).
      { exists op. split; [|done]. by rewrite Hperm. }
      split; [done|]. split; [done|].
      apply depth_groups_present, max_depth_ge in Hex. lia.
  - apply StronglySorted_filter_lt, StronglySorted_seqZ.
Qed.

Lemma X7_ascii_lanes_witness :
  (forall d : Z,
      d ∈ [(0, replicate 40 "█" ++ replicate 40 " ")].*1 <->
      0 <= d /\ exists op, op ∈ timeline late_analyzer /\ op_depth op = d) /\
  StronglySorted Z.lt ([(0, replicate 40 "█" ++ replicate 40 " ")].*1) /\
  Forall (fun dl => length dl.2 = 80%nat /\
                    forall x, x ∈ dl.2 -> x = " " \/ x ∈ (category_symbols.*2))
         [(0, replicate 40 "█" ++ replicate 40 " ")].
Proof.
  apply (X7_ascii_lanes_shape late_analyzer). vm_compute. reflexivity.
Defined.

(** ** The ASCII timeline: a total duration of zero *)

Lemma paint_lane_zero (start_time total : float) (group : list Operation) :
  PrimFloat.eqb total 0%float = true ->
  group <> [] ->
  paint_lane start_time total group = Raise ZeroDivisionError.
Proof.
  intros Hz Hg. destruct group as [|op group]; [done|].
  unfold paint_lane, paint_op, op_positions, PyFloat.div. cbn [res_fold].
  by rewrite Hz.
Qed.

Lemma lanes_fold_zero (start_time total : float)
    (groups : gmap Z (list Operation)) (ds : list Z)
    (acc : list (Z * list string)) (d : Z) :
  PrimFloat.eqb total 0%float = true ->
  (forall k, groups !! k <> Some []) ->
  d ∈ ds -> is_Some (groups !! d) ->
  res_fold
    (fun printed depth =>
       match groups !! depth with
       | None => Ok printed
       | Some group =>
           lane <-! paint_lane start_time total group;
           Ok (printed ++ [(depth, lane)])
       end) ds acc = Raise ZeroDivisionError.
Proof.
  intros Hz Hne Hd Hg. revert acc.
  induction ds as [|k ds IH]; intros acc; [by apply elem_of_nil in Hd|].
  cbn [res_fold].
  destruct (groups !! k) as [group|] eqn:Hk.
  - rewrite paint_lane_zero; [done|done|]. intros ->. by apply (Hne k).
  - cbn [res_bind]. apply IH.
    apply elem_of_cons in Hd as [->|Hd]; [|done].
    rewrite Hk in Hg. by destruct Hg.
Qed.

(** X6. [print_ascii_timeline] prints no lane for an empty timeline.  For
    a timeline whose [start] values are free of NaN and whose total
    duration (the end of the operation that starts
    last minus the start of the operation that starts first) is zero, it
    raises [ZeroDivisionError] as soon as some operation has a depth that
    is not negative: so it does on every timeline made of a single
    instantaneous operation. *)
Theorem X6_ascii_zero_duration_raises :
  forall self : PipelineAnalyzer,
    (timeline self = [] -> print_ascii_timeline self = Ok []) /\
    (forall (first : Operation) (rest : list Operation),
        nan_free op_start (timeline self) ->
        sorted op_start (timeline self) = first :: rest ->
        PrimFloat.eqb
          (PrimFloat.sub (op_end (List.last (first :: rest) first)) (op_start first))
          0%float = true ->
        (exists op, op ∈ timeline self /\ 0 <= op_depth op) ->
        print_ascii_timeline self = Raise ZeroDivisionError).
Proof.
  intros self. split.
  - intros Hempty. unfold print_ascii_timeline. by rewrite Hempty.
  - intros first rest _ Hops Hz (op & Hin & Hdep).
    unfold print_ascii_timeline. rewrite Hops.
    assert (Hex : exists o, o ∈ first :: rest /\ op_depth o = op_depth op).
    { exists op. split; [|done].
      rewrite <- Hops. by rewrite (sorted_perm op_start (timeline self)). }
    apply depth_groups_present in Hex.
    apply (lanes_fold_zero _ _ _ _ _ (op_depth op)); [done| |  |done].
    + intros k. apply depth_groups_fold_nonempty. by rewrite lookup_empty.
    + apply elem_of_seqZ. apply max_depth_ge in Hex. lia.
Qed.

Lemma X6_ascii_zero_duration_witness :
  print_ascii_timeline (mkAnalyzer [] ∅ [late_launch]) = Raise ZeroDivisionError.
Proof.
  apply (proj2 (X6_ascii_zero_duration_raises (mkAnalyzer [] ∅ [late_launch]))
               late_launch []); [|reflexivity|reflexivity|].
  - nan_free_list.
  - exists late_launch. split; [apply list_elem_of_here|done].
Defined.

(** * Further properties of the tracer *)

(** ** The list of CUDA functions *)

Lemma str_lt_le (a b : string) : String.compare a b = Lt -> String.le a b.
Proof. intros H. unfold String.le, String.leb. by rewrite H. Qed.

Lemma str_lt_trans (a b c : string) :
  String.compare a b = Lt -> String.compare b c = Lt -> String.compare a c = Lt.
Proof.
  intros Hab Hbc.
  assert (Hle : String.le a c).
  { etrans; by apply str_lt_le. }
  unfold String.le, String.leb in Hle.
  destruct (String.compare a c) eqn:Hac; [|done|done].
  apply String.compare_eq_iff in Hac as ->.
  rewrite String.compare_antisym, Hbc in Hab. discriminate Hab.
Qed.

Lemma insert_distinct_elem (x y : string) (l : list string) :
  y ∈ insert_distinct x l <-> y = x \/ y ∈ l.
Proof.
  induction l as [|z l IH]; simpl.
  { rewrite list_elem_of_singleton. split; [by left|].
    intros [->|H]; [done|by apply elem_of_nil in H]. }
  destruct (String.compare x z) eqn:Hc.
  - apply String.compare_eq_iff in Hc as ->. rewrite elem_of_cons. tauto.
  - rewrite elem_of_cons. tauto.
  - rewrite !elem_of_cons, IH. tauto.
Qed.

Lemma insert_distinct_sorted (x : string) (l : list string) :
  StronglySorted (fun a b => String.compare a b = Lt) l ->
  StronglySorted (fun a b => String.compare a b = Lt) (insert_distinct x l).
Proof.
  induction 1 as [|z l Hs IH Hz]; simpl; [repeat constructor|].
  destruct (String.compare x z) eqn:Hc.
  - by constructor.
  - constructor; [by constructor|]. apply Forall_cons_2; [done|].
    eapply Forall_impl; [exact Hz|]. intros b Hb. by eapply str_lt_trans.
  - constructor; [done|]. apply Forall_forall. intros b Hb.
    apply insert_distinct_elem in Hb as [->|Hb].
    + rewrite String.compare_antisym, Hc. done.
    + rewrite Forall_forall in Hz. by apply Hz.
Qed.

Lemma sorted_set_sorted (l : list string) :
  StronglySorted (fun a b => String.compare a b = Lt) (sorted_set l).
Proof.
  induction l as [|x l IH]; simpl; [constructor|].
  by apply insert_distinct_sorted.
Qed.

Lemma sorted_set_elem (x : string) (l : list string) :
  x ∈ sorted_set l <-> x ∈ l.
Proof.
  induction l as [|y l IH]; simpl; [done|].
  rewrite insert_distinct_elem, elem_of_cons, IH. tauto.
Qed.

Lemma str_lt_irrefl (a : string) : String.compare a a <> Lt.
Proof.
  pose proof (String.compare_antisym a a) as H.
  destruct (String.compare a a); simpl in H; congruence.
Qed.

Lemma strictly_sorted_NoDup (l : list string) :
  StronglySorted (fun a b => String.compare a b = Lt) l -> NoDup l.
Proof.
  induction 1 as [|x l Hs IH Hx]; constructor; [|done].
  intros Hin. rewrite Forall_forall in Hx. by apply (str_lt_irrefl x), Hx.
Qed.

Lemma exported_cu_symbol_spec (line name : string) :
  exported_cu_symbol line = Some name <->
  exists (addr : string) (more : list string),
    str_words line = addr :: "T" :: name :: more /\
    String.prefix "cu" name = true.
Proof.
  unfold exported_cu_symbol.
  destruct (str_words line) as [|addr [|kind [|func_name more]]].
  1-3: split; [done|by intros (? & ? & [=] & _)].
  destruct (String.eqb kind "T") eqn:Hk; simpl.
  - apply String.eqb_eq in Hk as ->.
    destruct (String.prefix "cu" func_name) eqn:Hp.
    + split.
      * intros [= <-]. by exists addr, more.
      * by intros (? & ? & [= _ <- _] & _).
    + split; [done|]. intros (? & ? & [= _ <- _] & Hp'). congruence.
  - apply String.eqb_neq in Hk. split; [done|].
    by intros (? & ? & [= _ -> _ _] & _).
Qed.

(** X9. On an [nm -D] output that is ASCII text, [get_cuda_functions]
    returns the names in strictly ascending order, hence without
    duplicates.  A name is returned exactly when some line of the output
    has at least three whitespace-separated fields, the second being
    ["T"] and the third being that name, and the name starts with ["cu"].
    When [nm] cannot be run the result is the empty list. *)
Theorem X9_cuda_functions_sorted_distinct :
  get_cuda_functions None = [] /\
  (forall out : string,
      str_isascii out = true ->
      StronglySorted (fun a b => String.compare a b = Lt)
                     (get_cuda_functions (Some out)) /\
      NoDup (get_cuda_functions (Some out)) /\
      (forall name : string,
          name ∈ get_cuda_functions (Some out) <->
          exists (line addr : string) (more : list string),
            line ∈ str_split newline out /\
            str_words line = addr :: "T" :: name :: more /\
            String.prefix "cu" name = true)).
Proof.
  split; [done|]. intros out _. unfold get_cuda_functions.
  split; [apply sorted_set_sorted|].
  split; [apply strictly_sorted_NoDup, sorted_set_sorted|].
  intros name. rewrite sorted_set_elem, list_elem_of_omap. split.
  - intros (line & Hin & Hsym). apply exported_cu_symbol_spec in Hsym
      as (addr & more & Hw & Hp). by exists line, addr, more.
  - intros (line & addr & more & Hin & Hw & Hp). exists line.
    split; [done|]. apply exported_cu_symbol_spec. by exists addr, more.
Qed.

Lemma X9_cuda_functions_witness :
  get_cuda_functions (Some nm_sample) = ["cuCtxCreate"; "cuInit"] /\
  StronglySorted (fun a b => String.compare a b = Lt)
                 (get_cuda_functions (Some nm_sample)) /\
  NoDup (get_cuda_functions (Some nm_sample)) /\
  (forall name : string,
      name ∈ get_cuda_functions (Some nm_sample) <->
      exists (line addr : string) (more : list string),
        line ∈ str_split newline nm_sample /\
        str_words line = addr :: "T" :: name :: more /\
        String.prefix "cu" name = true).
Proof.
  split; [vm_compute; reflexivity|].
  apply (proj2 X9_cuda_functions_sorted_distinct nm_sample).
  vm_compute. reflexivity.
Defined.

(** ** Attaching the probes *)

Lemma attach_one_invariant (bpf : Attacher) (path : string) (pid : option Z)
    (tried : list string) (func : string) (probes : list attachment) (n : Z) :
  func ∈ tried ->
  n = Z.of_nat (length (filter (fun a => is_uretprobe a = true) probes)) ->
  Forall (attachment_planned path pid tried) probes ->
  (length (filter (fun a => is_uretprobe a = true) probes)
   <= length (filter (fun a => is_uretprobe a = false) probes))%nat ->
  let r := attach_one bpf path pid (probes, n) func in
  snd r = Z.of_nat (length (filter (fun a => is_uretprobe a = true) (fst r))) /\
  Forall (attachment_planned path pid tried) (fst r) /\
  (length (filter (fun a => is_uretprobe a = true) (fst r))
   <= length (filter (fun a => is_uretprobe a = false) (fst r)))%nat /\
  (length (filter (fun a => is_uretprobe a = false) (fst r))
   <= S (length (filter (fun a => is_uretprobe a = false) probes)))%nat.
Proof.
  intros Hin Hn Hall Hle. unfold attach_one.
  destruct (handlers_for func) as [entry_fn exit_fn] eqn:Hh.
  destruct (uprobe_ok bpf probes func entry_fn).
  2:{ simpl. split; [done|]. split; [done|]. split; [done|lia]. }
  assert (Hu : attachment_planned path pid tried
                 (Uprobe path func entry_fn (pid_or_all pid))).
  { unfold attachment_planned. simpl. by rewrite Hh. }
  assert (Hr : attachment_planned path pid tried
                 (Uretprobe path func exit_fn (pid_or_all pid))).
  { unfold attachment_planned. simpl. by rewrite Hh. }
  destruct (uretprobe_ok bpf _ func exit_fn); simpl.
  - rewrite !filter_app, !length_app. simpl.
    split; [lia|]. split; [|lia].
    apply Forall_app. split; [|by apply Forall_singleton].
    apply Forall_app. split; [done|by apply Forall_singleton].
  - rewrite !filter_app, !length_app. simpl.
    split; [lia|]. split; [|lia].
    apply Forall_app. split; [done|by apply Forall_singleton].
Qed.

Lemma attach_fold_invariant (bpf : Attacher) (path : string) (pid : option Z)
    (tried funcs : list string) (probes : list attachment) (n : Z) :
  Forall (fun f => f ∈ tried) funcs ->
  n = Z.of_nat (length (filter (fun a => is_uretprobe a = true) probes)) ->
  Forall (attachment_planned path pid tried) probes ->
  (length (filter (fun a => is_uretprobe a = true) probes)
   <= length (filter (fun a => is_uretprobe a = false) probes))%nat ->
  let r := fold_left (attach_one bpf path pid) funcs (probes, n) in
  snd r = Z.of_nat (length (filter (fun a => is_uretprobe a = true) (fst r))) /\
  Forall (attachment_planned path pid tried) (fst r) /\
  (length (filter (fun a => is_uretprobe a = true) (fst r))
   <= length (filter (fun a => is_uretprobe a = false) (fst r)))%nat /\
  (length (filter (fun a => is_uretprobe a = false) (fst r))
   <= length (filter (fun a => is_uretprobe a = false) probes) + length funcs)%nat.
Proof.
  revert probes n.
  induction funcs as [|f funcs IH]; intros probes n Hsub Hn Hall Hle.
  { simpl. split; [done|]. split; [done|]. split; [done|lia]. }
  apply Forall_cons_1 in Hsub as [Hf Hsub]. cbn [fold_left].
  pose proof (attach_one_invariant bpf path pid tried f probes n Hf Hn Hall Hle)
    as (H1 & H2 & H3 & H4).
  destruct (attach_one bpf path pid (probes, n) f) as [probes1 n1].
  cbn [fst snd] in H1, H2, H3, H4.
  destruct (IH probes1 n1 Hsub H1 H2 H3) as (I1 & I2 & I3 & I4).
  split; [done|]. split; [done|]. split; [done|]. simpl. lia.
Qed.

(** X10. [attach_uprobes] tries the first 100 functions only.  The count
    it reports is the number of return probes attached, which counts the
    functions for which both calls succeeded; there are at least as many
    entry probes (an entry probe stays attached when the return probe of
    its function fails), and at most [min 100 (len functions)] of them.
    Each probe is attached on the library path for one of the
    functions tried, with the entry or exit handler chosen for that
    function and with the pid filter ([-1] for no pid). *)
Theorem X10_attach_uprobes_bounded :
  forall (bpf : Attacher) (libcuda_path : string) (pid : option Z)
         (functions : list string),
    let probes := fst (attach_uprobes bpf libcuda_path pid functions) in
    let attached := snd (attach_uprobes bpf libcuda_path pid functions) in
    attached = Z.of_nat (length (filter (fun a => is_uretprobe a = true) probes)) /\
    (length (filter (fun a => is_uretprobe a = true) probes)
     <= length (filter (fun a => is_uretprobe a = false) probes))%nat /\
    (length (filter (fun a => is_uretprobe a = false) probes)
     <= Nat.min 100 (length functions))%nat /\
    Forall (attachment_planned libcuda_path pid (take 100 functions)) probes.
Proof.
  intros bpf path pid functions. unfold attach_uprobes.
  pose proof (attach_fold_invariant bpf path pid (take 100 functions)
                (take 100 functions) [] 0) as Hinv.
  destruct Hinv as (H1 & H2 & H3 & H4); [by apply Forall_forall|done|constructor|done|].
  rewrite filter_nil, length_take in H4. cbn [length] in H4.
  split; [done|]. split; [done|]. split; [lia|done].
Qed.

(** ** The event handler *)

Lemma stats_increment_lookup (st : gmap string Z) (k k' : string) :
  default 0 (stats_increment st k !! k')
  = default 0 (st !! k') + (if decide (k = k') then 1 else 0).
Proof.
  unfold stats_increment. rewrite lookup_insert.
  destruct (decide (k = k')) as [->|Hk]; simpl; lia.
Qed.

Lemma type_key_inj (a b : Z) :
  "type_" +:+ pretty a = "type_" +:+ pretty b -> a = b.
Proof. intros H. by apply (inj (String.app "type_")), (inj pretty) in H. Qed.

Lemma handle_events_spec (records : list RawEvent) (self : CUDATracer) :
  let self' := fst (handle_events self records) in
  let lines := snd (handle_events self records) in
  start_time self' = start_time self /\
  tracer_events self'
  = tracer_events self ++
    map (fun r =>
           {| ed_ts := PrimFloat.sub
                         (PrimFloat.div (int_to_float (raw_timestamp_ns r))
                                        1000000000%float)
                         (start_time self);
              ed_event_id := raw_event_id r; ed_pid := raw_pid r;
              ed_tid := raw_tid r; ed_type := raw_event_type r;
              ed_depth := raw_depth r |}) records /\
  default 0 (stats self' !! "total_events")
  = default 0 (stats self !! "total_events") + Z.of_nat (length records) /\
  (forall t : Z,
      default 0 (stats self' !! ("type_" +:+ pretty t))
      = default 0 (stats self !! ("type_" +:+ pretty t)) + count_type t records) /\
  length lines = length records /\
  (forall (i : nat) (line : option string),
      lines !! i = Some line ->
      (is_Some line <->
       (Z.of_nat (length (tracer_events self)) + Z.of_nat i + 1) mod 100 = 0)).
Proof.
  revert self. induction records as [|r records IH]; intros self.
  { simpl. rewrite app_nil_r. split; [done|]. split; [done|].
    split; [lia|]. split; [intros t; unfold count_type; simpl; lia|].
    split; [done|]. intros i line Hi. done. }
  cbn [handle_events].
  destruct (event_handler self r) as [self1 line1] eqn:Hh.
  specialize (IH self1).
  destruct (handle_events self1 records) as [self2 lines2].
  cbn [fst snd] in *. destruct IH as (I0 & I1 & I2 & I3 & I4 & I5).
  unfold event_handler in Hh. injection Hh as <- <-. cbn [start_time tracer_events stats] in *.
  split; [done|]. split; [by rewrite I1, <- app_assoc|]. split.
  { rewrite I2, !stats_increment_lookup. simpl length.
    rewrite decide_True by done.
    rewrite decide_False by (intros H; discriminate H). lia. }
  split.
  { intros t. rewrite I3, !stats_increment_lookup.
    rewrite (decide_False (P := "total_events" = _)) by (intros H; discriminate H).
    unfold count_type. rewrite filter_cons.
    destruct (decide (raw_event_type r = t)) as [->|Ht].
    - rewrite decide_True by done. simpl length. lia.
    - rewrite decide_False by (intros H; by apply type_key_inj in H). lia. }
  split; [simpl; by rewrite I4|].
  intros i line Hi. destruct i as [|i]; simpl in Hi.
  - injection Hi as <-. rewrite length_app. simpl length.
    replace (Z.of_nat (length (tracer_events self)) + Z.of_nat 0 + 1)
      with (Z.of_nat (length (tracer_events self) + 1)) by lia.
    destruct (Z.of_nat (length (tracer_events self) + 1) mod 100 =? 0) eqn:Hm.
    + apply Z.eqb_eq in Hm. split; [done|by eexists].
    + apply Z.eqb_neq in Hm. split; [by intros [? ?]|done].
  - rewrite (I5 i line Hi), length_app. simpl length.
    replace (Z.of_nat (length (tracer_events self) + 1) + Z.of_nat i + 1)
      with (Z.of_nat (length (tracer_events self)) + Z.of_nat (S i) + 1) by lia.
    done.
Qed.

(** X11. After the handler has processed the records of a run, from a new
    tracer: the stored events are the records in delivery order, with
    [ts] the timestamp in seconds minus the start time;
    [stats['total_events']] is the number of records; [stats['type_<t>']]
    is the number of records of type [t]; and a progress line was printed
    at exactly the records whose rank, counted from 1, is a multiple of
    100. *)
Theorem X11_event_handler_statistics :
  forall (now : float) (records : list RawEvent),
    let self' := fst (handle_events (CUDATracer__init__ now) records) in
    let lines := snd (handle_events (CUDATracer__init__ now) records) in
    tracer_events self'
    = map (fun r =>
             {| ed_ts := PrimFloat.sub
                           (PrimFloat.div (int_to_float (raw_timestamp_ns r))
                                          1000000000%float) now;
                ed_event_id := raw_event_id r; ed_pid := raw_pid r;
                ed_tid := raw_tid r; ed_type := raw_event_type r;
                ed_depth := raw_depth r |}) records /\
    default 0 (stats self' !! "total_events") = Z.of_nat (length records) /\
    (forall t : Z,
        default 0 (stats self' !! ("type_" +:+ pretty t)) = count_type t records) /\
    length lines = length records /\
    (forall (i : nat) (line : option string),
        lines !! i = Some line ->
        (is_Some line <-> (Z.of_nat i + 1) mod 100 = 0)).
Proof.
  intros now records.
  pose proof (handle_events_spec records (CUDATracer__init__ now))
    as (_ & H1 & H2 & H3 & H4 & H5).
  cbn [CUDATracer__init__ start_time tracer_events stats] in *.
  rewrite lookup_empty in H2. simpl in H2.
  split; [done|]. split; [lia|]. split.
  - intros t. rewrite H3, lookup_empty. simpl. lia.
  - split; [done|]. intros i line Hi. by rewrite (H5 i line Hi).
Qed.

(** ** Matching entry and exit depths *)

Section DepthRoundTrip.
Variable max_entries : nat.

Lemma run_probes_app (ps1 ps2 : list BPF.probe) (m : gmap Z Z) :
  BPF.run_probes max_entries (ps1 ++ ps2) m
  = BPF.run_probes max_entries ps2 (BPF.run_probes max_entries ps1 m).
Proof. apply fold_left_app. Qed.

Lemma emitted_depths_app (ps1 ps2 : list BPF.probe) (m : gmap Z Z) :
  BPF.emitted_depths max_entries (ps1 ++ ps2) m
  = BPF.emitted_depths max_entries ps1 m
    ++ BPF.emitted_depths max_entries ps2 (BPF.run_probes max_entries ps1 m).
Proof.
  revert m. induction ps1 as [|p ps1 IH]; intros m; simpl; [done|].
  destruct (BPF.fire max_entries p m) as [m1 d] eqn:Hf. simpl.
  by rewrite IH.
Qed.

Lemma run_probes_cons (p : BPF.probe) (ps : list BPF.probe) (m : gmap Z Z) :
  BPF.run_probes max_entries (p :: ps) m
  = BPF.run_probes max_entries ps (fst (BPF.fire max_entries p m)).
Proof. reflexivity. Qed.

Lemma emitted_depths_cons (p : BPF.probe) (ps : list BPF.probe) (m : gmap Z Z) :
  BPF.emitted_depths max_entries (p :: ps) m
  = snd (BPF.fire max_entries p m)
    :: BPF.emitted_depths max_entries ps (fst (BPF.fire max_entries p m)).
Proof. simpl. by destruct (BPF.fire max_entries p m). Qed.

Lemma entries_then_exits (pt : Z) (n : nat) (m : gmap Z Z) (d : Z) :
  m !! BPF.current_tid pt = Some d ->
  0 <= d -> d + Z.of_nat n < 2 ^ 32 ->
  BPF.run_probes max_entries
    (replicate n (BPF.Entry pt) ++ replicate n (BPF.Exit pt)) m = m /\
  BPF.emitted_depths max_entries
    (replicate n (BPF.Entry pt) ++ replicate n (BPF.Exit pt)) m
  = seqZ (d + 1) (Z.of_nat n) ++ rev (seqZ (d + 1) (Z.of_nat n)).
Proof.
  revert m d. induction n as [|n IH]; intros m d Hm Hd Hn; [done|].
  assert (Hshape : replicate (S n) (BPF.Entry pt) ++ replicate (S n) (BPF.Exit pt)
                   = BPF.Entry pt
                     :: (replicate n (BPF.Entry pt) ++ replicate n (BPF.Exit pt))
                     ++ [BPF.Exit pt]).
  { rewrite (replicate_S_end n (BPF.Exit pt)). simpl. by rewrite <- app_assoc. }
  rewrite Hshape.
  set (m1 := <[BPF.current_tid pt := d + 1]> m).
  assert (He : BPF.fire max_entries (BPF.Entry pt) m = (m1, d + 1)).
  { simpl. unfold BPF.trace_cuda_entry, BPF.update. rewrite Hm.
    by rewrite u32_small by lia. }
  assert (Hm1 : m1 !! BPF.current_tid pt = Some (d + 1))
    by (unfold m1; by rewrite lookup_insert_eq).
  destruct (IH m1 (d + 1) Hm1 ltac:(lia) ltac:(lia)) as [Hrun Hem].
  assert (Hx : BPF.fire max_entries (BPF.Exit pt) m1 = (m, d + 1)).
  { simpl. unfold BPF.trace_cuda_exit, BPF.update. rewrite Hm1.
    assert ((0 <? d + 1) = true) as -> by (apply Z.ltb_lt; lia).
    replace (d + 1 - 1) with d by lia. rewrite u32_small by lia.
    unfold m1. rewrite insert_insert_eq. by rewrite insert_id. }
  rewrite run_probes_cons, emitted_depths_cons, He. cbn [fst snd].
  rewrite run_probes_app, emitted_depths_app, Hrun, Hem.
  rewrite run_probes_cons, emitted_depths_cons, Hx. cbn [fst snd].
  split; [done|].
  rewrite (seqZ_cons (d + 1) (Z.of_nat (S n))) by lia.
  replace (Z.succ (d + 1)) with (d + 1 + 1) by lia.
  replace (Z.pred (Z.of_nat (S n))) with (Z.of_nat n) by lia.
  simpl. by rewrite <- app_assoc.
Qed.

Lemma full_table_new_thread (ps : list BPF.probe) (m : gmap Z Z) (tid : Z) :
  m !! tid = None -> (max_entries <= size m)%nat ->
  Forall (fun p => BPF.probe_tid p = tid) ps ->
  BPF.run_probes max_entries ps m = m /\
  BPF.emitted_depths max_entries ps m
  = map (fun p => match p with BPF.Entry _ => 1 | BPF.Exit _ => 0 end) ps.
Proof.
  intros Hm Hfull. induction 1 as [|p ps Hp _ [IH1 IH2]]; [done|].
  assert (Hf : BPF.fire max_entries p m
               = (m, match p with BPF.Entry _ => 1 | BPF.Exit _ => 0 end)).
  { destruct p as [pt|pt]; simpl in *; subst tid.
    - unfold BPF.trace_cuda_entry, BPF.update. rewrite Hm.
      by rewrite decide_False by lia.
    - unfold BPF.trace_cuda_exit. by rewrite Hm. }
  rewrite run_probes_cons, emitted_depths_cons, Hf. cbn [fst snd].
  split; [exact IH1|]. simpl. by rewrite IH2.
Qed.

End DepthRoundTrip.

(** X12. On a thread that has an entry in the depth table, [n] nested
    calls (n entries followed by n exits) that stay below the [u32] range
    leave the table exactly as it was, and each exit event carries the
    depth of the entry event it closes: from depth [d] the entries report
    [d+1, ..., d+n] and the exits report [d+n, ..., d+1]. *)
Theorem X12_nested_calls_report_matching_depths :
  forall (max_entries : nat) (pid_tgid : Z) (n : nat)
         (call_depth : gmap Z Z) (d : Z),
    call_depth !! BPF.current_tid pid_tgid = Some d ->
    0 <= d -> d + Z.of_nat n < 2 ^ 32 ->
    BPF.run_probes max_entries
      (replicate n (BPF.Entry pid_tgid) ++ replicate n (BPF.Exit pid_tgid))
      call_depth = call_depth /\
    BPF.emitted_depths max_entries
      (replicate n (BPF.Entry pid_tgid) ++ replicate n (BPF.Exit pid_tgid))
      call_depth
    = seqZ (d + 1) (Z.of_nat n) ++ rev (seqZ (d + 1) (Z.of_nat n)).
Proof. intros. by apply entries_then_exits. Qed.

Lemma X12_nested_calls_witness :
  BPF.run_probes 4 (replicate 2 (BPF.Entry 7) ++ replicate 2 (BPF.Exit 7))
                 (<[7 := 0]> ∅) = <[7 := 0]> ∅ /\
  BPF.emitted_depths 4 (replicate 2 (BPF.Entry 7) ++ replicate 2 (BPF.Exit 7))
                     (<[7 := 0]> ∅)
  = seqZ (0 + 1) (Z.of_nat 2) ++ rev (seqZ (0 + 1) (Z.of_nat 2)).
Proof.
  apply (X12_nested_calls_report_matching_depths 4 7 2 (<[7 := 0]> ∅) 0);
    [reflexivity|lia|simpl; lia].
Defined.

(** X13. The handlers ignore the result of the table update.  When the
    depth table is full, a thread that has no entry in it never gets one:
    whatever its calls, the table stays as it is, every entry event
    reports depth 1 and every exit event reports depth 0. *)
Theorem X13_full_table_loses_depth :
  forall (max_entries : nat) (ps : list BPF.probe)
         (call_depth : gmap Z Z) (tid : Z),
    call_depth !! tid = None ->
    (max_entries <= size call_depth)%nat ->
    Forall (fun p => BPF.probe_tid p = tid) ps ->
    BPF.run_probes max_entries ps call_depth = call_depth /\
    BPF.emitted_depths max_entries ps call_depth
    = map (fun p => match p with BPF.Entry _ => 1 | BPF.Exit _ => 0 end) ps.
Proof.
  intros max_entries ps call_depth tid Hnone Hfull Hall.
  exact (full_table_new_thread max_entries ps call_depth tid Hnone Hfull Hall).
Qed.

Lemma X13_full_table_witness :
  BPF.run_probes 1 [BPF.Entry 7; BPF.Entry 7; BPF.Exit 7; BPF.Exit 7]
                 (<[9 := 3]> ∅) = <[9 := 3]> ∅ /\
  BPF.emitted_depths 1 [BPF.Entry 7; BPF.Entry 7; BPF.Exit 7; BPF.Exit 7]
                     (<[9 := 3]> ∅)
  = map (fun p => match p with BPF.Entry _ => 1 | BPF.Exit _ => 0 end)
        [BPF.Entry 7; BPF.Entry 7; BPF.Exit 7; BPF.Exit 7].
Proof.
  apply (X13_full_table_loses_depth 1 _ (<[9 := 3]> ∅) 7); [reflexivity| |].
  - vm_compute. lia.
  - repeat (apply Forall_cons_2; [reflexivity|]). apply Forall_nil_2.
Defined.

(** ** The memory probes *)

Section MemoryProbes.
Variable max_entries : nat.

Lemma update_lookup_ne (m : gmap Z Z) (k k' v : Z) :
  k <> k' -> BPF.update max_entries m k v !! k' = m !! k'.
Proof.
  intros Hne. unfold BPF.update.
  destruct (m !! k); [by rewrite lookup_insert_ne|].
  destruct (decide _); [by rewrite lookup_insert_ne|done].
Qed.

Lemma update_lookup_room (m : gmap Z Z) (k v : Z) :
  is_Some (m !! k) \/ (size m < max_entries)%nat ->
  BPF.update max_entries m k v !! k = Some v.
Proof.
  intros Hroom. unfold BPF.update.
  destruct (m !! k) eqn:Hk; [by rewrite lookup_insert_eq|].
  destruct Hroom as [[? ?]|Hlt]; [done|].
  rewrite decide_True by done. by rewrite lookup_insert_eq.
Qed.

Lemma exit_pending_alloc (f : Probes.firing) (t : Probes.tables) :
  Probes.pending_alloc_size (fst (Probes.trace_cuda_exit max_entries f t))
  = Probes.pending_alloc_size t.
Proof.
  unfold Probes.trace_cuda_exit. cbn [fst].
  by destruct (Probes.entry_timestamp _ !! _).
Qed.

Lemma entry_pending_alloc (f : Probes.firing) (t : Probes.tables) :
  Probes.pending_alloc_size (fst (Probes.trace_cuda_entry max_entries f t))
  = Probes.pending_alloc_size t.
Proof. reflexivity. Qed.

(** A firing of another thread, or of a handler that is not one of the
    [cuMemAlloc] probes, leaves the pending size of the thread alone. *)
Lemma fire_pending_alloc_frame (h : Probes.handler) (f : Probes.firing)
    (t : Probes.tables) (tid : Z) :
  Probes.firing_tid (h, f) <> tid \/ Probes.is_alloc_handler h = false ->
  Probes.pending_alloc_size (fst (Probes.fire max_entries h f t)) !! tid
  = Probes.pending_alloc_size t !! tid.
Proof.
  unfold Probes.firing_tid. cbn [snd].
  intros Hframe. destruct h; cbn [Probes.fire];
    try (destruct Hframe as [Hne|Hh]; [|done]).
  - done.
  - by rewrite exit_pending_alloc.
  - unfold Probes.trace_cuMemAlloc_entry. rewrite entry_pending_alloc.
    cbn. by apply update_lookup_ne.
  - unfold Probes.trace_cuMemAlloc_exit.
    destruct (Probes.pending_alloc_size t !! _) eqn:Hp;
      [|by rewrite exit_pending_alloc].
    destruct (_ =? 0); [|by rewrite exit_pending_alloc].
    cbn [fst]. rewrite exit_pending_alloc. cbn.
    by rewrite lookup_delete_ne.
  - done.
  - done.
  - done.
  - unfold Probes.trace_cuMemcpy_exit.
    destruct (Probes.pending_copy_size t !! _);
      [|by rewrite exit_pending_alloc].
    destruct (Probes.pending_copy_dir t !! _);
      [|by rewrite exit_pending_alloc].
    destruct (_ =? 0); [|by rewrite exit_pending_alloc].
    cbn [fst]. by rewrite exit_pending_alloc.
  - done.
  - done.
  - done.
Qed.

Lemma run_pending_alloc_frame (ps : list (Probes.handler * Probes.firing))
    (t : Probes.tables) (tid : Z) :
  Forall (fun p => Probes.firing_tid p <> tid
                   \/ Probes.is_alloc_handler (fst p) = false) ps ->
  Probes.pending_alloc_size (fst (Probes.run_probes max_entries ps t)) !! tid
  = Probes.pending_alloc_size t !! tid.
Proof.
  intros Hall. revert t.
  induction Hall as [|[h f] ps Hp _ IH]; intros t; [done|].
  cbn [Probes.run_probes fst snd]. rewrite IH.
  by apply fire_pending_alloc_frame.
Qed.


(** *** The two tables of a pending copy *)

Lemma exit_pending_copy (f : Probes.firing) (t : Probes.tables) :
  Probes.pending_copy_size (fst (Probes.trace_cuda_exit max_entries f t))
  = Probes.pending_copy_size t /\
  Probes.pending_copy_dir (fst (Probes.trace_cuda_exit max_entries f t))
  = Probes.pending_copy_dir t /\
  Probes.copy_directions (snd (Probes.trace_cuda_exit max_entries f t)) = [].
Proof.
  unfold Probes.trace_cuda_exit. cbn [fst snd].
  by destruct (Probes.entry_timestamp _ !! _).
Qed.

Lemma same_dom_lookup (m1 m2 : gmap Z Z) (k : Z) :
  dom m1 = dom m2 -> is_Some (m1 !! k) <-> is_Some (m2 !! k).
Proof. intros Hdom. by rewrite <- !elem_of_dom, Hdom. Qed.

Lemma same_dom_size (m1 m2 : gmap Z Z) :
  dom m1 = dom m2 -> size m1 = size m2.
Proof. intros Hdom. by rewrite <- !size_dom, Hdom. Qed.

Lemma copy_entry_ok (f : Probes.firing) (direction : Z) (t : Probes.tables) :
  direction = 1 \/ direction = 2 \/ direction = 3 ->
  Probes.copy_tables_ok t ->
  Probes.copy_tables_ok (fst (Probes.trace_cuMemcpy_entry max_entries f direction t)) /\
  Probes.copy_directions
    (snd (Probes.trace_cuMemcpy_entry max_entries f direction t)) = [].
Proof.
  intros Hdir [Hdom Hvals]. split; [|done].
  unfold Probes.trace_cuMemcpy_entry, Probes.copy_tables_ok. cbn.
  assert (Hu : BPF.u32 direction = direction)
    by (destruct Hdir as [->|[->| ->]]; reflexivity).
  rewrite Hu. unfold BPF.update.
  pose proof (same_dom_lookup _ _ (BPF.current_tid (Probes.pid_tgid f)) Hdom)
    as Hk.
  rewrite <- (same_dom_size _ _ Hdom).
  destruct (Probes.pending_copy_size t !! _) as [s|] eqn:Hs;
    destruct (Probes.pending_copy_dir t !! _) as [d|] eqn:Hd.
  - split; [by rewrite !dom_insert_L, Hdom|].
    by apply map_Forall_insert_2.
  - destruct Hk as [Hk _]. by destruct Hk.
  - destruct Hk as [_ Hk]. by destruct Hk.
  - destruct (decide _); [|done].
    split; [by rewrite !dom_insert_L, Hdom|].
    by apply map_Forall_insert_2.
Qed.

Lemma copy_exit_ok (f : Probes.firing) (t : Probes.tables) :
  Probes.copy_tables_ok t ->
  Probes.copy_tables_ok (fst (Probes.trace_cuMemcpy_exit max_entries f t)) /\
  Forall (fun d => d = 1 \/ d = 2 \/ d = 3)
    (Probes.copy_directions (snd (Probes.trace_cuMemcpy_exit max_entries f t))).
Proof.
  intros [Hdom Hvals].
  assert (Hsame : forall g t',
    Probes.pending_copy_size t' = Probes.pending_copy_size t ->
    Probes.pending_copy_dir t' = Probes.pending_copy_dir t ->
    Probes.copy_tables_ok (fst (Probes.trace_cuda_exit max_entries g t')) /\
    Forall (fun d => d = 1 \/ d = 2 \/ d = 3)
      (Probes.copy_directions (snd (Probes.trace_cuda_exit max_entries g t')))).
  { intros g t' Hs Hd.
    destruct (exit_pending_copy g t') as (Hs' & Hd' & ->).
    split; [|constructor].
    unfold Probes.copy_tables_ok. by rewrite Hs', Hd', Hs, Hd. }
  unfold Probes.trace_cuMemcpy_exit.
  destruct (Probes.pending_copy_size t !! _) as [s|] eqn:Hs; [|by apply Hsame].
  destruct (Probes.pending_copy_dir t !! _) as [d|] eqn:Hd; [|by apply Hsame].
  destruct (_ =? 0); [|by apply Hsame].
  cbn [fst snd].
  destruct (exit_pending_copy (Probes.next_reading f)
    (Probes.with_pending_copy_dir
       (delete (BPF.current_tid (Probes.pid_tgid f))
          (Probes.pending_copy_dir
             (Probes.with_pending_copy_size
                (delete (BPF.current_tid (Probes.pid_tgid f))
                   (Probes.pending_copy_size
                      (snd (Probes.get_event_id t))))
                (snd (Probes.get_event_id t)))))
       (Probes.with_pending_copy_size
          (delete (BPF.current_tid (Probes.pid_tgid f))
             (Probes.pending_copy_size (snd (Probes.get_event_id t))))
          (snd (Probes.get_event_id t))))) as (Hs' & Hd' & Hev).
  split.
  - unfold Probes.copy_tables_ok. rewrite Hs', Hd'. cbn.
    split; [by rewrite !dom_delete_L, Hdom|].
    by apply map_Forall_delete.
  - unfold Probes.copy_directions. cbn [omap list_omap Probes.data].
    fold (Probes.copy_directions
            (snd (Probes.trace_cuda_exit max_entries (Probes.next_reading f)
               (Probes.with_pending_copy_dir
       (delete (BPF.current_tid (Probes.pid_tgid f))
          (Probes.pending_copy_dir
             (Probes.with_pending_copy_size
                (delete (BPF.current_tid (Probes.pid_tgid f))
                   (Probes.pending_copy_size
                      (snd (Probes.get_event_id t))))
                (snd (Probes.get_event_id t)))))
       (Probes.with_pending_copy_size
          (delete (BPF.current_tid (Probes.pid_tgid f))
             (Probes.pending_copy_size (snd (Probes.get_event_id t))))
          (snd (Probes.get_event_id t))))))).
    rewrite Hev. constructor; [|constructor].
    exact (Hvals _ _ Hd).
Qed.

Lemma fire_copy_ok (h : Probes.handler) (f : Probes.firing)
    (t : Probes.tables) :
  Probes.copy_tables_ok t ->
  Probes.copy_tables_ok (fst (Probes.fire max_entries h f t)) /\
  Forall (fun d => d = 1 \/ d = 2 \/ d = 3)
    (Probes.copy_directions (snd (Probes.fire max_entries h f t))).
Proof.
  intros Hok.
  assert (Hexit : forall g t',
    Probes.pending_copy_size t' = Probes.pending_copy_size t ->
    Probes.pending_copy_dir t' = Probes.pending_copy_dir t ->
    Probes.copy_tables_ok (fst (Probes.trace_cuda_exit max_entries g t')) /\
    Forall (fun d => d = 1 \/ d = 2 \/ d = 3)
      (Probes.copy_directions (snd (Probes.trace_cuda_exit max_entries g t')))).
  { intros g t' Hs Hd.
    destruct (exit_pending_copy g t') as (Hs' & Hd' & ->).
    split; [|constructor].
    destruct Hok as [Hdom Hvals].
    unfold Probes.copy_tables_ok. by rewrite Hs', Hd', Hs, Hd. }
  destruct h; cbn [Probes.fire].
  - split; [exact Hok|constructor].
  - by apply Hexit.
  - split; [exact Hok|constructor].
  - unfold Probes.trace_cuMemAlloc_exit.
    destruct (Probes.pending_alloc_size t !! _); [|by apply Hexit].
    destruct (_ =? 0); [|by apply Hexit].
    cbn [fst snd].
    unfold Probes.copy_directions. cbn [omap list_omap Probes.data].
    by apply Hexit.
  - destruct (copy_entry_ok f 1 t ltac:(by left) Hok) as [H1 H2].
    unfold Probes.trace_cuMemcpyHtoD_entry. rewrite H2.
    split; [exact H1|constructor].
  - destruct (copy_entry_ok f 2 t ltac:(by right; left) Hok) as [H1 H2].
    unfold Probes.trace_cuMemcpyDtoH_entry. rewrite H2.
    split; [exact H1|constructor].
  - destruct (copy_entry_ok f 3 t ltac:(by right; right) Hok) as [H1 H2].
    unfold Probes.trace_cuMemcpyDtoD_entry. rewrite H2.
    split; [exact H1|constructor].
  - by apply copy_exit_ok.
  - split; [exact Hok|constructor].
  - split; [exact Hok|constructor].
  - split; [exact Hok|constructor].
Qed.

Lemma copy_directions_app (evs1 evs2 : list Probes.event_t) :
  Probes.copy_directions (evs1 ++ evs2)
  = Probes.copy_directions evs1 ++ Probes.copy_directions evs2.
Proof. apply omap_app. Qed.

Lemma run_copy_ok (ps : list (Probes.handler * Probes.firing))
    (t : Probes.tables) :
  Probes.copy_tables_ok t ->
  Probes.copy_tables_ok (fst (Probes.run_probes max_entries ps t)) /\
  Forall (fun d => d = 1 \/ d = 2 \/ d = 3)
    (Probes.copy_directions (snd (Probes.run_probes max_entries ps t))).
Proof.
  revert t. induction ps as [|[h f] ps IH]; intros t Hok.
  - split; [exact Hok|constructor].
  - cbn [Probes.run_probes fst snd].
    destruct (fire_copy_ok h f t Hok) as [Hok1 Hev1].
    destruct (IH _ Hok1) as [Hok2 Hev2].
    split; [exact Hok2|].
    rewrite copy_directions_app. by apply Forall_app.
Qed.


(** *** The entry timestamp of a thread *)

Lemma current_tid_range (pt : Z) : 0 <= BPF.current_tid pt < 2 ^ 32.
Proof.
  unfold BPF.current_tid. change 0xFFFFFFFF with (Z.ones 32).
  rewrite Z.land_ones by lia. apply Z.mod_pos_bound. lia.
Qed.

Lemma timestamp_key_inj (pt1 pt2 : Z) :
  Probes.timestamp_key (BPF.current_tid pt1)
  = Probes.timestamp_key (BPF.current_tid pt2) ->
  BPF.current_tid pt1 = BPF.current_tid pt2.
Proof.
  pose proof (current_tid_range pt1). pose proof (current_tid_range pt2).
  unfold Probes.timestamp_key, Probes.u64.
  rewrite !Z.shiftl_mul_pow2 by lia.
  rewrite !Z.mod_small by lia. lia.
Qed.

Lemma exit_entry_timestamp (f : Probes.firing) (t : Probes.tables) :
  Probes.entry_timestamp (fst (Probes.trace_cuda_exit max_entries f t))
  = Probes.entry_timestamp t.
Proof.
  unfold Probes.trace_cuda_exit. cbn [fst].
  by destruct (Probes.entry_timestamp _ !! _).
Qed.

Lemma entry_entry_timestamp (f : Probes.firing) (t : Probes.tables) :
  Probes.entry_timestamp (fst (Probes.trace_cuda_entry max_entries f t))
  = BPF.update max_entries (Probes.entry_timestamp t)
      (Probes.timestamp_key (BPF.current_tid (Probes.pid_tgid f)))
      (Probes.ktime_ns f).
Proof. reflexivity. Qed.

(** What an entry handler does to the table of entry timestamps. *)
Lemma fire_entry_timestamp (h : Probes.handler) (f : Probes.firing)
    (t : Probes.tables) :
  Probes.is_entry_handler h = true ->
  Probes.entry_timestamp (fst (Probes.fire max_entries h f t))
  = BPF.update max_entries (Probes.entry_timestamp t)
      (Probes.timestamp_key (BPF.current_tid (Probes.pid_tgid f)))
      (Probes.entry_reading h f).
Proof. by destruct h. Qed.

(** The other handlers leave it as it is. *)
Lemma fire_exit_timestamp (h : Probes.handler) (f : Probes.firing)
    (t : Probes.tables) :
  Probes.is_entry_handler h = false ->
  Probes.entry_timestamp (fst (Probes.fire max_entries h f t))
  = Probes.entry_timestamp t.
Proof.
  destruct h; try done; intros _; cbn [Probes.fire].
  - apply exit_entry_timestamp.
  - unfold Probes.trace_cuMemAlloc_exit.
    destruct (Probes.pending_alloc_size t !! _);
      [|apply exit_entry_timestamp].
    destruct (_ =? 0); [|apply exit_entry_timestamp].
    cbn [fst]. by rewrite exit_entry_timestamp.
  - unfold Probes.trace_cuMemcpy_exit.
    destruct (Probes.pending_copy_size t !! _);
      [|apply exit_entry_timestamp].
    destruct (Probes.pending_copy_dir t !! _);
      [|apply exit_entry_timestamp].
    destruct (_ =? 0); [|apply exit_entry_timestamp].
    cbn [fst]. by rewrite exit_entry_timestamp.
Qed.

Lemma run_entry_timestamp_frame (ps : list (Probes.handler * Probes.firing))
    (t : Probes.tables) (pt : Z) :
  Forall (fun p => Probes.firing_tid p <> BPF.current_tid pt
                   \/ Probes.is_entry_handler (fst p) = false) ps ->
  Probes.entry_timestamp (fst (Probes.run_probes max_entries ps t))
    !! Probes.timestamp_key (BPF.current_tid pt)
  = Probes.entry_timestamp t !! Probes.timestamp_key (BPF.current_tid pt).
Proof.
  intros Hall. revert t.
  induction Hall as [|[h f] ps Hp _ IH]; intros t; [done|].
  cbn [Probes.run_probes fst snd]. rewrite IH.
  unfold Probes.firing_tid in Hp. cbn [fst snd] in Hp.
  destruct (Probes.is_entry_handler h) eqn:Hh.
  - destruct Hp as [Hne|?]; [|done].
    rewrite fire_entry_timestamp by done.
    apply update_lookup_ne. intros Hk. by apply Hne, timestamp_key_inj.
  - by rewrite fire_exit_timestamp.
Qed.

End MemoryProbes.

(** X14. An allocation event reports the size of the [cuMemAlloc] call it
    belongs to.  When the entry probe of [cuMemAlloc] fires on a thread
    that has a slot in [pending_alloc_size] or can get one, then, whatever
    other threads and the other probes of the thread do in between, the
    exit probe of the thread submits one allocation event with the size
    passed at entry when the call returned 0, and removes the pending
    size; when the call failed it submits no allocation event and the
    pending size stays in the table. *)
Theorem X14_alloc_event_reports_entry_size :
  forall (max_entries : nat) (t : Probes.tables)
         (f_entry f_exit : Probes.firing)
         (between : list (Probes.handler * Probes.firing)),
    let tid := BPF.current_tid (Probes.pid_tgid f_entry) in
    let t1 := fst (Probes.run_probes max_entries
                     ((Probes.cuMemAlloc_entry, f_entry) :: between) t) in
    let r := Probes.trace_cuMemAlloc_exit max_entries f_exit t1 in
    is_Some (Probes.pending_alloc_size t !! tid)
    \/ (size (Probes.pending_alloc_size t) < max_entries)%nat ->
    BPF.current_tid (Probes.pid_tgid f_exit) = tid ->
    Forall (fun p => Probes.firing_tid p <> tid
                     \/ Probes.is_alloc_handler (fst p) = false) between ->
    Probes.alloc_sizes (snd r)
    = (if Probes.s64 (Probes.rc (Probes.ctx f_exit)) =? 0
       then [Probes.parm2 (Probes.ctx f_entry)] else []) /\
    Probes.pending_alloc_size (fst r) !! tid
    = (if Probes.s64 (Probes.rc (Probes.ctx f_exit)) =? 0
       then None else Some (Probes.parm2 (Probes.ctx f_entry))).
Proof.
  intros max_entries t f_entry f_exit between tid t1 r Hroom Htid Hbetween.
  assert (Hp : Probes.pending_alloc_size t1 !! tid
               = Some (Probes.parm2 (Probes.ctx f_entry))).
  { unfold t1. cbn [Probes.run_probes fst snd].
    rewrite run_pending_alloc_frame by done.
    cbn [Probes.fire]. unfold Probes.trace_cuMemAlloc_entry.
    rewrite entry_pending_alloc. cbn [Probes.pending_alloc_size
      Probes.with_pending_alloc_size].
    by apply update_lookup_room. }
  unfold r, Probes.trace_cuMemAlloc_exit. rewrite Htid, Hp.
  destruct (_ =? 0).
  - cbn [fst snd]. rewrite exit_pending_alloc. cbn. split; [done|].
    by rewrite lookup_delete_eq.
  - rewrite exit_pending_alloc. by split.
Qed.

Lemma X14_alloc_event_witness :
  Probes.alloc_sizes
    (snd (Probes.trace_cuMemAlloc_exit 1
            (Probes.mkFiring (Probes.mkRegs 0 0 0 0 0 0) 7 30 31)
            (fst (Probes.run_probes 1
                    [(Probes.cuMemAlloc_entry,
                      Probes.mkFiring (Probes.mkRegs 4096 0 0 0 0 0) 7 10 11);
                     (Probes.cuMemAlloc_entry,
                      Probes.mkFiring (Probes.mkRegs 512 0 0 0 0 0) 9 20 21)]
                    Probes.loaded))))
  = [4096] /\
  Probes.pending_alloc_size
    (fst (Probes.trace_cuMemAlloc_exit 1
            (Probes.mkFiring (Probes.mkRegs 0 0 0 0 0 0) 7 30 31)
            (fst (Probes.run_probes 1
                    [(Probes.cuMemAlloc_entry,
                      Probes.mkFiring (Probes.mkRegs 4096 0 0 0 0 0) 7 10 11);
                     (Probes.cuMemAlloc_entry,
                      Probes.mkFiring (Probes.mkRegs 512 0 0 0 0 0) 9 20 21)]
                    Probes.loaded)))) !! 7
  = None.
Proof.
  apply (X14_alloc_event_reports_entry_size 1 Probes.loaded
           (Probes.mkFiring (Probes.mkRegs 4096 0 0 0 0 0) 7 10 11)
           (Probes.mkFiring (Probes.mkRegs 0 0 0 0 0 0) 7 30 31)
           [(Probes.cuMemAlloc_entry,
             Probes.mkFiring (Probes.mkRegs 512 0 0 0 0 0) 9 20 21)]).
  - right. vm_compute. lia.
  - reflexivity.
  - apply Forall_cons_2; [|apply Forall_nil_2]. left. vm_compute. discriminate.
Defined.

(** X15. The size and the direction of a pending copy are kept in two
    tables that always hold the same threads: from the loaded program,
    after any firings of any handlers, a thread has a pending copy size
    exactly when it has a pending copy direction, and every copy event
    submitted carries one of the directions 1, 2 and 3. *)
Theorem X15_copy_tables_hold_same_threads :
  forall (max_entries : nat) (ps : list (Probes.handler * Probes.firing)),
    dom (Probes.pending_copy_size
           (fst (Probes.run_probes max_entries ps Probes.loaded)))
    = dom (Probes.pending_copy_dir
             (fst (Probes.run_probes max_entries ps Probes.loaded))) /\
    Forall (fun d => d = 1 \/ d = 2 \/ d = 3)
      (Probes.copy_directions
         (snd (Probes.run_probes max_entries ps Probes.loaded))).
Proof.
  intros max_entries ps.
  assert (Hok : Probes.copy_tables_ok Probes.loaded).
  { split; [done|]. apply map_Forall_empty. }
  destruct (run_copy_ok max_entries ps Probes.loaded Hok) as [[Hdom _] Hev].
  by split.
Qed.

(** X16. The entry timestamp of a thread is overwritten by every entry
    probe of the thread and never removed, so an exit is timed from the
    latest entry of its thread, also when that entry belongs to a nested
    call that has returned already: after an entry handler has fired on a
    thread that has a slot in [entry_timestamp] or can get one, and
    whatever firings follow other than entry handlers of the same thread,
    the generic exit handler adds the time since that entry, modulo 2^64,
    to the total duration of the thread and 1 to its call count. *)
Theorem X16_exit_timed_from_latest_entry :
  forall (max_entries : nat) (t : Probes.tables) (h : Probes.handler)
         (f_entry f_exit : Probes.firing)
         (between : list (Probes.handler * Probes.firing)),
    let tid := BPF.current_tid (Probes.pid_tgid f_entry) in
    let key := Probes.timestamp_key tid in
    let t1 := fst (Probes.run_probes max_entries ((h, f_entry) :: between) t) in
    let t2 := fst (Probes.trace_cuda_exit max_entries f_exit t1) in
    Probes.is_entry_handler h = true ->
    is_Some (Probes.entry_timestamp t !! key)
    \/ (size (Probes.entry_timestamp t) < max_entries)%nat ->
    BPF.current_tid (Probes.pid_tgid f_exit) = tid ->
    Forall (fun p => Probes.firing_tid p <> tid
                     \/ Probes.is_entry_handler (fst p) = false) between ->
    Probes.total_duration t2
    = Probes.increment max_entries (Probes.total_duration t1) key
        (Probes.u64 (Probes.ktime_ns f_exit - Probes.entry_reading h f_entry)) /\
    Probes.call_count t2
    = Probes.increment max_entries (Probes.call_count t1) key 1.
Proof.
  intros max_entries t h f_entry f_exit between tid key t1 t2
         Hh Hroom Htid Hbetween.
  assert (Hts : Probes.entry_timestamp t1 !! key
                = Some (Probes.entry_reading h f_entry)).
  { unfold t1, key, tid. cbn [Probes.run_probes fst snd].
    rewrite run_entry_timestamp_frame by done.
    rewrite fire_entry_timestamp by done.
    by apply update_lookup_room. }
  unfold t2, Probes.trace_cuda_exit. cbn [fst].
  rewrite Htid. fold key.
  change (Probes.entry_timestamp
            (Probes.with_call_depth
               (fst (BPF.trace_cuda_exit max_entries (Probes.pid_tgid f_exit)
                       (Probes.call_depth (snd (Probes.get_event_id t1)))))
               (snd (Probes.get_event_id t1))))
    with (Probes.entry_timestamp t1).
  rewrite Hts. by split.
Qed.

Lemma X16_exit_timed_witness :
  Probes.total_duration
    (fst (Probes.run_probes 4
            [(Probes.cuda_entry,
              Probes.mkFiring (Probes.mkRegs 0 0 0 0 0 0) 7 100 0);
             (Probes.cuda_entry,
              Probes.mkFiring (Probes.mkRegs 0 0 0 0 0 0) 7 200 0);
             (Probes.cuda_exit,
              Probes.mkFiring (Probes.mkRegs 0 0 0 0 0 0) 7 250 0);
             (Probes.cuda_exit,
              Probes.mkFiring (Probes.mkRegs 0 0 0 0 0 0) 7 1000 0)]
            Probes.loaded))
    !! Probes.timestamp_key 7
  = Some (50 + 800).
Proof.
  pose proof (X16_exit_timed_from_latest_entry 4
    (fst (Probes.fire 4 Probes.cuda_entry
            (Probes.mkFiring (Probes.mkRegs 0 0 0 0 0 0) 7 100 0)
            Probes.loaded))
    Probes.cuda_entry
    (Probes.mkFiring (Probes.mkRegs 0 0 0 0 0 0) 7 200 0)
    (Probes.mkFiring (Probes.mkRegs 0 0 0 0 0 0) 7 1000 0)
    [(Probes.cuda_exit, Probes.mkFiring (Probes.mkRegs 0 0 0 0 0 0) 7 250 0)])
    as H.
  cbv zeta in H.
  destruct H as [Hd _].
  - reflexivity.
  - left. vm_compute. eauto.
  - reflexivity.
  - apply Forall_cons_2; [|apply Forall_nil_2]. by right.
  - cbn [Probes.run_probes fst snd app].
    cbn [Probes.run_probes fst snd app] in Hd.
    change (Probes.fire 4 Probes.cuda_exit) with (Probes.trace_cuda_exit 4).
    change (Probes.fire 4 Probes.cuda_exit) with (Probes.trace_cuda_exit 4) in Hd.
    rewrite Hd. vm_compute. reflexivity.
Defined.
